(** * Turn-by-turn BPM data transcoder ([bpm_data_comparer.py])

    A shallow embedding of the two format handlers of the repository,
    [BPMDataParen] (the parenthesised [.data] format) and [BPMDataSDDS] (the
    row-tagged [.sdds] format), with the properties of their readers, writers
    and query surface, and of the script that converts a folder with them
    ([convert_sdds_to_data.py]).

    Conventions of the embedding.
    - A Python [str] is a [list ascii]; a character is its code point, so the
      texts covered are those over code points 0..255.
    - A NumPy [float64] is a [spec_float] of the Standard Library at
      precision 53 and maximal exponent 1024 (IEEE 754 binary64).
    - A Python [dict] keyed by strings is a [gmap]; the order of the keys is
      never observed by the code except through [sorted].
    - A Python exception is a value of [exn]; a call that can raise returns
      in [result].
    - The file system of the converter is a [gmap] from paths to regular
      files, with their decoded text, and folders; [pathlib] and [glob] are
      library code, taken as the variables of a section. *)

From Stdlib Require Import ZArith NArith Ascii SpecFloat.
From Stdlib Require String Decimal.
From stdpp Require Import gmap strings list fin_maps sorting.

Abbreviation text := (list ascii).
Abbreviation float := spec_float.

(** A string literal read as a text. *)
Definition txt (s : string) : text := String.list_ascii_of_string s.

(** ** Characters *)

Module Char.

Definition ord (c : ascii) : N := N_of_ascii c.

(** The double quote, the backslash and the line feed. *)
Definition dquote : ascii := "034"%char.
Definition backslash : ascii := "092"%char.
Definition newline : ascii := "010"%char.

(** [str.isspace], which is also the class [\s] of [re] on [str] patterns:
    on code points below 256 these are 9..13, 28..31, 32, 133 and 160. *)
Definition isspace (c : ascii) : bool :=
  let n := ord c in
  ((9 <=? n) && (n <=? 13) || (28 <=? n) && (n <=? 31)
   || (n =? 32) || (n =? 133) || (n =? 160))%N.

(** The class [\d]: below 256 the decimal digits are 0..9 only. *)
Definition isdigit (c : ascii) : bool :=
  let n := ord c in ((48 <=? n) && (n <=? 57))%N.

(** The class [[+-]]. *)
Definition issign (c : ascii) : bool :=
  match c with "+"%char | "-"%char => true | _ => false end.

(** The class [[Ee]]. *)
Definition isexp (c : ascii) : bool :=
  match c with "E"%char | "e"%char => true | _ => false end.

(** The line boundaries of [str.splitlines] other than the pair CR LF. *)
Definition islinebreak (c : ascii) : bool :=
  let n := ord c in
  ((10 <=? n) && (n <=? 13) || (28 <=? n) && (n <=? 30) || (n =? 133))%N.

(** [str.lower] on one character: A..Z and the accented capitals
    192..222 (without the multiplication sign 215) move up by 32. *)
Definition lower (c : ascii) : ascii :=
  let n := ord c in
  if ((65 <=? n) && (n <=? 90)
      || (192 <=? n) && (n <=? 222) && negb (n =? 215))%N
  then ascii_of_N (n + 32) else c.

Definition eqb (a b : ascii) : bool := Ascii.eqb a b.

End Char.

(** ** Python string methods *)

Module Str.

(** The longest prefix whose characters satisfy [p], and the rest. *)
Fixpoint span (p : ascii → bool) (s : text) : text * text :=
  match s with
  | c :: r => if p c then let '(a, b) := span p r in (c :: a, b) else ([], s)
  | [] => ([], [])
  end.

Definition lstrip (s : text) : text := snd (span Char.isspace s).
Definition rstrip (s : text) : text := reverse (lstrip (reverse s)).
(** [s.strip()] *)
Definition strip (s : text) : text := rstrip (lstrip s).

(** [s.lower()] *)
Definition lower (s : text) : text := map Char.lower s.

(** [s.startswith(p)] *)
Fixpoint startswith (p s : text) : bool :=
  match p, s with
  | [], _ => true
  | a :: p', b :: s' => Char.eqb a b && startswith p' s'
  | _ :: _, [] => false
  end.

(** [sep.join(parts)] *)
Fixpoint join (sep : text) (parts : list text) : text :=
  match parts with
  | [] => []
  | [p] => p
  | p :: rest => p ++ sep ++ join sep rest
  end.

(** [s.splitlines()]: the lines without their boundaries; CR LF is one
    boundary, and a boundary at the very end opens no further line. *)
Fixpoint splitlines_aux (cur : text) (s : text) : list text :=
  match s with
  | [] => match cur with [] => [] | _ => [reverse cur] end
  | c :: r =>
      if Char.islinebreak c then
        match c, r with
        | "013"%char, "010"%char :: r' => reverse cur :: splitlines_skip r
        | _, _ => reverse cur :: splitlines_aux [] r
        end
      else splitlines_aux (c :: cur) r
  end
with splitlines_skip (s : text) : list text :=
  match s with
  | [] => []
  | _ :: r => splitlines_aux [] r
  end.

Definition splitlines (s : text) : list text := splitlines_aux [] s.

(** [s.split(None, maxsplit)]: at most [maxsplit] words separated by runs
    of white space, then the remainder without its leading white space
    (its trailing white space is kept). The recursion is on the text, with
    the word being read in [cur]. *)
Fixpoint split_ws_aux (maxsplit : nat) (cur : option text) (s : text)
  : list text :=
  match s with
  | [] => match cur with Some w => [reverse w] | None => [] end
  | c :: r =>
      match cur with
      | Some w =>
          if Char.isspace c then reverse w :: split_ws_aux maxsplit None r
          else split_ws_aux maxsplit (Some (c :: w)) r
      | None =>
          if Char.isspace c then split_ws_aux maxsplit None r
          else
            match maxsplit with
            | O => [s]
            | S k => split_ws_aux k (Some [c]) r
            end
      end
  end.

Definition split_ws (maxsplit : nat) (s : text) : list text :=
  split_ws_aux maxsplit None s.

(** Is the text one of the given ones ([s in (a, b, ...)])? *)
Definition among (s : text) (l : list text) : bool := bool_decide (s ∈ l).

End Str.

(** ** binary64 numbers, [float(token)] and [format(v, ".7g")] *)

Module F64.

Definition prec : Z := 53.
Definition emax : Z := 1024.

(** [a * b] on [float64]. *)
Definition mul (a b : float) : float := SFmul prec emax a b.

Definition zero : float := S754_zero false.
Definition nan : float := S754_nan.

(** The float of an integer (correctly rounded). *)
Definition of_Z (z : Z) : float := binary_normalize prec emax z 0 false.

Definition is_finite (v : float) : bool :=
  match v with
  | S754_zero _ | S754_finite _ _ _ => true
  | S754_infinity _ | S754_nan => false
  end.

Definition is_nan (v : float) : bool :=
  match v with S754_nan => true | _ => false end.

(** *** Decimal to binary: Python's [float] on a numeric token *)

Definition digit_val (c : ascii) : Z := Z.of_N (Char.ord c) - 48.

Definition digits_val (ds : text) : Z :=
  foldl (λ acc c, 10 * acc + digit_val c)%Z 0%Z ds.

(** The binary64 number nearest to [m * 10^e10] (ties to even), with the
    sign [neg]; [m] is not negative. *)
Definition of_decimal (neg : bool) (m e10 : Z) : float :=
  if (0 <=? e10)%Z then
    match (m * 10 ^ e10)%Z with
    | Zpos p => binary_round prec emax neg p 0
    | _ => S754_zero neg
    end
  else
    match m with
    | Zpos _ =>
        let '(q, e, l) :=
          SFdiv_core_binary prec emax m 0 (10 ^ (- e10))%Z 0 in
        binary_round_aux prec emax neg q e l
    | _ => S754_zero neg
    end.

Definition split_sign (s : text) : bool * text :=
  match s with
  | "-"%char :: r => (true, r)
  | "+"%char :: r => (false, r)
  | _ => (false, s)
  end.

(** [float(tok)] for a token of the numeric grammar
    [[+-]?(\d*\.\d+|\d+)([Ee][+-]?\d+)?]: the digits of the integer and
    fractional parts make the mantissa, the exponent is lowered by the
    number of fractional digits. *)
Definition float_of_token (tok : text) : float :=
  let '(neg, s1) := split_sign tok in
  let '(ip, s2) := Str.span Char.isdigit s1 in
  let '(fp, s3) :=
    match s2 with
    | "."%char :: r => Str.span Char.isdigit r
    | _ => ([], s2)
    end in
  let ex :=
    match s3 with
    | c :: r =>
        if Char.isexp c then
          let '(eneg, r') := split_sign r in
          let ev := digits_val (fst (Str.span Char.isdigit r')) in
          if eneg then (- ev)%Z else ev
        else 0%Z
    | [] => 0%Z
    end in
  of_decimal neg (digits_val (ip ++ fp)) (ex - Z.of_nat (length fp)).

(** *** Binary to decimal: the general format with [P] significant digits *)

(** [n/d] rounded to the nearest integer, ties to even ([0 < d]). *)
Definition round_half_even (n d : Z) : Z :=
  let q := (n / d)%Z in
  match (2 * (n mod d) ?= d)%Z with
  | Lt => q
  | Gt => (q + 1)%Z
  | Eq => if Z.even q then q else (q + 1)%Z
  end.

(** The fraction [n/d] times [10^k]. *)
Definition scale10 (n d k : Z) : Z * Z :=
  if (0 <=? k)%Z then ((n * 10 ^ k)%Z, d) else (n, (d * 10 ^ (- k))%Z).

(** [n/d < 10^X] *)
Definition below_pow10 (n d X : Z) : bool :=
  let '(a, b) := scale10 n d (- X) in (a <? b)%Z.

(** The decimal exponent [X] of [n/d > 0], that is
    [10^X <= n/d < 10^(X+1)], searched from the estimate [X0]. *)
Fixpoint adjust_exp10 (fuel : nat) (n d X0 : Z) : Z :=
  match fuel with
  | O => X0
  | S f =>
      if below_pow10 n d X0 then adjust_exp10 f n d (X0 - 1)
      else if below_pow10 n d (X0 + 1) then X0
      else adjust_exp10 f n d (X0 + 1)
  end.

Definition exp10 (n d : Z) : Z :=
  adjust_exp10 8 n d ((Z.log2 n - Z.log2 d) * 30103 / 100000).

(** The [P] significant digits [D] of [n/d] and its decimal exponent after
    rounding: [n/d] is about [D * 10^(X-P+1)], [10^(P-1) <= D < 10^P]. *)
Definition sig_digits (P : nat) (n d : Z) : Z * Z :=
  let X := exp10 n d in
  let '(a, b) := scale10 n d (Z.of_nat P - 1 - X) in
  let D := round_half_even a b in
  if (D =? 10 ^ Z.of_nat P)%Z then ((10 ^ (Z.of_nat P - 1))%Z, (X + 1)%Z)
  else (D, X).

Definition digit_char (z : Z) : ascii := ascii_of_N (48 + Z.to_N z).

(** The last [k] decimal digits of [D], most significant first. *)
Fixpoint digits_fixed (k : nat) (D : Z) : text :=
  match k with
  | O => []
  | S k' => digits_fixed k' (D / 10) ++ [digit_char (D mod 10)]
  end.

Fixpoint uint_text (u : Decimal.uint) : text :=
  match u with
  | Decimal.Nil => []
  | Decimal.D0 u => "0"%char :: uint_text u
  | Decimal.D1 u => "1"%char :: uint_text u
  | Decimal.D2 u => "2"%char :: uint_text u
  | Decimal.D3 u => "3"%char :: uint_text u
  | Decimal.D4 u => "4"%char :: uint_text u
  | Decimal.D5 u => "5"%char :: uint_text u
  | Decimal.D6 u => "6"%char :: uint_text u
  | Decimal.D7 u => "7"%char :: uint_text u
  | Decimal.D8 u => "8"%char :: uint_text u
  | Decimal.D9 u => "9"%char :: uint_text u
  end.

(** [str(n)] for a natural number. *)
Definition decimal (n : N) : text := uint_text (N.to_uint n).

Definition iszero (c : ascii) : bool := Char.eqb c "0"%char.

Definition rstrip_zeros (ds : text) : text :=
  reverse (snd (Str.span iszero (reverse ds))).

Definition with_fraction (ip fp : text) : text :=
  match fp with
  | [] => ip
  | _ => ip ++ "."%char :: fp
  end.

Definition sign_text (neg : bool) : text :=
  if neg then ["-"%char] else [].

(** Fixed notation of the digits [ds] at decimal exponent [X], trailing
    zeros of the fraction and an empty fraction removed. *)
Definition fixed_notation (ds : text) (X : Z) : text :=
  if (0 <=? X)%Z then
    let k := S (Z.to_nat X) in
    with_fraction (take k ds) (rstrip_zeros (drop k ds))
  else
    with_fraction ["0"%char]
      (rstrip_zeros (replicate (Z.to_nat (- X - 1)) "0"%char ++ ds)).

(** Scientific notation: one digit, the fraction, and an exponent of at
    least two digits with its sign. *)
Definition sci_notation (ds : text) (X : Z) : text :=
  let ex := decimal (Z.to_N (Z.abs X)) in
  with_fraction (take 1 ds) (rstrip_zeros (drop 1 ds))
    ++ "e"%char :: (if (X <? 0)%Z then "-"%char else "+"%char)
    :: (if (length ex <? 2)%nat then "0"%char :: ex else ex).

(** [format(v, ".Pg")] for [P >= 1]: fixed notation when the decimal
    exponent after rounding is in [-4, P), scientific otherwise. *)
Definition format_g (P : nat) (v : float) : text :=
  match v with
  | S754_nan => txt "nan"
  | S754_infinity s => sign_text s ++ txt "inf"
  | S754_zero s => sign_text s ++ txt "0"
  | S754_finite s m e =>
      let '(n, d) :=
        if (0 <=? e)%Z then ((Zpos m * 2 ^ e)%Z, 1%Z)
        else (Zpos m, (2 ^ (- e))%Z) in
      let '(D, X) := sig_digits P n d in
      let ds := digits_fixed P D in
      sign_text s
        ++ (if (-4 <=? X)%Z && (X <? Z.of_nat P)%Z then fixed_notation ds X
            else sci_notation ds X)
  end.

(** The default number format of both writers, ["{:.7g}"]. *)
Definition format_7g : float → text := format_g 7.

(** *** Fixed notation with [P] decimals, padded to a width *)

(** The decimal digits of [D >= 0] with the point before the last [P]:
    at least one digit before the point, no point when [P] is 0. *)
Definition fixed_digits (P : nat) (D : Z) : text :=
  let ds := decimal (Z.to_N D) in
  let ds := replicate (S P - length ds) "0"%char ++ ds in
  let k := (length ds - P)%nat in
  match P with
  | O => ds
  | _ => take k ds ++ "."%char :: drop k ds
  end.

(** [format(v, "W.Pf")]: the value rounded to [P] decimals (ties to even),
    right-aligned on [W] characters. *)
Definition format_f (width P : nat) (v : float) : text :=
  let body :=
    match v with
    | S754_nan => txt "nan"
    | S754_infinity s => sign_text s ++ txt "inf"
    | S754_zero s => sign_text s ++ fixed_digits P 0
    | S754_finite s m e =>
        let '(n, d) :=
          if (0 <=? e)%Z then ((Zpos m * 2 ^ e)%Z, 1%Z)
          else (Zpos m, (2 ^ (- e))%Z) in
        sign_text s
          ++ fixed_digits P (round_half_even (n * 10 ^ Z.of_nat P) d)
    end in
  replicate (width - length body) " "%char ++ body.

End F64.

(** ** The regular expressions of the module

    Each pattern is embedded as the deterministic scanner that Python's
    backtracking matcher amounts to on it; the comments say why the greedy
    choice is the only one that can succeed. A search that resumes after a
    match is written with a count of characters still to skip, so that the
    recursion is on the text. *)

Module Re.

Definition skip_ws (s : text) : text := snd (Str.span Char.isspace s).

Definition expect (c : ascii) (s : text) : option text :=
  match s with
  | d :: r => if Char.eqb c d then Some r else None
  | [] => None
  end.

(** *** [_NUM_RE = [+-]?(?:\d*\.\d+|\d+)(?:[Ee][+-]?\d+)?] *)

(** [[+-]?]: the sign when there is one. Giving it back never helps: what
    follows would have to start on the sign itself. *)
Definition opt_sign (s : text) : text * text :=
  match s with
  | c :: r => if Char.issign c then ([c], r) else ([], s)
  | [] => ([], s)
  end.

(** [(?:\d*\.\d+|\d+)]: all the digits; then a dot and at least one digit
    (the first alternative), or else the digits alone when there are some
    (the second). *)
Definition mantissa (s : text) : option (text * text) :=
  let '(d1, r1) := Str.span Char.isdigit s in
  let digits_only :=
    match d1 with [] => None | _ => Some (d1, r1) end in
  match r1 with
  | c :: r2 =>
      if Char.eqb c "."%char then
        let '(d2, r3) := Str.span Char.isdigit r2 in
        match d2 with
        | [] => digits_only
        | _ => Some (d1 ++ "."%char :: d2, r3)
        end
      else digits_only
  | [] => digits_only
  end.

(** [(?:[Ee][+-]?\d+)?]: the exponent when it is complete, nothing
    otherwise. *)
Definition opt_exponent (s : text) : text * text :=
  match s with
  | c :: r =>
      if Char.isexp c then
        let '(sg, r1) := opt_sign r in
        let '(ds, r2) := Str.span Char.isdigit r1 in
        match ds with
        | [] => ([], s)
        | _ => (c :: sg ++ ds, r2)
        end
      else ([], s)
  | [] => ([], s)
  end.

(** A match of [_NUM_RE] at the start of [s]: the token. *)
Definition num_match (s : text) : option text :=
  let '(sg, r) := opt_sign s in
  '(m, r1) ← mantissa r;
  let '(ex, _) := opt_exponent r1 in
  Some (sg ++ m ++ ex).

Fixpoint num_findall_from (skip : nat) (s : text) : list text :=
  match s with
  | [] => []
  | _ :: r =>
      match skip with
      | S k => num_findall_from k r
      | O =>
          match num_match s with
          | Some tok => tok :: num_findall_from (pred (length tok)) r
          | None => num_findall_from 0 r
          end
      end
  end.

(** [_NUM_RE.findall(s)] *)
Definition num_findall (s : text) : list text := num_findall_from 0 s.

(** *** [re.sub(r'\\\s*\n\s*', '', s)] *)

(** A match at the start of [s]: a backslash and the whole run of white
    space after it, provided the run holds a line feed (the first [\s*]
    stops before the last line feed of the run, the second takes what
    follows it). The result is the number of characters matched. *)
Definition continuation_match (s : text) : option nat :=
  match s with
  | c :: r =>
      if Char.eqb c Char.backslash then
        let w := fst (Str.span Char.isspace r) in
        if existsb (Char.eqb Char.newline) w then Some (S (length w))
        else None
      else None
  | [] => None
  end.

Fixpoint continuation_sub_from (skip : nat) (s : text) : text :=
  match s with
  | [] => []
  | c :: r =>
      match skip with
      | S k => continuation_sub_from k r
      | O =>
          match continuation_match s with
          | Some n => continuation_sub_from (pred n) r
          | None => c :: continuation_sub_from 0 r
          end
      end
  end.

(** *** [_PATTERN], one entry [("name" -> {{..},{..},{..}})] *)

Definition notquote (c : ascii) : bool := negb (Char.eqb c Char.dquote).

Definition notbrace (c : ascii) : bool :=
  negb (Char.eqb c "{"%char || Char.eqb c "}"%char).

(** [\s*([^"]+)\s*"]: the three parts share the run of characters up to
    the next double quote, which must follow. The group is the run without
    its leading white space (the trailing white space stays in the group,
    which is greedy); a run of white space only leaves its last character
    to the group. *)
Definition quoted_name (s : text) : option (text * text) :=
  let '(run, r) := Str.span notquote s in
  r' ← expect Char.dquote r;
  match skip_ws run with
  | [] => c ← last run; Some ([c], r')
  | name => Some (name, r')
  end.

(** White space, the group of non-brace characters and the closing brace
    of one array: the run up to the next brace, which must be the closing
    one; the group is the run without its leading white space. *)
Definition array_body (s : text) : option (text * text) :=
  let '(body, r) := Str.span notbrace (skip_ws s) in
  r' ← expect "}"%char r;
  Some (body, r').

(** A match of [_PATTERN] at the start of [s]: the four groups and the
    text after the match. *)
Definition entry_match (s : text)
  : option (text * text * text * text * text) :=
  s ← expect "("%char s;
  s ← expect Char.dquote s;
  '(name, s) ← quoted_name s;
  s ← expect "-"%char (skip_ws s);
  s ← expect ">"%char s;
  s ← expect "{"%char (skip_ws s);
  s ← expect "{"%char (skip_ws s);
  '(a1, s) ← array_body s;
  s ← expect ","%char (skip_ws s);
  s ← expect "{"%char (skip_ws s);
  '(a2, s) ← array_body s;
  s ← expect ","%char (skip_ws s);
  s ← expect "{"%char (skip_ws s);
  '(a3, s) ← array_body s;
  s ← expect "}"%char (skip_ws s);
  s ← expect ")"%char (skip_ws s);
  Some (name, a1, a2, a3, s).

Fixpoint entry_finditer_from (skip : nat) (s : text)
  : list (text * text * text * text) :=
  match s with
  | [] => []
  | _ :: r =>
      match skip with
      | S k => entry_finditer_from k r
      | O =>
          match entry_match s with
          | Some (name, a1, a2, a3, rest) =>
              (name, a1, a2, a3)
                :: entry_finditer_from (length r - length rest) r
          | None => entry_finditer_from 0 r
          end
      end
  end.

(** [_PATTERN.finditer(s)], each match as its four groups. *)
Definition entry_finditer (s : text) : list (text * text * text * text) :=
  entry_finditer_from 0 s.

End Re.

(** [_join_line_continuations(s)] *)
Definition _join_line_continuations (s : text) : text :=
  Re.continuation_sub_from 0 s.

(** ** Exceptions and results *)

Inductive exn :=
| ValueError (msg : text)
| KeyError (arg : text)
| OverflowError (msg : text).

Inductive result (A : Type) :=
| Ok (a : A)
| Raise (e : exn).
Arguments Ok {A} a.
Arguments Raise {A} e.

#[global] Instance result_ret : MRet result := λ A a, Ok a.
#[global] Instance result_bind : MBind result := λ A B f m,
  match m with Ok a => f a | Raise e => Raise e end.

(** ** The Dataset shared by the two handlers *)

(** The component triple of one BPM. *)
Record components := Components {
  c_x : list float;
  c_y : list float;
  c_z : list float
}.

(** [self._data]: BPM name to component triple. *)
Abbreviation dataset := (gmap text components).

(** Code-point order on texts, the order of [sorted] on [str]. *)
Fixpoint text_leb (a b : text) : bool :=
  match a, b with
  | [], _ => true
  | _ :: _, [] => false
  | c :: a', d :: b' =>
      if (Char.ord c <? Char.ord d)%N then true
      else if (Char.ord c =? Char.ord d)%N then text_leb a' b'
      else false
  end.

Definition text_le (a b : text) : Prop := text_leb a b = true.

#[global] Instance text_le_dec : RelDecision text_le.
Proof. intros a b. unfold text_le. apply _. Defined.

(** [sorted(names)] *)
Definition sorted (names : list text) : list text := merge_sort text_le names.

(** [sorted(self._data.keys())], the method [list_bpms] of both classes. *)
Definition list_bpms (d : dataset) : list text := sorted (map_to_list d).*1.

(** The array stored under a checked component selector. *)
Definition component (c : components) (comp : text) : list float :=
  if bool_decide (comp = txt "x") then c_x c
  else if bool_decide (comp = txt "y") then c_y c
  else c_z c.

Definition check_component (selector : text) : result text :=
  let comp := Str.strip (Str.lower selector) in
  if Str.among comp [txt "x"; txt "y"; txt "z"] then Ok comp
  else Raise (ValueError (txt "component must be 'x', 'y', or 'z'")).

(** [np.zeros_like(a)] *)
Definition zeros_like (a : list float) : list float :=
  replicate (length a) F64.zero.

(** [np.full_like(a, v, dtype=float)] *)
Definition full_like (a : list float) (v : float) : list float :=
  replicate (length a) v.

(** [a * scale] *)
Definition scaled (a : list float) (scale : float) : list float :=
  map (λ v, F64.mul v scale) a.

(** [[float(tok) for tok in _NUM_RE.findall(s)]] *)
Definition numbers (s : text) : list float :=
  map F64.float_of_token (Re.num_findall s).

(** ** Summary statistics, shared by the two classes

    The NumPy reductions are library code: the embedding takes them as an
    interface and records which one the repository calls, on what. *)

(** A percentile as the caller gives it, an [int] or a [float]. *)
Inductive number :=
| Int (n : Z)
| Float (v : float).

(** The documented domain of a percentile, [0, 100]. *)
Definition in_0_100 (p : number) : bool :=
  match p with
  | Int n => (0 <=? n)%Z && (n <=? 100)%Z
  | Float v =>
      SFleb F64.zero v && SFleb v (S754_finite false 7036874417766400 (-46))
  end.

Class NumPy := {
  np_mean : list float → float;
  (** [np.std(a, ddof=k)] *)
  np_std : list float → Z → float;
  np_min : list float → float;
  np_max : list float → float;
  np_median : list float → float;
  (** [np.percentile(a, p)], which raises outside [0, 100] *)
  np_percentile : list float → number → result float;
  (** and does not raise inside, on an array that is not empty *)
  np_percentile_ok : ∀ a p,
    a ≠ [] → in_0_100 p = true → ∃ v, np_percentile a p = Ok v
}.

(** A value in a row of a summary. *)
Inductive cell :=
| CInt (n : Z)
| CFloat (v : float)
| CStr (s : text).

Abbreviation row := (gmap text cell).

(** [int(p)]: exact on an [int], truncation on a finite [float]. *)
Definition py_int (p : number) : result Z :=
  match p with
  | Int n => Ok n
  | Float S754_nan =>
      Raise (ValueError (txt "cannot convert float NaN to integer"))
  | Float (S754_infinity _) =>
      Raise (OverflowError (txt "cannot convert float infinity to integer"))
  | Float (S754_zero _) => Ok 0%Z
  | Float (S754_finite s m e) =>
      let a := if (0 <=? e)%Z then (Zpos m * 2 ^ e)%Z
               else (Zpos m / 2 ^ (- e))%Z in
      Ok (if s then (- a)%Z else a)
  end.

(** [format(n, "02d")] *)
Definition format_02d (n : Z) : text :=
  let ds := F64.decimal (Z.to_N (Z.abs n)) in
  if (n <? 0)%Z then "-"%char :: ds
  else if (length ds <? 2)%nat then "0"%char :: ds
  else ds.

(** The key [f"p{int(p):02d}"]. *)
Definition percentile_key (p : number) : result text :=
  n ← py_int p; Ok ("p"%char :: format_02d n).

Section Statistics.
Context `{NumPy}.
Variable percentiles : list number.

(** [for p in percentiles: d[key(p)] = value(p)]; the value is computed
    before the key. *)
Fixpoint set_percentiles (value : number → result float)
    (ps : list number) (d : row) : result row :=
  match ps with
  | [] => Ok d
  | p :: ps' =>
      v ← value p;
      k ← percentile_key p;
      set_percentiles value ps' (<[k := CFloat v]> d)
  end.

(** The nested function [stats_for] of [summary_stats]; it is the same in
    the two classes. *)
Definition stats_for (arr : list float) : result row :=
  if (length arr =? 0)%nat then
    let base : row :=
      <[txt "median" := CFloat F64.nan]>
        (<[txt "max" := CFloat F64.nan]>
           (<[txt "min" := CFloat F64.nan]>
              (<[txt "std" := CFloat F64.nan]>
                 (<[txt "mean" := CFloat F64.nan]>
                    (<[txt "n" := CInt 0]> ∅))))) in
    set_percentiles (λ _, Ok F64.nan) percentiles base
  else
    let out : row :=
      <[txt "median" := CFloat (np_median arr)]>
        (<[txt "max" := CFloat (np_max arr)]>
           (<[txt "min" := CFloat (np_min arr)]>
              (<[txt "std" :=
                   CFloat (if (1 <? length arr)%nat then np_std arr 1
                           else F64.zero)]>
                 (<[txt "mean" := CFloat (np_mean arr)]>
                    (<[txt "n" := CInt (Z.of_nat (length arr))]> ∅))))) in
    set_percentiles (np_percentile arr) percentiles out.

(** The rows of [summary_stats], one per BPM and component, before they
    are put in a frame. [get] is the method of the class. *)
Fixpoint stats_rows (get : text → text → result (list float))
    (names : list text) : result (list row) :=
  match names with
  | [] => Ok []
  | name :: rest =>
      let one comp :=
        arr ← get name comp;
        st ← stats_for arr;
        Ok (<[txt "component" := CStr comp]> (<[txt "BPM" := CStr name]> st))
      in
      rx ← one (txt "x");
      ry ← one (txt "y");
      rz ← one (txt "z");
      rs ← stats_rows get rest;
      Ok (rx :: ry :: rz :: rs)
  end.

(** The sort key of [sort_values(["BPM", "component"])]. *)
Definition row_key (r : row) : text * text :=
  (match r !! txt "BPM" with Some (CStr s) => s | _ => [] end,
   match r !! txt "component" with Some (CStr s) => s | _ => [] end).

Definition row_leb (a b : row) : bool :=
  let '(n1, c1) := row_key a in
  let '(n2, c2) := row_key b in
  if bool_decide (n1 = n2) then text_leb c1 c2 else text_leb n1 n2.

Definition row_le (a b : row) : Prop := row_leb a b = true.

#[global] Instance row_le_dec : RelDecision row_le.
Proof. intros a b. unfold row_le. apply _. Defined.

(** [pd.DataFrame(rows)], the selection of the columns and
    [sort_values(["BPM", "component"])], as the list of the rows in their
    final order. Every key of a row is one of [cols_order], so the
    selection only fixes the order of the columns, which a row does not
    record. A frame made of no row has no column, and sorting it by
    ["BPM"] raises [KeyError]. *)
Definition stats_frame (rows : list row) : result (list row) :=
  match rows with
  | [] => Raise (KeyError (txt "BPM"))
  | _ => Ok (merge_sort row_le rows)
  end.

End Statistics.

(** ** Length summaries, shared by the two classes *)

(** The rows of [summary_lengths], one per BPM, before they are put in a
    frame. [get] is the method of the class. *)
Fixpoint lengths_rows (get : text → text → result (list float))
    (names : list text) : result (list row) :=
  match names with
  | [] => Ok []
  | name :: rest =>
      x ← get name (txt "x");
      y ← get name (txt "y");
      z ← get name (txt "z");
      rs ← lengths_rows get rest;
      Ok (<[txt "len_z" := CInt (Z.of_nat (length z))]>
            (<[txt "len_y" := CInt (Z.of_nat (length y))]>
               (<[txt "len_x" := CInt (Z.of_nat (length x))]>
                  (<[txt "BPM" := CStr name]> ∅)))
          :: rs)
  end.

(** The sort key of [sort_values("BPM")]. *)
Definition bpm_of (r : row) : text :=
  match r !! txt "BPM" with Some (CStr s) => s | _ => [] end.

Definition bpm_le (a b : row) : Prop := text_leb (bpm_of a) (bpm_of b) = true.

#[global] Instance bpm_le_dec : RelDecision bpm_le.
Proof. intros a b. unfold bpm_le. apply _. Defined.

(** [pd.DataFrame(rows).sort_values("BPM")], as the list of the rows in
    their final order; a frame made of no row has no column ["BPM"] to sort
    by, and raises [KeyError]. *)
Definition lengths_frame (rows : list row) : result (list row) :=
  match rows with
  | [] => Raise (KeyError (txt "BPM"))
  | _ => Ok (merge_sort bpm_le rows)
  end.

(** ** [class BPMDataParen] *)

Module BPMDataParen.

(** [BPMDataParen.from_file], on the text of the file. A later entry of
    the same name replaces an earlier one. *)
Definition from_file (content : text) : dataset :=
  let text := _join_line_continuations content in
  foldl (λ (results : dataset) '(name, a1, a2, a3),
           <[name := Components (numbers a1) (numbers a2) (numbers a3)]>
             results)
        ∅ (Re.entry_finditer text).

(** [get]: the selector is checked, the name is not: a missing name is
    the [KeyError] of the dictionary, whose argument is the name. *)
Definition get (d : dataset) (bpm selector : text) : result (list float) :=
  comp ← check_component selector;
  match d !! bpm with
  | Some c => Ok (component c comp)
  | None => Raise (KeyError bpm)
  end.

Definition summary_stats `{NumPy} (d : dataset) (percentiles : list number)
  : result (list row) :=
  rows ← stats_rows percentiles (get d) (list_bpms d);
  stats_frame rows.

(** [a[:N]] for an [int] [N]: a negative [N] counts from the end. *)
Definition slice_to {A} (a : list A) (N : Z) : list A :=
  if (0 <=? N)%Z then take (Z.to_nat N) a
  else take (Z.to_nat (Z.of_nat (length a) + N)) a.

(** The nested function [normalize] of [to_sdds]; [np.pad] in constant
    mode appends zeros. *)
Definition normalize (a : list float) (N : Z) : list float :=
  if (N <? Z.of_nat (length a))%Z then slice_to a N
  else if (Z.of_nat (length a) <? N)%Z then
    a ++ replicate (Z.to_nat (N - Z.of_nat (length a))) F64.zero
  else a.

(** The two data lines that [to_sdds] writes for one BPM, for a number of
    turns [turns] and a number format [fmt]. *)
Definition sdds_lines (d : dataset) (turns : Z) (fmt : float → text)
    (name : text) : result text :=
  xs ← get d name (txt "x");
  ys ← get d name (txt "y");
  let x := normalize xs turns in
  let y := normalize ys turns in
  let y := if (length y =? 0)%nat && (0 <? turns)%Z
           then replicate (Z.to_nat turns) F64.zero else y in
  let xs := Str.join (txt " ") (map fmt x) in
  let ys := Str.join (txt " ") (map fmt y) in
  Ok (txt "0 " ++ name ++ txt " " ++ xs ++ [Char.newline]
      ++ txt "1 " ++ name ++ txt " " ++ ys ++ [Char.newline]).

(** [summary_lengths] *)
Definition summary_lengths (d : dataset) : result (list row) :=
  rows ← lengths_rows (get d) (list_bpms d);
  lengths_frame rows.

(** [Counter(lens)]: each value with its number of occurrences, in the
    order of first occurrence. *)
Fixpoint counter_add (k : nat) (c : list (nat * nat)) : list (nat * nat) :=
  match c with
  | [] => [(k, 1)]
  | (k', n) :: r =>
      if (k =? k')%nat then (k', S n) :: r else (k', n) :: counter_add k r
  end.

Definition Counter (l : list nat) : list (nat * nat) :=
  foldl (λ c k, counter_add k c) [] l.

(** [c.most_common(1)]: the first item of the greatest count, that is
    [max(c.items(), key=count)], which keeps the first of equal items. *)
Definition most_common1 (c : list (nat * nat)) : option (nat * nat) :=
  foldl (λ best item,
           match best with
           | None => Some item
           | Some b => if (b.2 <? item.2)%nat then Some item else Some b
           end)
        None c.

(** [[self.get(n, "x").size for n in names]] *)
Fixpoint x_lengths (d : dataset) (names : list text) : result (list nat) :=
  match names with
  | [] => Ok []
  | n :: rest =>
      xs ← get d n (txt "x");
      ls ← x_lengths d rest;
      Ok (length xs :: ls)
  end.

(** [Counter(lens).most_common(1)[0][0] if lens else 0]; the most common
    item of a counter of a list that is not empty exists. *)
Definition default_turns (lens : list nat) : Z :=
  match lens with
  | [] => 0
  | _ =>
      match most_common1 (Counter lens) with
      | Some (k, _) => Z.of_nat k
      | None => 0
      end
  end.

(** [float(n)] for an [int]: the nearest float, [OverflowError] beyond the
    floats. *)
Definition float_of_int (n : Z) : result float :=
  let v := F64.of_Z n in
  if F64.is_finite v then Ok v
  else Raise (OverflowError (txt "int too large to convert to float")).

(** The keyword arguments of [to_sdds]. *)
Record sdds_options := SddsOptions {
  beam : text;
  ring_id : text;
  turns : option Z;
  fmt : float → text;
  header_lines : option (list text)
}.

(** Their defaults. *)
Definition sdds_defaults : sdds_options := {|
  beam := txt "Unknown";
  ring_id := [];
  turns := None;
  fmt := F64.format_7g;
  header_lines := None
|}.

(** The loop over the names of [to_sdds]; [f] is what the file holds so
    far. *)
Fixpoint write_lines (d : dataset) (n : Z) (fm : float → text)
    (names : list text) (f : text) : result text :=
  match names with
  | [] => Ok f
  | name :: rest =>
      l ← sdds_lines d n fm name;
      write_lines d n fm rest (f ++ l)
  end.

(** [to_sdds]: the text written to the file. *)
Definition to_sdds (o : sdds_options) (d : dataset) : result text :=
  let names := list_bpms d in
  lens ← x_lengths d names;
  let n := match turns o with Some t => t | None => default_turns lens end in
  let f := txt "# SDDSASCIIFORMAT v1" ++ [Char.newline] in
  let f := f ++ txt "# Beam: " ++ beam o ++ [Char.newline] in
  let f := match ring_id o with
           | [] => f
           | _ => f ++ txt "# RingID: " ++ ring_id o ++ [Char.newline]
           end in
  t ← float_of_int n;
  let f := f ++ txt "# number of turns : " ++ F64.format_f 16 7 t
             ++ [Char.newline] in
  m ← float_of_int (Z.of_nat (length names));
  let f := f ++ txt "# number of monitors : " ++ F64.format_f 16 7 m
             ++ [Char.newline] in
  let f := match header_lines o with
           | Some (l :: ls) =>
               f ++ concat (map (λ line, txt "# " ++ Str.rstrip line
                                           ++ [Char.newline]) (l :: ls))
           | _ => f
           end in
  write_lines d n (fmt o) names f.

End BPMDataParen.

(** ** [class BPMDataSDDS] *)

Module BPMDataSDDS.

(** [acc]: per BPM, the numbers read so far for x and for y. *)
Abbreviation accumulator := (gmap text (list float * list float)).

(** One turn of the loop over the lines of [from_file]. *)
Definition read_line (acc : accumulator) (raw : text) : accumulator :=
  let s := Str.strip raw in
  if bool_decide (s = []) || Str.startswith (txt "#") s then acc
  else
    match Str.split_ws 2 s with
    | [n_str; name; payload] =>
        if negb (Str.among n_str [txt "0"; txt "1"]) then acc
        else
          let nums := numbers payload in
          match nums with
          | [] => acc
          | _ =>
              let comps := default ([], []) (acc !! name) in
              <[name := if bool_decide (n_str = txt "0")
                        then (comps.1 ++ nums, comps.2)
                        else (comps.1, comps.2 ++ nums)]> acc
          end
    | _ => acc
    end.

(** The triple built for one BPM: an empty x or y mirrors the other one
    with zeros, z is [zeros_like(x)]. *)
Definition build (comps : list float * list float) : components :=
  let x_arr := comps.1 in
  let y_arr := comps.2 in
  let x_arr :=
    if (length x_arr =? 0)%nat && (0 <? length y_arr)%nat
    then zeros_like y_arr else x_arr in
  let y_arr :=
    if (length y_arr =? 0)%nat && (0 <? length x_arr)%nat
    then zeros_like x_arr else y_arr in
  let z_arr := zeros_like x_arr in
  Components x_arr y_arr z_arr.

(** The accumulator after all the lines of the text. *)
Definition accumulate (content : text) : accumulator :=
  foldl read_line ∅ (Str.splitlines content).

(** [BPMDataSDDS.from_file], on the decoded text of the file. *)
Definition from_file (content : text) : dataset :=
  build <$> accumulate content.

(** [get]: the selector is checked first, then the name; the message for
    a missing name lists the names loaded. *)
Definition get (d : dataset) (bpm selector : text) : result (list float) :=
  comp ← check_component selector;
  match d !! bpm with
  | Some c => Ok (component c comp)
  | None =>
      Raise (KeyError (txt "BPM '" ++ bpm ++ txt "' not found. Available: "
                       ++ Str.join (txt ", ") (list_bpms d)))
  end.

Definition summary_stats `{NumPy} (d : dataset) (percentiles : list number)
  : result (list row) :=
  rows ← stats_rows percentiles (get d) (list_bpms d);
  stats_frame rows.

(** [summary_lengths] *)
Definition summary_lengths (d : dataset) : result (list row) :=
  rows ← lengths_rows (get d) (list_bpms d);
  lengths_frame rows.

(** The keyword arguments of [to_data]. *)
Record data_options := DataOptions {
  include_z : bool;
  fmt : float → text;
  sep : text;
  columns : Z;
  z_fill : float;
  indent : text;
  scale : float;
  header_lines : option (list text)
}.

(** Their defaults. *)
Definition defaults : data_options := {|
  include_z := true;
  fmt := F64.format_7g;
  sep := txt ",";
  columns := 6;
  z_fill := F64.float_of_token (txt "0.0010580705711618066");
  indent := txt "        ";
  scale := F64.float_of_token (txt "1e0");
  header_lines := None
|}.

(** [[vals[i:i+n] for i in range(0, len(vals), n)]], [n > 0]; the fuel
    bounds the number of groups. *)
Fixpoint chunks {A} (fuel n : nat) (vals : list A) : list (list A) :=
  match fuel with
  | O => []
  | S f =>
      match vals with
      | [] => []
      | _ => take n vals :: chunks f n (drop n vals)
      end
  end.

Section Writer.
Variable o : data_options.

(** The nested function [fmt_array]. *)
Definition fmt_array (a : list float) : text :=
  let vals := map (fmt o) a in
  if (0 <? columns o)%Z then
    let lines :=
      map (Str.join (sep o))
          (chunks (length vals) (Z.to_nat (columns o)) vals) in
    match lines with
    | [] => []
    | _ => Str.join (","%char :: [Char.newline]) lines
    end
  else Str.join (sep o) vals.

(** [f'("{name}"->\n{{{{{sx}}},\n{{{sy}}},\n{{{sz}}}}})'] *)
Definition entry_text (name sx sy sz : text) : text :=
  "("%char :: Char.dquote :: name
    ++ Char.dquote :: "-"%char :: ">"%char :: Char.newline
    :: "{"%char :: "{"%char :: sx
    ++ "}"%char :: ","%char :: Char.newline
    :: "{"%char :: sy
    ++ "}"%char :: ","%char :: Char.newline
    :: "{"%char :: sz
    ++ txt "}})".

(** The three arrays of one BPM as they are formatted: x and y scaled,
    z made anew on the length of x, each without its first sample. *)
Definition entry_arrays (xs ys : list float)
  : list float * list float * list float :=
  let x := scaled xs (scale o) in
  let y := scaled ys (scale o) in
  let z := if include_z o
           then scaled (full_like x (z_fill o)) (scale o)
           else zeros_like x in
  (drop 1 x, drop 1 y, drop 1 z).

(** The loop over [enumerate(names)]; [f] is what the file holds so far
    and [n] is [len(names)]. *)
Fixpoint write_entries (d : dataset) (n : nat) (items : list (nat * text))
    (f : text) : result text :=
  match items with
  | [] => Ok f
  | (idx, name) :: rest =>
      xs ← get d name (txt "x");
      ys ← get d name (txt "y");
      let '(x1, y1, z1) := entry_arrays xs ys in
      let sx := fmt_array x1 in
      let sy := fmt_array y1 in
      let sz := fmt_array z1 in
      let entry := entry_text name sx sy sz in
      if (Z.of_nat idx <? Z.of_nat n - 1)%Z
      then write_entries d n rest (f ++ entry ++ ","%char :: [Char.newline])
      else write_entries d n rest (f ++ entry ++ [Char.newline])
  end.

(** [to_data]: the text written to the file. *)
Definition to_data (d : dataset) : result text :=
  let header :=
    match header_lines o with
    | Some (l :: ls) => Some (l :: ls)
    | _ => None
    end in
  let f :=
    match header with
    | Some ls =>
        txt "{{" ++ concat (map Str.rstrip ls)
          ++ "}"%char :: ","%char :: [Char.newline]
    | None => []
    end in
  let f := f ++ txt "{" in
  let names := list_bpms d in
  f ← write_entries d (length names) (imap (λ idx name, (idx, name)) names) f;
  let f := f ++ txt "}" in
  Ok (match header with Some _ => f ++ txt "}" | None => f end).

End Writer.

End BPMDataSDDS.

(** ** Sample inputs *)

Module Sample.

Definition nl : text := [Char.newline].

(** The two row-format lines of the end-to-end example. *)
Definition two_lines : text :=
  txt "0 BPM1 1.0 2.0 3.0" ++ nl ++ txt "1 BPM1 4.0 5.0 6.0".

(** A row-format text with plane-0 lines only. *)
Definition plane0_only : text := txt "0 A 1 2".

Definition one : float := F64.of_Z 1.
Definition two : float := F64.of_Z 2.

Definition three : float := F64.of_Z 3.
Definition four : float := F64.of_Z 4.
Definition five : float := F64.of_Z 5.
Definition six : float := F64.of_Z 6.

(** The options of the end-to-end example: scale 1.0, no z, six values
    per line, the rest by default. *)
Definition no_z_options : BPMDataSDDS.data_options := {|
  BPMDataSDDS.include_z := false;
  BPMDataSDDS.fmt := F64.format_7g;
  BPMDataSDDS.sep := txt ",";
  BPMDataSDDS.columns := 6;
  BPMDataSDDS.z_fill := BPMDataSDDS.z_fill BPMDataSDDS.defaults;
  BPMDataSDDS.indent := txt "        ";
  BPMDataSDDS.scale := F64.float_of_token (txt "1.0");
  BPMDataSDDS.header_lines := None
|}.

(** The text written for the end-to-end example. *)
Definition two_lines_written : text :=
  txt "{(" ++ [Char.dquote] ++ txt "BPM1" ++ [Char.dquote] ++ txt "->" ++ nl
    ++ txt "{{2,3}," ++ nl
    ++ txt "{5,6}," ++ nl
    ++ txt "{0,0}})" ++ nl
    ++ txt "}".

(** A paren-format text: what precedes the split in the literal 12345 of
    the x array of BPM [A], and what follows it. *)
Definition before_split : text :=
  txt "(" ++ [Char.dquote] ++ txt "A" ++ [Char.dquote] ++ txt "->{{12".
Definition after_split : text := txt "345},{1},{2}})".

(** A stand-in for the library, to run the statements on an instance: the
    first element for every reduction, zero for the deviation. *)
#[local] Program Instance numpy_stub : NumPy := {|
  np_mean a := default F64.nan (head a);
  np_std a ddof := F64.zero;
  np_min a := default F64.nan (head a);
  np_max a := default F64.nan (head a);
  np_median a := default F64.nan (head a);
  np_percentile a p :=
    if in_0_100 p then Ok (default F64.nan (head a))
    else Raise (ValueError (txt "Percentiles must be in the range [0, 100]"))
|}.
Next Obligation. intros a p _ Hp. simpl. rewrite Hp. by eexists. Qed.

(** The default percentiles of [summary_stats], [(5, 50, 95)]. *)
Definition percentiles : list number := [Int 5; Int 50; Int 95].

(** A Dataset with an empty z. *)
Definition empty_z : dataset :=
  <[txt "A" := Components [one] [two] []]> ∅.

(** A Dataset of two BPMs, [B] and [C]. *)
Definition two_bpms : dataset :=
  <[txt "C" := Components [one] [two] [F64.zero]]>
    (<[txt "B" := Components [one; two] [two; one] [F64.zero; F64.zero]]> ∅).

Definition quoted_name : text := txt "A" ++ [Char.dquote] ++ txt "B".
Definition quoted_line : text := txt "0 " ++ quoted_name ++ txt " 1 2".
Definition quoted_written : text :=
  txt "{(" ++ [Char.dquote] ++ quoted_name ++ [Char.dquote] ++ txt "->"
    ++ nl ++ txt "{{2}," ++ nl ++ txt "{0}," ++ nl
    ++ txt "{0.001058071}})" ++ nl ++ txt "}".
Definition long_line : text := txt "0 A 1 1.23456789".
Definition half : float := F64.float_of_token (txt "0.5").
Definition long_written : text :=
  txt "{(" ++ [Char.dquote] ++ txt "A" ++ [Char.dquote] ++ txt "->"
    ++ nl ++ txt "{{2.469136}," ++ nl ++ txt "{0}," ++ nl
    ++ txt "{1}})" ++ nl ++ txt "}".

End Sample.

(** ** The text of [to_data] in closed form *)

Module DataText.
Import BPMDataSDDS.

Section Closed.
Variable o : data_options.
Variable d : dataset.

(** What follows the entry of index [idx] among [n]. *)
Definition terminator (n idx : nat) : text :=
  if (Z.of_nat idx <? Z.of_nat n - 1)%Z
  then ","%char :: [Char.newline] else [Char.newline].

(** The entry of one BPM of the Dataset. *)
Definition entry_of (name : text) : text :=
  match d !! name with
  | Some c =>
      let '(x1, y1, z1) := entry_arrays o (c_x c) (c_y c) in
      entry_text name (fmt_array o x1) (fmt_array o y1) (fmt_array o z1)
  | None => []
  end.

Definition entries (n : nat) (items : list (nat * text)) : text :=
  concat (map (λ '(idx, name), entry_of name ++ terminator n idx) items).

Definition has_header : bool :=
  match header_lines o with Some (_ :: _) => true | _ => false end.

Definition opening : text :=
  match header_lines o with
  | Some (l :: ls) =>
      txt "{{" ++ concat (map Str.rstrip (l :: ls))
        ++ "}"%char :: ","%char :: [Char.newline]
  | _ => []
  end.

Definition closing : text := if has_header then txt "}" else [].

Definition whole : text :=
  opening ++ txt "{"
    ++ entries (length (list_bpms d))
         (imap (λ idx name, (idx, name)) (list_bpms d))
    ++ txt "}" ++ closing.
End Closed.

End DataText.

(** ** Predicates and functions of the statements *)

Section Statements.
Import BPMDataSDDS DataText.

(** A name enters the accumulator with at least one number. *)
Definition filled (acc : accumulator) : Prop :=
  ∀ name xs ys, acc !! name = Some (xs, ys) → xs ≠ [] ∨ ys ≠ [].

(** Without a plane-1 line for [name], its y stays empty. *)
Definition no_plane1 (name : text) (lines : list text) : Prop :=
  ∀ raw payload,
    raw ∈ lines → Str.split_ws 2 (Str.strip raw) ≠ [txt "1"; name; payload].

Definition y_empty (name : text) (acc : accumulator) : Prop :=
  ∀ xs ys, acc !! name = Some (xs, ys) → ys = [].

(** A text that does not start with white space. *)
Definition starts_black (s : text) : Prop :=
  match s with c :: _ => Char.isspace c = false | [] => True end.

(** A key that no percentile can have. *)
Definition plain_key (k : text) : Prop := ∀ r, k ≠ "p"%char :: r.

Definition selectors : list text := [txt "x"; txt "y"; txt "z"].

(** The row of one BPM and component. *)
Definition tagged (name comp : text) (st : row) : row :=
  <[txt "component" := CStr comp]> (<[txt "BPM" := CStr name]> st).

(** The parts of a token as [format] writes it. *)
Record token_parts := TokenParts {
  tp_neg : bool;
  tp_int : text;
  tp_frac : text;
  tp_exp : option (bool * text)
}.

Definition exponent_text (ex : option (bool * text)) : text :=
  match ex with
  | None => []
  | Some (eneg, ed) => "e"%char :: (if eneg then "-"%char else "+"%char) :: ed
  end.

Definition token_text (tp : token_parts) : text :=
  F64.sign_text (tp_neg tp)
    ++ F64.with_fraction (tp_int tp) (tp_frac tp)
    ++ exponent_text (tp_exp tp).

Definition digits (ds : text) : Prop := forallb Char.isdigit ds = true.

Definition token_wf (tp : token_parts) : Prop :=
  tp_int tp ≠ [] ∧ digits (tp_int tp) ∧ digits (tp_frac tp)
  ∧ match tp_exp tp with
    | None => True
    | Some (_, ed) => ed ≠ [] ∧ digits ed
    end.

(** What may follow a token in an array: nothing, a comma or the closing
    brace. *)
Definition stop (rest : text) : Prop :=
  match rest with
  | [] => True
  | c :: _ => c = ","%char ∨ c = "}"%char
  end.

(** A piece of text after which the search for tokens starts afresh. *)
Definition delimited (p : text) : Prop :=
  ∀ rest, stop rest →
    Re.num_findall_from 0 (p ++ rest)
    = Re.num_findall p ++ Re.num_findall_from 0 rest.

(** A name that the paren reader reads back as it is. *)
Definition name_ok (name : text) : Prop :=
  name ≠ [] ∧ forallb Re.notquote name = true ∧ starts_black name.

(** An array body that the paren reader captures as it is. *)
Definition body_ok (b : text) : Prop :=
  forallb Re.notbrace b = true ∧ starts_black b.

Definition format_char (c : ascii) : bool :=
  Char.isdigit c
  || bool_decide (c ∈ [("."%char : ascii); "-"%char; "+"%char; "e"%char;
                       "i"%char; "n"%char; "f"%char; "a"%char]).

(** The characters of an array body: those of the numbers, the comma and
    the line feed. *)
Definition body_char (c : ascii) : bool :=
  format_char c || Char.eqb c ","%char || Char.eqb c Char.newline.

Definition notbackslash (c : ascii) : bool :=
  negb (Char.eqb c Char.backslash).

(** Every backslash is followed by a character that is not white space. *)
Fixpoint calm (s : text) : bool :=
  match s with
  | [] => true
  | c :: r =>
      (if Char.eqb c Char.backslash
       then match r with d :: _ => negb (Char.isspace d) | [] => true end
       else true)
      && calm r
  end.

(** A word: not empty, without white space. *)
Definition word (w : text) : Prop :=
  w ≠ [] ∧ forallb (λ c, negb (Char.isspace c)) w = true.

(** The values of an array after a trip through the default format: those
    that are not finite are lost, the others are written on seven
    significant digits and read again. *)
Definition read_back (vs : list float) : list float :=
  map (λ v, F64.float_of_token (F64.format_7g v))
      (filter (λ v, F64.is_finite v = true) vs).

(** The default options with a scale factor and a fill constant. *)
Definition with_scale_fill (s c : float) : data_options := {|
  include_z := true;
  fmt := F64.format_7g;
  sep := txt ",";
  columns := 6;
  z_fill := c;
  indent := txt "        ";
  scale := s;
  header_lines := None
|}.

(** The groups that the paren reader captures for one BPM of a Dataset
    written with the options [o]. *)
Definition groups_of (o : data_options) (d : dataset) (name : text)
  : text * text * text * text :=
  match d !! name with
  | Some c =>
      let '(x1, y1, z1) := entry_arrays o (c_x c) (c_y c) in
      (name, fmt_array o x1, fmt_array o y1, fmt_array o z1)
  | None => (name, [], [], [])
  end.

(** One turn of the loop of [BPMDataParen.from_file]. *)
Definition insert_groups (results : dataset)
    (g : text * text * text * text) : dataset :=
  let '(name, a1, a2, a3) := g in
  <[name := Components (numbers a1) (numbers a2) (numbers a3)]> results.

Definition components_of (g : text * text * text * text) : components :=
  let '(_, a1, a2, a3) := g in
  Components (numbers a1) (numbers a2) (numbers a3).

End Statements.

(** ** The lines of a row-format text *)

Section RowLines.
Import BPMDataSDDS.

(** The numbers that one line brings to the plane [tag] of the BPM
    [name]. *)
Definition line_numbers (tag name raw : text) : list float :=
  let s := Str.strip raw in
  if bool_decide (s = []) || Str.startswith (txt "#") s then []
  else
    match Str.split_ws 2 s with
    | [n_str; nm; payload] =>
        if bool_decide (n_str = tag ∧ nm = name) then numbers payload else []
    | _ => []
    end.

(** What the accumulator holds for a name, empty arrays when it holds
    nothing. *)
Definition pair_of (name : text) (acc : accumulator)
  : list float * list float :=
  default ([], []) (acc !! name).

End RowLines.

(** ** The text written by [to_sdds] *)

Module SddsText.
Import BPMDataParen.

Section Closed.
Variable o : sdds_options.
Variable d : dataset.

(** The x lengths in the order of the names. *)
Definition lens : list nat :=
  map (λ name, match d !! name with
               | Some c => length (c_x c)
               | None => 0
               end) (list_bpms d).

(** The number of turns written. *)
Definition turn_count : Z :=
  match turns o with Some t => t | None => default_turns lens end.

(** One data line without its line feed: the plane, the name and the
    values. *)
Definition body_line (tag name : text) (vals : list float) : text :=
  tag ++ txt " " ++ name ++ txt " "
    ++ Str.join (txt " ") (map (fmt o) vals).

Definition data_line (tag name : text) (vals : list float) : text :=
  body_line tag name vals ++ [Char.newline].

(** The two lines of one BPM of the Dataset. *)
Definition lines_of (name : text) : text :=
  match d !! name with
  | Some c =>
      data_line (txt "0") name (normalize (c_x c) turn_count)
        ++ data_line (txt "1") name (normalize (c_y c) turn_count)
  | None => []
  end.

(** The caller's header lines, as comments. *)
Definition header : text :=
  match header_lines o with
  | Some ls =>
      concat (map (λ line, txt "# " ++ Str.rstrip line ++ [Char.newline]) ls)
  | None => []
  end.

(** The lines written before the data. *)
Definition preamble : text :=
  txt "# SDDSASCIIFORMAT v1" ++ [Char.newline]
    ++ txt "# Beam: " ++ beam o ++ [Char.newline]
    ++ match ring_id o with
       | [] => []
       | _ => txt "# RingID: " ++ ring_id o ++ [Char.newline]
       end
    ++ txt "# number of turns : "
    ++ F64.format_f 16 7 (F64.of_Z turn_count) ++ [Char.newline]
    ++ txt "# number of monitors : "
    ++ F64.format_f 16 7 (F64.of_Z (Z.of_nat (length (list_bpms d))))
    ++ [Char.newline]
    ++ header.

Definition whole : text := preamble ++ concat (map lines_of (list_bpms d)).

(** The same text line by line: the comments, then the data. *)
Definition comment_lines : list text :=
  [txt "# SDDSASCIIFORMAT v1"; txt "# Beam: " ++ beam o]
    ++ match ring_id o with
       | [] => []
       | _ => [txt "# RingID: " ++ ring_id o]
       end
    ++ [txt "# number of turns : "
          ++ F64.format_f 16 7 (F64.of_Z turn_count);
        txt "# number of monitors : "
          ++ F64.format_f 16 7 (F64.of_Z (Z.of_nat (length (list_bpms d))))]
    ++ match header_lines o with
       | Some ls => map (λ line, txt "# " ++ Str.rstrip line) ls
       | None => []
       end.

Definition lines_list (name : text) : list text :=
  match d !! name with
  | Some c =>
      [body_line (txt "0") name (normalize (c_x c) turn_count);
       body_line (txt "1") name (normalize (c_y c) turn_count)]
  | None => []
  end.

Definition all_lines : list text :=
  comment_lines ++ concat (map lines_list (list_bpms d)).

End Closed.

End SddsText.

(** The number of occurrences of [k] in [l]. *)
Definition occurrences (k : nat) (l : list nat) : nat :=
  length (filter (λ j, j = k) l).

(** The values of a list in the order in which they first occur. *)
Definition first_seen (l : list nat) : list nat :=
  foldl (λ acc k, if decide (k ∈ acc) then acc else acc ++ [k]) [] l.

(** A text that starts with white space, or is empty. *)
Definition gap (rest : text) : Prop :=
  match rest with
  | [] => True
  | c :: _ => Char.isspace c = true
  end.

(** A piece of text after which, before a gap, the search for tokens
    starts afresh. *)
Definition spaced (p : text) : Prop :=
  ∀ rest, gap rest →
    Re.num_findall_from 0 (p ++ rest)
    = Re.num_findall p ++ Re.num_findall_from 0 rest.

(** A text without line boundary. *)
Definition one_line (s : text) : Prop :=
  forallb (λ c, negb (Char.islinebreak c)) s = true.

(** The options of [to_sdds] whose comment lines each stay on one line. *)
Definition plain_comments (o : BPMDataParen.sdds_options) : Prop :=
  one_line (BPMDataParen.beam o) ∧ one_line (BPMDataParen.ring_id o)
  ∧ ∀ ls, BPMDataParen.header_lines o = Some ls →
          Forall (λ line, one_line (Str.rstrip line)) ls.

(** The row of [summary_lengths] for one BPM of the Dataset. *)
Definition length_row (d : dataset) (name : text) : row :=
  match d !! name with
  | Some c =>
      <[txt "len_z" := CInt (Z.of_nat (length (c_z c)))]>
        (<[txt "len_y" := CInt (Z.of_nat (length (c_y c)))]>
           (<[txt "len_x" := CInt (Z.of_nat (length (c_x c)))]>
              (<[txt "BPM" := CStr name]> ∅)))
  | None => ∅
  end.

(** The order of [sort_values(["BPM", "component"])] on the keys. *)
Definition key_le (p q : text * text) : Prop :=
  (if bool_decide (p.1 = q.1) then text_leb p.2 q.2 else text_leb p.1 q.1)
  = true.

(** The keys of the three rows of one BPM. *)
Definition triple (name : text) : list (text * text) :=
  [(name, txt "x"); (name, txt "y"); (name, txt "z")].

(** * The converter of a folder ([convert_sdds_to_data.py]) *)

Module Convert.
Import BPMDataSDDS.

(** The header that [convert_one] gives to [to_data]: one [str], where
    lines are expected. *)
Definition header_text : text :=
  Char.dquote :: txt "06/17/2024 17:50:17" ++ Char.dquote
    :: txt ",3927635417," ++ Char.dquote
    :: txt "2024-06-17_17:32:32.919_Tune" ++ Char.dquote
    :: txt ",3927635412".

(** The items of the iteration over a [str]: its characters. *)
Definition chars (s : text) : list text := map (λ c, [c]) s.

(** The keyword arguments of the call of [to_data] in [convert_one]; the
    others keep their defaults. *)
Definition options (include_z : bool) (fmt : float → text) (scale : float)
  : data_options := {|
  include_z := include_z;
  fmt := fmt;
  sep := sep defaults;
  columns := columns defaults;
  z_fill := z_fill defaults;
  indent := indent defaults;
  scale := scale;
  header_lines := Some (chars header_text)
|}.

(** The file system as the script sees it: a path leads to a regular
    file, with its decoded text, or to a folder. *)
Inductive node :=
| File (content : text)
| Folder.

Abbreviation store := (gmap text node).

Definition is_file (fs : store) (p : text) : bool :=
  match fs !! p with Some (File _) => true | _ => false end.

Definition is_dir (fs : store) (p : text) : bool :=
  match fs !! p with Some Folder => true | _ => false end.

Definition exists_ (fs : store) (p : text) : bool :=
  bool_decide (is_Some (fs !! p)).

(** What the [try] of [convert_one] can catch: an exception of the
    handlers, or the refusal to open a folder for writing. *)
Inductive failure :=
| Exception (e : exn)
| IsADirectoryError (path : text).

(** The status of a conversion: the strings ["ok"], ["skipped_exists"],
    ["error"], ["dry_run"] and ["error: ..."] with the exception caught. *)
Inductive status :=
| ok
| skipped_exists
| error
| dry_run
| error_ex (ex : failure).

(** [bpm.to_data(str(dst), ...)] on the store: the file is opened for
    writing, then written. [to_data] raises on no Dataset, so that what a
    failed call would leave in the file is not modelled: the file is left
    empty. *)
Definition write_data (fs : store) (dst : text) (o : data_options)
    (d : dataset) : store * option failure :=
  match fs !! dst with
  | Some Folder => (fs, Some (IsADirectoryError dst))
  | _ =>
      match to_data o d with
      | Ok f => (<[dst := File f]> fs, None)
      | Raise e => (<[dst := File []]> fs, Some (Exception e))
      end
  end.

(** The command-line arguments after [parse_args]. *)
Record arguments := Arguments {
  folder : text;
  pattern : text;
  recursive : bool;
  arg_include_z : bool;
  arg_fmt : float → text;
  wrap : option Z;
  suffix : option text;
  overwrite : bool;
  arg_dry_run : bool;
  arg_scale : float
}.

Section Paths.

(** [pathlib] on the paths of the store: [Path.stem], [Path.with_name]
    and [Path.with_suffix], which raise [ValueError] on a name that is not
    valid; and the sorted matches of [glob] or [rglob]. *)
Variable stem : text → text.
Variable with_name : text → text → result text.
Variable with_suffix : text → text → result text.
Variable find_files : store → text → text → bool → list text.

(** The output path, next to the source. *)
Definition destination (sdds_path : text) (suffix : option text)
  : result text :=
  match suffix with
  | Some (c :: s) =>
      with_name sdds_path (stem sdds_path ++ (c :: s) ++ txt ".data")
  | _ => with_suffix sdds_path (txt ".data")
  end.

(** [convert_one]: the store after the call and the triple returned. *)
Definition convert_one (fs : store) (sdds_path : text) (include_z : bool)
    (fmt : float → text) (wrap : option Z) (suffix : option text)
    (overwrite dry : bool) (scale : float)
  : result (store * (text * option text * status)) :=
  match fs !! sdds_path with
  | Some (File content) =>
      dst ← destination sdds_path suffix;
      if exists_ fs dst && negb overwrite && negb dry
      then Ok (fs, (sdds_path, Some dst, skipped_exists))
      else if dry then Ok (fs, (sdds_path, Some dst, dry_run))
      else
        let bpm := from_file content in
        let '(fs', r) :=
          write_data fs dst (options include_z fmt scale) bpm in
        Ok (fs', (sdds_path, Some dst,
                  match r with None => ok | Some ex => error_ex ex end))
  | _ => Ok (fs, (sdds_path, None, error))
  end.

(** The counters [ok], [skipped], [errors] and [dry] of [main]. *)
Record counters := Counters {
  n_ok : nat;
  n_skipped : nat;
  n_errors : nat;
  n_dry : nat
}.

Definition count (st : status) (c : counters) : counters :=
  match st with
  | ok => Counters (S (n_ok c)) (n_skipped c) (n_errors c) (n_dry c)
  | skipped_exists =>
      Counters (n_ok c) (S (n_skipped c)) (n_errors c) (n_dry c)
  | dry_run => Counters (n_ok c) (n_skipped c) (n_errors c) (S (n_dry c))
  | _ => Counters (n_ok c) (n_skipped c) (S (n_errors c)) (n_dry c)
  end.

(** The loop of [main] over the files found. *)
Fixpoint convert_all (args : arguments) (files : list text) (fs : store)
    (c : counters) : result (store * counters) :=
  match files with
  | [] => Ok (fs, c)
  | src :: rest =>
      '(fs', (_, _, st)) ←
        convert_one fs src (arg_include_z args) (arg_fmt args) (wrap args)
          (suffix args) (overwrite args) (arg_dry_run args) (arg_scale args);
      convert_all args rest fs' (count st c)
  end.

(** [main]: the store after the run and the exit code; what is printed
    is not modelled. *)
Definition main (args : arguments) (fs : store) : result (store * Z) :=
  if negb (is_dir fs (folder args)) then Ok (fs, 2%Z)
  else
    match find_files fs (folder args) (pattern args) (recursive args) with
    | [] => Ok (fs, 0%Z)
    | files =>
        '(fs', c) ← convert_all args files fs (Counters 0 0 0 0);
        Ok (fs', if (n_errors c =? 0)%nat then 0%Z else 1%Z)
    end.

End Paths.

End Convert.

(** ** Predicates and functions of the statements on the converter *)

(** The destination can be written: it is not a folder, and a file is
    there only when overwriting is allowed. *)
Definition writable (fs : Convert.store) (dst : text) (overwrite : bool)
  : Prop :=
  match fs !! dst with
  | None => True
  | Some (Convert.File _) => overwrite = true
  | Some Convert.Folder => False
  end.

(** What the paren reader reads for a BPM written by [convert_one] in the
    default number format. *)
Definition converted (include_z : bool) (scale : float) (t : components)
  : components :=
  Components
    (read_back (drop 1 (scaled (c_x t) scale)))
    (read_back (drop 1 (scaled (c_y t) scale)))
    (read_back
       (drop 1 (replicate (length (c_x t))
                  (if include_z
                   then F64.mul (BPMDataSDDS.z_fill BPMDataSDDS.defaults) scale
                   else F64.zero)))).

(** No backslash is followed by a run of white space that holds a line
    feed: nothing is left to join. *)
Fixpoint settled (s : text) : bool :=
  match s with
  | [] => true
  | c :: r =>
      (if Char.eqb c Char.backslash
       then negb (existsb (Char.eqb Char.newline)
                    (fst (Str.span Char.isspace r)))
       else true)
      && settled r
  end.

(** * Properties *)


(** ** The order of [sorted] and [list_bpms] *)

Lemma text_leb_refl (a : text) : text_leb a a = true.
Proof.
  induction a as [|c a IH]; simpl; [done|].
  rewrite N.ltb_irrefl, N.eqb_refl. exact IH.
Qed.

Lemma text_leb_total (a b : text) : text_leb a b = true ∨ text_leb b a = true.
Proof.
  revert b. induction a as [|c a IH]; intros [|d b]; simpl; auto.
  destruct (N.ltb_spec (Char.ord c) (Char.ord d)) as [Hlt|Hge]; [by left|].
  destruct (N.ltb_spec (Char.ord d) (Char.ord c)) as [Hlt'|Hge']; [by right|].
  assert (Char.ord c = Char.ord d) as Heq by lia.
  rewrite Heq, N.eqb_refl. apply IH.
Qed.

Lemma text_leb_trans (a b c : text) :
  text_leb a b = true → text_leb b c = true → text_leb a c = true.
Proof.
  revert b c. induction a as [|x a IH]; intros [|y b] [|z c]; simpl; try done.
  destruct (N.ltb_spec (Char.ord x) (Char.ord y)) as [Hxy|Hxy];
    destruct (N.ltb_spec (Char.ord y) (Char.ord z)) as [Hyz|Hyz];
    destruct (N.ltb_spec (Char.ord x) (Char.ord z)) as [Hxz|Hxz];
    try done; try lia;
    destruct (N.eqb_spec (Char.ord x) (Char.ord y)) as [Exy|Exy];
    destruct (N.eqb_spec (Char.ord y) (Char.ord z)) as [Eyz|Eyz];
    destruct (N.eqb_spec (Char.ord x) (Char.ord z)) as [Exz|Exz];
    try done; try lia.
  apply IH.
Qed.

Lemma text_leb_antisym (a b : text) :
  text_leb a b = true → text_leb b a = true → a = b.
Proof.
  revert b. induction a as [|x a IH]; intros [|y b]; simpl; try done.
  destruct (N.ltb_spec (Char.ord x) (Char.ord y)) as [Hxy|Hxy];
    destruct (N.ltb_spec (Char.ord y) (Char.ord x)) as [Hyx|Hyx];
    try lia;
    destruct (N.eqb_spec (Char.ord x) (Char.ord y)) as [Exy|Exy];
    destruct (N.eqb_spec (Char.ord y) (Char.ord x)) as [Eyx|Eyx];
    try done; try lia.
  intros H1 H2. f_equal; [|by apply IH].
  unfold Char.ord in Exy.
  rewrite <- (ascii_N_embedding x), <- (ascii_N_embedding y). by rewrite Exy.
Qed.

#[global] Instance text_le_total : Total text_le.
Proof. intros a b. apply text_leb_total. Qed.

#[global] Instance text_le_trans : Transitive text_le.
Proof. intros a b c. apply text_leb_trans. Qed.

#[global] Instance text_le_antisym : AntiSymm (=) text_le.
Proof. intros a b. apply text_leb_antisym. Qed.

Lemma sorted_perm (names : list text) : sorted names ≡ₚ names.
Proof. apply merge_sort_Permutation. Qed.

Lemma sorted_sorted (names : list text) : StronglySorted text_le (sorted names).
Proof. apply StronglySorted_merge_sort; apply _. Qed.

Lemma elem_of_list_bpms (d : dataset) (name : text) :
  name ∈ list_bpms d ↔ is_Some (d !! name).
Proof.
  unfold list_bpms. rewrite sorted_perm, list_elem_of_fmap. split.
  - intros [[k c] [-> Hin]]. apply elem_of_map_to_list in Hin. by exists c.
  - intros [c Hc]. exists (name, c). split; [done|].
    by apply elem_of_map_to_list.
Qed.

Lemma NoDup_list_bpms (d : dataset) : NoDup (list_bpms d).
Proof.
  unfold list_bpms. rewrite sorted_perm. apply NoDup_fst_map_to_list.
Qed.

(** ** Turn-count normalisation *)

Section Normalize.
Import BPMDataParen.

Lemma normalize_length (a : list float) (N : Z) :
  (0 ≤ N)%Z → Z.of_nat (length (normalize a N)) = N.
Proof.
  intros HN. unfold normalize, slice_to.
  destruct (Z.ltb_spec N (Z.of_nat (length a))) as [Hlt|Hge].
  - rewrite (proj2 (Z.leb_le 0 N) HN), length_take. lia.
  - destruct (Z.ltb_spec (Z.of_nat (length a)) N) as [Hlt|Hge'].
    + rewrite length_app, length_replicate. lia.
    + lia.
Qed.

(** C6. For an array [a] and a target length [N] (a length, so not
    negative), [normalize] returns [a] itself when [len(a) = N], the first
    [N] elements of [a] when [len(a) > N], and [a] followed by
    [N - len(a)] zeros when [len(a) < N]; normalising twice to the same
    [N] is normalising once. *)
Theorem normalize_spec (a : list float) (N : Z) :
  (0 ≤ N)%Z →
  (Z.of_nat (length a) = N → normalize a N = a)
  ∧ ((N < Z.of_nat (length a))%Z → normalize a N = take (Z.to_nat N) a)
  ∧ ((Z.of_nat (length a) < N)%Z →
     normalize a N = a ++ replicate (Z.to_nat N - length a) F64.zero)
  ∧ normalize (normalize a N) N = normalize a N.
Proof.
  intros HN. repeat split.
  - intros <-. unfold normalize. by rewrite Z.ltb_irrefl.
  - intros Hlt. unfold normalize, slice_to.
    rewrite (proj2 (Z.ltb_lt _ _) Hlt). by rewrite (proj2 (Z.leb_le 0 N) HN).
  - intros Hlt. unfold normalize.
    rewrite (proj2 (Z.ltb_ge _ _)) by lia.
    rewrite (proj2 (Z.ltb_lt _ _) Hlt). do 2 f_equal. lia.
  - pose proof (normalize_length a N HN) as Hlen.
    unfold normalize at 1. rewrite Hlen. by rewrite Z.ltb_irrefl.
Qed.

Lemma normalize_spec_witness :
  normalize [F64.of_Z 1; F64.of_Z 2; F64.of_Z 3] 2
  = take 2 [F64.of_Z 1; F64.of_Z 2; F64.of_Z 3].
Proof.
  apply (normalize_spec [F64.of_Z 1; F64.of_Z 2; F64.of_Z 3] 2);
    simpl; lia.
Defined.

End Normalize.

(** ** The row-format reader *)

Section RowReader.
Import BPMDataSDDS.

(** What one line does to the accumulator: nothing, or some numbers
    appended to the x or to the y of one name. *)
Lemma read_line_cases (acc : accumulator) (raw : text) :
  read_line acc raw = acc
  ∨ ∃ n_str name payload,
      Str.split_ws 2 (Str.strip raw) = [n_str; name; payload]
      ∧ numbers payload ≠ []
      ∧ ((n_str = txt "0"
          ∧ read_line acc raw
            = <[name := ((default ([], []) (acc !! name)).1 ++ numbers payload,
                         (default ([], []) (acc !! name)).2)]> acc)
         ∨ (n_str = txt "1"
            ∧ read_line acc raw
              = <[name := ((default ([], []) (acc !! name)).1,
                           (default ([], []) (acc !! name)).2
                             ++ numbers payload)]> acc)).
Proof.
  unfold read_line.
  destruct (bool_decide (Str.strip raw = []) || _); [by left|].
  destruct (Str.split_ws 2 (Str.strip raw)) as [|n_str [|name [|payload [|? ?]]]];
    try by left.
  unfold Str.among.
  case_bool_decide as Hn; simpl; [|by left].
  destruct (numbers payload) as [|v nums] eqn:Hnums; [by left|].
  right. exists n_str, name, payload. split; [done|]. split; [by rewrite Hnums|].
  rewrite Hnums.
  case_bool_decide as H0; [left|right]; split; try done.
  apply elem_of_cons in Hn as [?|Hn]; [done|].
  apply elem_of_cons in Hn as [?|Hn]; [done|].
  by apply elem_of_nil in Hn.
Qed.

Lemma read_line_filled (acc : accumulator) (raw : text) :
  filled acc → filled (read_line acc raw).
Proof.
  intros Hacc.
  destruct (read_line_cases acc raw)
    as [->|(n_str & name & payload & _ & Hnums & [[_ ->]|[_ ->]])];
    [done| |];
    intros name' xs ys; rewrite lookup_insert;
    case_decide; try apply Hacc; intros [= <- <-].
  - left. intros Happ. apply app_eq_nil in Happ as [_ ?]. done.
  - right. intros Happ. apply app_eq_nil in Happ as [_ ?]. done.
Qed.

Lemma foldl_read_line_filled (lines : list text) (acc : accumulator) :
  filled acc → filled (foldl read_line acc lines).
Proof.
  revert acc. induction lines as [|raw lines IH]; intros acc Hacc; simpl;
    [done|].
  apply IH. by apply read_line_filled.
Qed.

Lemma accumulate_filled (content : text) : filled (accumulate content).
Proof.
  apply foldl_read_line_filled. intros name xs ys. by rewrite lookup_empty.
Qed.

Lemma foldl_read_line_y_empty (name : text) (lines : list text)
    (acc : accumulator) :
  no_plane1 name lines → y_empty name acc →
  y_empty name (foldl read_line acc lines).
Proof.
  revert acc. induction lines as [|raw lines IH]; intros acc Hno Hacc; simpl;
    [done|].
  apply IH.
  { intros r p Hr. apply Hno. by right. }
  destruct (read_line_cases acc raw)
    as [->|(n_str & name' & payload & Hsplit & _ & [[_ ->]|[-> ->]])];
    [done| |]; intros xs ys; rewrite lookup_insert; case_decide as Hname;
    try apply Hacc.
  - subst name'. intros [= <- <-].
    destruct (acc !! name) as [[xs0 ys0]|] eqn:Hl; simpl; [|done].
    by eapply Hacc.
  - subst name'. exfalso. eapply (Hno raw payload); [by left|done].
Qed.

Lemma build_x_nonempty (xs ys : list float) :
  xs ≠ [] → c_x (build (xs, ys)) = xs.
Proof. unfold build; simpl. by destruct xs. Qed.

(** C5. For every row-format text and every BPM of the Dataset read from
    it: when exactly one of the accumulated x and y is not empty the
    other is the zero-filled array of the same length, and z is always
    zero-filled on the length of the (possibly mirrored) x. In particular
    a BPM fed by no plane-1 line has its y and its z zero-filled on the
    length of its x. *)
Theorem from_file_mirroring (content name : text) (c : components) :
  from_file content !! name = Some c →
  ∃ xs ys,
    accumulate content !! name = Some (xs, ys)
    ∧ (xs ≠ [] → ys = [] →
       c_x c = xs ∧ c_y c = replicate (length xs) F64.zero)
    ∧ (xs = [] → ys ≠ [] →
       c_x c = replicate (length ys) F64.zero ∧ c_y c = ys)
    ∧ (xs ≠ [] → ys ≠ [] → c_x c = xs ∧ c_y c = ys)
    ∧ c_z c = replicate (length (c_x c)) F64.zero
    ∧ (no_plane1 name (Str.splitlines content) →
       c_x c = xs ∧ xs ≠ []
       ∧ c_y c = replicate (length (c_x c)) F64.zero
       ∧ c_z c = replicate (length (c_x c)) F64.zero).
Proof.
  unfold from_file. rewrite lookup_fmap.
  destruct (accumulate content !! name) as [[xs ys]|] eqn:Hacc; [|done].
  intros [= <-]. exists xs, ys. split; [done|].
  assert (no_plane1 name (Str.splitlines content) → ys = []) as Hy.
  { intros Hno.
    eapply (foldl_read_line_y_empty name (Str.splitlines content) ∅ Hno);
      [|done].
    intros ? ?. by rewrite lookup_empty. }
  pose proof (accumulate_filled content name xs ys Hacc) as Hfill.
  split; [|split; [|split; [|split]]].
  - intros Hx ->. by destruct xs.
  - intros -> Hys. by destruct ys.
  - intros Hx Hys. by destruct xs, ys.
  - done.
  - intros Hno. rewrite (Hy Hno) in *.
    destruct xs as [|v xs]; [by destruct Hfill|]. done.
Qed.

Lemma from_file_mirroring_witness :
  ∃ xs ys,
    accumulate Sample.plane0_only !! txt "A" = Some (xs, ys)
    ∧ (xs ≠ [] → ys = [] →
       [Sample.one; Sample.two] = xs
       ∧ [F64.zero; F64.zero] = replicate (length xs) F64.zero)
    ∧ (xs = [] → ys ≠ [] →
       [Sample.one; Sample.two] = replicate (length ys) F64.zero
       ∧ [F64.zero; F64.zero] = ys)
    ∧ (xs ≠ [] → ys ≠ [] →
       [Sample.one; Sample.two] = xs ∧ [F64.zero; F64.zero] = ys)
    ∧ [F64.zero; F64.zero] = replicate 2 F64.zero
    ∧ (no_plane1 (txt "A") (Str.splitlines Sample.plane0_only) →
       [Sample.one; Sample.two] = xs ∧ xs ≠ []
       ∧ [F64.zero; F64.zero] = replicate 2 F64.zero
       ∧ [F64.zero; F64.zero] = replicate 2 F64.zero).
Proof.
  apply (from_file_mirroring Sample.plane0_only (txt "A")
           (Components [Sample.one; Sample.two] [F64.zero; F64.zero]
              [F64.zero; F64.zero])).
  vm_compute. reflexivity.
Defined.

(** C10. Every BPM of a Dataset read from a row-format text has a
    non-empty x, a non-empty y and a z as long as its x. *)
Theorem from_file_components_nonempty (content name : text)
    (c : components) :
  from_file content !! name = Some c →
  c_x c ≠ [] ∧ c_y c ≠ [] ∧ length (c_z c) = length (c_x c).
Proof.
  unfold from_file. rewrite lookup_fmap.
  destruct (accumulate content !! name) as [[xs ys]|] eqn:Hacc; [|done].
  intros [= <-].
  destruct (accumulate_filled content name xs ys Hacc) as [Hx|Hy].
  - destruct xs as [|v xs]; [done|].
    destruct ys; simpl; repeat split; try done;
      by rewrite ?length_replicate.
  - destruct ys as [|v ys]; [done|].
    destruct xs; simpl; repeat split; try done;
      by rewrite ?length_replicate.
Qed.

Lemma from_file_components_nonempty_witness :
  [Sample.one; Sample.two] ≠ [] ∧ [F64.zero; F64.zero] ≠ []
  ∧ length [F64.zero; F64.zero] = length [Sample.one; Sample.two].
Proof.
  apply (from_file_components_nonempty Sample.plane0_only (txt "A")
           (Components [Sample.one; Sample.two] [F64.zero; F64.zero]
              [F64.zero; F64.zero])).
  vm_compute. reflexivity.
Defined.

End RowReader.

(** ** The query surface *)

Section Query.

Lemma list_bpms_ext (d d' : dataset) :
  (∀ name, is_Some (d' !! name) ↔ is_Some (d !! name)) →
  list_bpms d' = list_bpms d.
Proof.
  intros Hdom. apply (StronglySorted_unique text_le).
  - apply sorted_sorted.
  - apply sorted_sorted.
  - apply NoDup_Permutation; try apply NoDup_list_bpms.
    intros name. by rewrite !elem_of_list_bpms.
Qed.

Lemma sdds_get_found (d : dataset) (name : text) (c : components) :
  d !! name = Some c →
  BPMDataSDDS.get d name (txt "x") = Ok (c_x c)
  ∧ BPMDataSDDS.get d name (txt "y") = Ok (c_y c)
  ∧ BPMDataSDDS.get d name (txt "z") = Ok (c_z c).
Proof.
  intros Hc. unfold BPMDataSDDS.get.
  repeat split; simpl; by rewrite Hc.
Qed.

Lemma paren_get_found (d : dataset) (name : text) (c : components) :
  d !! name = Some c →
  BPMDataParen.get d name (txt "x") = Ok (c_x c)
  ∧ BPMDataParen.get d name (txt "y") = Ok (c_y c)
  ∧ BPMDataParen.get d name (txt "z") = Ok (c_z c).
Proof.
  intros Hc. unfold BPMDataParen.get.
  repeat split; simpl; by rewrite Hc.
Qed.

(** The row-format class: an unknown name with a valid selector raises
    the [KeyError] whose message lists the loaded names, sorted. *)
Lemma sdds_get_unknown (d : dataset) (bpm selector comp : text) :
  check_component selector = Ok comp →
  d !! bpm = None →
  BPMDataSDDS.get d bpm selector
  = Raise (KeyError (txt "BPM '" ++ bpm ++ txt "' not found. Available: "
                     ++ Str.join (txt ", ") (list_bpms d)))
  ∧ StronglySorted text_le (list_bpms d)
  ∧ ∀ name, name ∈ list_bpms d ↔ is_Some (d !! name).
Proof.
  intros Hsel Hbpm. unfold BPMDataSDDS.get. rewrite Hsel; simpl.
  rewrite Hbpm. split; [done|]. split; [apply sorted_sorted|].
  apply elem_of_list_bpms.
Qed.

(** The paren-format class: the same call raises the bare [KeyError] of
    the dictionary, whose only argument is the name asked for. *)
Lemma paren_get_unknown (d : dataset) (bpm selector comp : text) :
  check_component selector = Ok comp →
  d !! bpm = None →
  BPMDataParen.get d bpm selector = Raise (KeyError bpm).
Proof.
  intros Hsel Hbpm. unfold BPMDataParen.get. rewrite Hsel; simpl.
  by rewrite Hbpm.
Qed.

(** C7, at a Dataset that holds the BPMs [B] and [C]: asked for [A], the
    row-format class names [B, C] in its message and the paren-format
    class names nothing but [A]. *)
Theorem get_unknown_bpm_divergence :
  BPMDataSDDS.get Sample.two_bpms (txt "A") (txt "x")
  = Raise (KeyError (txt "BPM 'A' not found. Available: B, C"))
  ∧ BPMDataParen.get Sample.two_bpms (txt "A") (txt "x")
    = Raise (KeyError (txt "A")).
Proof. split; vm_compute; reflexivity. Qed.

End Query.

(** ** The paren-format writer *)

Section ParenWriter.
Import BPMDataSDDS DataText.
Variable o : data_options.

Lemma fmt_array_nil : fmt_array o [] = [].
Proof. unfold fmt_array; simpl. by destruct (0 <? columns o)%Z. Qed.

Lemma scaled_length (a : list float) (s : float) :
  length (scaled a s) = length a.
Proof. apply length_map. Qed.

Lemma scaled_replicate (n : nat) (v s : float) :
  scaled (replicate n v) s = replicate n (F64.mul v s).
Proof. unfold scaled. induction n; simpl; by f_equal. Qed.

(** The z array of an entry before its first sample is dropped. *)
Lemma entry_arrays_z (xs ys : list float) :
  (entry_arrays o xs ys).2
  = drop 1 (replicate (length xs)
              (if include_z o then F64.mul (z_fill o) (scale o)
               else F64.zero)).
Proof.
  unfold entry_arrays; simpl. f_equal.
  destruct (include_z o).
  - unfold full_like. by rewrite scaled_replicate, scaled_length.
  - unfold zeros_like. by rewrite scaled_length.
Qed.

Lemma write_entries_closed (d : dataset) (n : nat)
    (items : list (nat * text)) (f : text) :
  (∀ idx name, (idx, name) ∈ items → is_Some (d !! name)) →
  write_entries o d n items f = Ok (f ++ entries o d n items).
Proof.
  revert f. induction items as [|[idx name] items IH]; intros f Hin.
  { unfold entries; simpl. by rewrite app_nil_r. }
  destruct (Hin idx name) as [c Hc]; [by left|].
  destruct (sdds_get_found d name c Hc) as (Hx & Hy & _).
  cbn [write_entries]. rewrite Hx, Hy. cbn [mbind result_bind].
  unfold entries; cbn [map concat]. fold (entries o d n items).
  unfold entry_of at 1. rewrite Hc.
  destruct (entry_arrays o (c_x c) (c_y c)) as [[x1 y1] z1].
  unfold terminator.
  destruct (Z.of_nat idx <? Z.of_nat n - 1)%Z;
    (rewrite IH; [|intros i m Him; apply (Hin i m); by right]);
    by rewrite <- !app_assoc.
Qed.

(** [to_data] never raises, and writes [whole]. *)
Lemma to_data_closed (d : dataset) : to_data o d = Ok (whole o d).
Proof.
  unfold to_data, whole, opening, closing, has_header.
  rewrite write_entries_closed.
  - cbn [mbind result_bind].
    destruct (header_lines o) as [[|l ls]|]; f_equal;
      rewrite <- ?app_assoc; simpl; by rewrite ?app_nil_r.
  - intros idx name Hin. apply elem_of_lookup_imap in Hin
      as (i & m & [= -> ->] & Hm).
    apply elem_of_list_bpms, list_elem_of_lookup. by exists i.
Qed.

Lemma entries_app (d : dataset) (n : nat) (l1 l2 : list (nat * text)) :
  entries o d n (l1 ++ l2) = entries o d n l1 ++ entries o d n l2.
Proof. unfold entries. by rewrite map_app, concat_app. Qed.

(** The entry of a BPM of the Dataset is part of the text written. *)
Lemma whole_has_entry (d : dataset) (name : text) :
  is_Some (d !! name) →
  ∃ pre post, whole o d = pre ++ entry_of o d name ++ post.
Proof.
  intros Hin. apply elem_of_list_bpms, list_elem_of_lookup in Hin as [i Hi].
  assert ((i, name) ∈ imap (λ idx nm, (idx, nm)) (list_bpms d)) as Hitem.
  { apply elem_of_lookup_imap. by exists i, name. }
  apply list_elem_of_split in Hitem as (l1 & l2 & Hitems).
  unfold whole. rewrite Hitems.
  change ((i, name) :: l2) with ([(i, name)] ++ l2).
  rewrite !entries_app.
  set (n := length (list_bpms d)).
  exists (opening o ++ txt "{" ++ entries o d n l1).
  exists (terminator n i ++ entries o d n l2 ++ txt "}" ++ closing o).
  unfold entries at 2. cbn [map concat].
  rewrite app_nil_r. by rewrite <- !app_assoc.
Qed.

End ParenWriter.

(** ** The end-to-end example *)

(** C2. The two row-format lines [0 BPM1 1.0 2.0 3.0] and
    [1 BPM1 4.0 5.0 6.0], read by the row reader and written by the paren
    writer with scale 1.0, without z and with six values per line, give for
    BPM1 the arrays x = {2.0, 3.0}, y = {5.0, 6.0} and z = {0.0, 0.0}: these are
    the arrays the writer formats, the text it writes holds them, and the
    paren reader reads them back from it. *)
Theorem end_to_end_example :
  let D := BPMDataSDDS.from_file Sample.two_lines in
  D = {[ txt "BPM1" :=
           Components [Sample.one; Sample.two; Sample.three]
             [Sample.four; Sample.five; Sample.six]
             [F64.zero; F64.zero; F64.zero] ]}
  ∧ BPMDataSDDS.entry_arrays Sample.no_z_options
      [Sample.one; Sample.two; Sample.three]
      [Sample.four; Sample.five; Sample.six]
    = ([Sample.two; Sample.three], [Sample.five; Sample.six],
       [F64.zero; F64.zero])
  ∧ BPMDataSDDS.to_data Sample.no_z_options D = Ok Sample.two_lines_written
  ∧ BPMDataParen.from_file Sample.two_lines_written
    = {[ txt "BPM1" :=
           Components [Sample.two; Sample.three] [Sample.five; Sample.six]
             [F64.zero; F64.zero] ]}.
Proof. repeat split; vm_compute; reflexivity. Qed.

(** ** Line continuations *)

Section Continuations.

Lemma span_app_all (p : ascii → bool) (a rest : text) :
  forallb p a = true →
  match rest with c :: _ => p c = false | [] => True end →
  Str.span p (a ++ rest) = (a, rest).
Proof.
  intros Ha Hrest. induction a as [|c a IH]; simpl in *.
  - destruct rest as [|c r]; [done|]. simpl. by rewrite Hrest.
  - apply andb_true_iff in Ha as [-> Ha]. by rewrite IH.
Qed.

Lemma span_fst_app (p : ascii → bool) (a rest : text) :
  match rest with c :: _ => p c = false | [] => True end →
  (Str.span p (a ++ rest)).1 = (Str.span p a).1.
Proof.
  intros Hrest. induction a as [|c a IH]; simpl.
  - destruct rest as [|c r]; [done|]. simpl. by rewrite Hrest.
  - destruct (p c); [|done].
    destruct (Str.span p (a ++ rest)), (Str.span p a). simpl in *. by f_equal.
Qed.

Lemma span_fst_length (p : ascii → bool) (a : text) :
  length (Str.span p a).1 ≤ length a.
Proof.
  induction a as [|c a IH]; simpl; [done|].
  destruct (p c); simpl; [|lia]. destruct (Str.span p a); simpl in *. lia.
Qed.

Lemma continuation_sub_skip (w s : text) :
  Re.continuation_sub_from (length w) (w ++ s) = Re.continuation_sub_from 0 s.
Proof. induction w as [|c w IH]; simpl; [done|]. apply IH. Qed.

(** A match that starts in [pre] is the same whatever follows [pre], as
    long as what follows does not start with white space. *)
Lemma continuation_match_app (pre rest : text) :
  starts_black rest → pre ≠ [] →
  Re.continuation_match (pre ++ rest) = Re.continuation_match pre.
Proof.
  intros Hrest Hpre. destruct pre as [|c pre]; [done|]. simpl.
  destruct (Char.eqb c Char.backslash); [|done].
  by rewrite span_fst_app.
Qed.

Lemma continuation_match_length (s : text) (n : nat) :
  Re.continuation_match s = Some n → n ≤ length s ∧ 0 < n.
Proof.
  destruct s as [|c s]; simpl; [done|].
  destruct (Char.eqb c Char.backslash); [|done].
  destruct (existsb _ _); [|done]. intros [= <-].
  pose proof (span_fst_length Char.isspace s). lia.
Qed.

Lemma continuation_sub_insert (x post pre : text) (k : nat) :
  starts_black (x ++ post) → starts_black post →
  Re.continuation_sub_from 0 (x ++ post) = Re.continuation_sub_from 0 post →
  k ≤ length pre →
  Re.continuation_sub_from k (pre ++ x ++ post)
  = Re.continuation_sub_from k (pre ++ post).
Proof.
  intros Hx Hpost Hsub. revert k.
  induction pre as [|c pre IH]; intros k Hk.
  { simpl in *. by replace k with 0 by lia. }
  destruct k as [|k]; [|simpl in *; apply IH; lia].
  change ((c :: pre) ++ x ++ post) with (c :: (pre ++ x ++ post)).
  change ((c :: pre) ++ post) with (c :: (pre ++ post)).
  cbn [Re.continuation_sub_from].
  change (c :: (pre ++ x ++ post)) with ((c :: pre) ++ x ++ post).
  change (c :: (pre ++ post)) with ((c :: pre) ++ post).
  rewrite !continuation_match_app by done.
  destruct (Re.continuation_match (c :: pre)) as [n|] eqn:Hm.
  - apply continuation_match_length in Hm. simpl in Hm. apply IH. lia.
  - f_equal. apply IH. lia.
Qed.

Lemma continuation_sub_match (w post : text) :
  forallb Char.isspace w = true →
  existsb (Char.eqb Char.newline) w = true →
  starts_black post →
  Re.continuation_sub_from 0 (Char.backslash :: w ++ post)
  = Re.continuation_sub_from 0 post.
Proof.
  intros Hall Hnl Hpost.
  cbn [Re.continuation_sub_from Re.continuation_match].
  change (Char.eqb Char.backslash Char.backslash) with true. cbv iota.
  rewrite span_app_all; [|done|by destruct post].
  cbn [fst]. rewrite Hnl. cbn [pred].
  apply continuation_sub_skip.
Qed.

(** C9. A backslash followed by a line feed, with any white space between
    the two and after the line feed, is removed before the entries are
    matched: a text in which a numeric literal is split this way is parsed
    to the same Dataset as the text with the literal in one piece. In
    particular the literal 12, backslash, line feed, 345 is read as 12345. *)
Theorem line_continuation_joined (pre w1 w2 post : text) :
  forallb Char.isspace w1 = true →
  forallb Char.isspace w2 = true →
  starts_black post →
  _join_line_continuations
    (pre ++ Char.backslash :: w1 ++ Char.newline :: w2 ++ post)
  = _join_line_continuations (pre ++ post)
  ∧ BPMDataParen.from_file
      (pre ++ Char.backslash :: w1 ++ Char.newline :: w2 ++ post)
    = BPMDataParen.from_file (pre ++ post)
  ∧ BPMDataParen.from_file
      (Sample.before_split ++ Char.backslash :: Char.newline
         :: Sample.after_split)
    = BPMDataParen.from_file (Sample.before_split ++ Sample.after_split)
  ∧ BPMDataParen.from_file (Sample.before_split ++ Sample.after_split)
    = {[ txt "A" := Components [F64.of_Z 12345] [F64.of_Z 1] [F64.of_Z 2] ]}.
Proof.
  intros Hw1 Hw2 Hpost.
  assert (_join_line_continuations
            (pre ++ Char.backslash :: w1 ++ Char.newline :: w2 ++ post)
          = _join_line_continuations (pre ++ post)) as Hjoin.
  { unfold _join_line_continuations.
    set (x := Char.backslash :: w1 ++ [Char.newline] ++ w2).
    replace (Char.backslash :: w1 ++ Char.newline :: w2 ++ post)
      with (x ++ post).
    2: { unfold x. simpl. by rewrite <- !app_assoc. }
    apply continuation_sub_insert; [done|done| |lia].
    unfold x. apply continuation_sub_match; [| |done].
    - rewrite !forallb_app, Hw1, Hw2. done.
    - rewrite !existsb_app. simpl. apply orb_true_r. }
  split; [exact Hjoin|]. split; [|split].
  - unfold BPMDataParen.from_file. by rewrite Hjoin.
  - vm_compute. reflexivity.
  - vm_compute. reflexivity.
Qed.

Lemma line_continuation_joined_witness :
  _join_line_continuations
    (Sample.before_split
       ++ Char.backslash :: [" "%char] ++ Char.newline
       :: [" "%char; " "%char] ++ Sample.after_split)
  = _join_line_continuations (Sample.before_split ++ Sample.after_split).
Proof.
  apply (line_continuation_joined Sample.before_split [" "%char]
           [" "%char; " "%char] Sample.after_split); reflexivity.
Defined.

End Continuations.

(** ** Summary statistics *)

Section Summary.
Context `{NumPy}.

Lemma in_0_100_int (p : number) :
  in_0_100 p = true → ∃ n, py_int p = Ok n.
Proof.
  destruct p as [n|[s|s| |s m e]]; simpl; eauto.
  - by destruct s.
  - done.
Qed.

Lemma percentile_key_ok (p : number) :
  in_0_100 p = true → ∃ r, percentile_key p = Ok ("p"%char :: r).
Proof.
  intros Hp. destruct (in_0_100_int p Hp) as [n Hn].
  unfold percentile_key. rewrite Hn. by eexists.
Qed.

Lemma percentile_key_head (p : number) (k : text) :
  percentile_key p = Ok k → ∃ r, k = "p"%char :: r.
Proof.
  unfold percentile_key. destruct (py_int p); simpl; [|done].
  intros [= <-]. by eexists.
Qed.

Lemma set_percentiles_plain (value : number → result float)
    (ps : list number) (d d' : row) (k : text) :
  set_percentiles value ps d = Ok d' → plain_key k → d' !! k = d !! k.
Proof.
  intros Hset Hk. revert d Hset.
  induction ps as [|p ps IH]; intros d; simpl.
  { by intros [= <-]. }
  destruct (value p) as [v|]; simpl; [|done].
  destruct (percentile_key p) as [kp|] eqn:Hkp; simpl; [|done].
  intros Hset. rewrite (IH _ Hset).
  apply lookup_insert_ne. apply percentile_key_head in Hkp as [r ->].
  intros <-. by apply (Hk r).
Qed.

Lemma set_percentiles_total (value : number → result float)
    (ps : list number) (d : row) :
  (∀ p, p ∈ ps → in_0_100 p = true ∧ ∃ v, value p = Ok v) →
  ∃ d', set_percentiles value ps d = Ok d'.
Proof.
  revert d. induction ps as [|p ps IH]; intros d Hps; simpl; [by eexists|].
  destruct (Hps p) as [Hp [v Hv]]; [by left|].
  destruct (percentile_key_ok p Hp) as [r Hr].
  rewrite Hv, Hr. simpl. apply IH. intros q Hq. apply Hps. by right.
Qed.

Lemma set_percentiles_nan (ps : list number) (d d' : row) (k : text) :
  set_percentiles (λ _, Ok F64.nan) ps d = Ok d' →
  d !! k = Some (CFloat F64.nan) ∨ (∃ p, p ∈ ps ∧ percentile_key p = Ok k) →
  d' !! k = Some (CFloat F64.nan).
Proof.
  revert d. induction ps as [|p ps IH]; intros d; simpl.
  { intros [= <-] [Hd|(p & Hp & _)]; [done|]. by apply elem_of_nil in Hp. }
  destruct (percentile_key p) as [kp|] eqn:Hkp; simpl; [|done].
  intros Hset Hk. apply (IH _ Hset).
  destruct (decide (kp = k)) as [->|Hne].
  { left. apply lookup_insert_eq. }
  destruct Hk as [Hd|(q & Hq & Hqk)].
  - left. by rewrite lookup_insert_ne.
  - apply elem_of_cons in Hq as [->|Hq]; [congruence|].
    right. by exists q.
Qed.

Ltac plain := let r := fresh in intros r; vm_compute; discriminate.

(** [stats_for] on an empty array. *)
Lemma stats_for_empty (ps : list number) :
  (∀ p, p ∈ ps → in_0_100 p = true) →
  ∃ st,
    stats_for ps [] = Ok st
    ∧ st !! txt "n" = Some (CInt 0)
    ∧ st !! txt "mean" = Some (CFloat F64.nan)
    ∧ st !! txt "std" = Some (CFloat F64.nan)
    ∧ st !! txt "min" = Some (CFloat F64.nan)
    ∧ st !! txt "max" = Some (CFloat F64.nan)
    ∧ st !! txt "median" = Some (CFloat F64.nan)
    ∧ ∀ p, p ∈ ps →
        ∃ k, percentile_key p = Ok k ∧ st !! k = Some (CFloat F64.nan).
Proof.
  intros Hps. unfold stats_for. cbn [length Nat.eqb].
  match goal with |- context [set_percentiles ?v ps ?b] =>
    destruct (set_percentiles_total v ps b) as [st Hst] end.
  { intros p Hp. split; [by apply Hps|by eexists]. }
  exists st. split; [done|].
  repeat split;
    try (rewrite (set_percentiles_plain _ _ _ _ _ Hst) by plain;
         vm_compute; reflexivity).
  intros p Hp. destruct (percentile_key_ok p (Hps p Hp)) as [r Hr].
  eexists. split; [done|].
  apply (set_percentiles_nan _ _ _ _ Hst). right. by exists p.
Qed.

(** [stats_for] on an array that is not empty. *)
Lemma stats_for_nonempty (ps : list number) (arr : list float) :
  (∀ p, p ∈ ps → in_0_100 p = true) →
  arr ≠ [] →
  ∃ st,
    stats_for ps arr = Ok st
    ∧ st !! txt "n" = Some (CInt (Z.of_nat (length arr)))
    ∧ st !! txt "std"
      = Some (CFloat (if (1 <? length arr)%nat then np_std arr 1
                      else F64.zero)).
Proof.
  intros Hps Harr. unfold stats_for.
  destruct arr as [|a arr]; [done|]. cbn [length Nat.eqb].
  match goal with |- context [set_percentiles ?v ps ?b] =>
    destruct (set_percentiles_total v ps b) as [st Hst] end.
  { intros p Hp. split; [by apply Hps|].
    by apply np_percentile_ok; [|apply Hps]. }
  exists st. split; [done|].
  split; rewrite (set_percentiles_plain _ _ _ _ _ Hst) by plain.
  - rewrite !lookup_insert_ne by (vm_compute; discriminate).
    apply lookup_insert_eq.
  - rewrite !lookup_insert_ne by (vm_compute; discriminate).
    apply lookup_insert_eq.
Qed.

Lemma stats_for_total (ps : list number) (arr : list float) :
  (∀ p, p ∈ ps → in_0_100 p = true) → ∃ st, stats_for ps arr = Ok st.
Proof.
  intros Hps. destruct arr as [|a arr].
  - destruct (stats_for_empty ps Hps) as (st & Hst & _). by exists st.
  - destruct (stats_for_nonempty ps (a :: arr) Hps) as (st & Hst & _);
      [done|]. by exists st.
Qed.

Lemma check_component_selectors (comp : text) :
  comp ∈ selectors → check_component comp = Ok comp.
Proof.
  intros Hc. repeat (apply elem_of_cons in Hc as [->|Hc]; [done|]).
  by apply elem_of_nil in Hc.
Qed.

Lemma sdds_get_component (d : dataset) (name comp : text) (c : components) :
  d !! name = Some c → comp ∈ selectors →
  BPMDataSDDS.get d name comp = Ok (component c comp).
Proof.
  intros Hc Hcomp. unfold BPMDataSDDS.get.
  rewrite (check_component_selectors comp Hcomp). simpl. by rewrite Hc.
Qed.

Lemma paren_get_component (d : dataset) (name comp : text) (c : components) :
  d !! name = Some c → comp ∈ selectors →
  BPMDataParen.get d name comp = Ok (component c comp).
Proof.
  intros Hc Hcomp. unfold BPMDataParen.get.
  rewrite (check_component_selectors comp Hcomp). simpl. by rewrite Hc.
Qed.

Lemma stats_rows_spec (ps : list number)
    (get : text → text → result (list float)) (d : dataset)
    (names : list text) :
  (∀ p, p ∈ ps → in_0_100 p = true) →
  (∀ name, name ∈ names → is_Some (d !! name)) →
  (∀ name c comp, d !! name = Some c → comp ∈ selectors →
                  get name comp = Ok (component c comp)) →
  ∃ rows,
    stats_rows ps get names = Ok rows
    ∧ ∀ name c comp st,
        name ∈ names → d !! name = Some c → comp ∈ selectors →
        stats_for ps (component c comp) = Ok st →
        tagged name comp st ∈ rows.
Proof.
  intros Hps Hnames Hget.
  induction names as [|name names IH].
  { exists []. split; [done|]. intros ? ? ? ? Hin. by apply elem_of_nil in Hin. }
  destruct IH as (rows & Hrows & Hmem).
  { intros n Hn. apply Hnames. by right. }
  destruct (Hnames name) as [c Hc]; [by left|].
  destruct (stats_for_total ps (component c (txt "x")) Hps) as [sx Hsx].
  destruct (stats_for_total ps (component c (txt "y")) Hps) as [sy Hsy].
  destruct (stats_for_total ps (component c (txt "z")) Hps) as [sz Hsz].
  exists (tagged name (txt "x") sx :: tagged name (txt "y") sy
          :: tagged name (txt "z") sz :: rows).
  split.
  - cbn [stats_rows].
    rewrite !(Hget name c) by (done || (unfold selectors; set_solver)).
    cbn [mbind result_bind]. rewrite Hsx, Hsy, Hsz, Hrows. done.
  - intros n c' comp st Hn Hc' Hcomp Hst.
    apply elem_of_cons in Hn as [->|Hn].
    + assert (c' = c) as -> by congruence.
      unfold selectors in Hcomp.
      apply elem_of_cons in Hcomp as [->|Hcomp].
      { assert (st = sx) as -> by congruence. by left. }
      apply elem_of_cons in Hcomp as [->|Hcomp].
      { assert (st = sy) as -> by congruence. right. by left. }
      apply elem_of_cons in Hcomp as [->|Hcomp]; [|by apply elem_of_nil in Hcomp].
      assert (st = sz) as -> by congruence. right. right. by left.
    + do 3 right. by eapply Hmem.
Qed.

Lemma stats_frame_spec (rows : list row) (r : row) :
  r ∈ rows → ∃ sorted_rows, stats_frame rows = Ok sorted_rows ∧ r ∈ sorted_rows.
Proof.
  intros Hr. destruct rows as [|r0 rows]; [by apply elem_of_nil in Hr|].
  eexists. split; [done|]. by rewrite merge_sort_Permutation.
Qed.

(** C8, amended. For every Dataset, every BPM of it and each of its stored
    arrays x, y and z, with percentiles in their documented range [0, 100],
    the statistical summary of both classes returns (it does not raise)
    and holds the row of that BPM and component, made by [stats_for] on
    the stored array: on an array of length zero the count is 0 and the
    mean, the deviation, the minimum, the maximum, the median and every
    percentile asked for are NaN; on an array of length one the deviation
    is 0; on a longer one it is [np.std] with [ddof = 1], the sample
    deviation on N - 1. *)
Theorem summary_stats_edge_cases (ps : list number) (d : dataset)
    (name : text) (c : components) (comp : text) (arr : list float) :
  (∀ p, p ∈ ps → in_0_100 p = true) →
  d !! name = Some c →
  (comp, arr) ∈ [(txt "x", c_x c); (txt "y", c_y c); (txt "z", c_z c)] →
  ∃ st,
    stats_for ps arr = Ok st
    ∧ (∃ rows, BPMDataSDDS.summary_stats d ps = Ok rows
               ∧ <[txt "component" := CStr comp]>
                   (<[txt "BPM" := CStr name]> st) ∈ rows)
    ∧ (∃ rows, BPMDataParen.summary_stats d ps = Ok rows
               ∧ <[txt "component" := CStr comp]>
                   (<[txt "BPM" := CStr name]> st) ∈ rows)
    ∧ st !! txt "n" = Some (CInt (Z.of_nat (length arr)))
    ∧ (length arr = 0 →
       st !! txt "mean" = Some (CFloat F64.nan)
       ∧ st !! txt "std" = Some (CFloat F64.nan)
       ∧ st !! txt "min" = Some (CFloat F64.nan)
       ∧ st !! txt "max" = Some (CFloat F64.nan)
       ∧ st !! txt "median" = Some (CFloat F64.nan)
       ∧ ∀ p, p ∈ ps →
           ∃ k, percentile_key p = Ok k ∧ st !! k = Some (CFloat F64.nan))
    ∧ (length arr = 1 → st !! txt "std" = Some (CFloat F64.zero))
    ∧ (1 < length arr → st !! txt "std" = Some (CFloat (np_std arr 1))).
Proof.
  intros Hps Hc Hpair.
  assert (comp ∈ selectors ∧ arr = component c comp) as [Hcomp ->].
  { unfold selectors.
    repeat (apply elem_of_cons in Hpair as [[= -> ->]|Hpair];
            [split; [repeat constructor|reflexivity]|]).
    by apply elem_of_nil in Hpair. }
  set (arr := component c comp).
  change (<[txt "component" := CStr comp]> (<[txt "BPM" := CStr name]> ?s))
    with (tagged name comp s).
  assert (name ∈ list_bpms d) as Hname by (apply elem_of_list_bpms; eauto).
  assert (∀ st, stats_for ps arr = Ok st →
               (∃ rows, BPMDataSDDS.summary_stats d ps = Ok rows
                        ∧ tagged name comp st ∈ rows)
               ∧ (∃ rows, BPMDataParen.summary_stats d ps = Ok rows
                          ∧ tagged name comp st ∈ rows)) as Hsummary.
  { intros st Hst. split.
    - destruct (stats_rows_spec ps (BPMDataSDDS.get d) d (list_bpms d))
        as (rows & Hrows & Hmem);
        [done| |intros n c' cp; apply sdds_get_component|].
      { intros n. apply elem_of_list_bpms. }
      destruct (stats_frame_spec rows (tagged name comp st))
        as (sorted_rows & Hframe & Hin); [by eapply Hmem|].
      exists sorted_rows. split; [|done].
      unfold BPMDataSDDS.summary_stats. by rewrite Hrows.
    - destruct (stats_rows_spec ps (BPMDataParen.get d) d (list_bpms d))
        as (rows & Hrows & Hmem);
        [done| |intros n c' cp; apply paren_get_component|].
      { intros n. apply elem_of_list_bpms. }
      destruct (stats_frame_spec rows (tagged name comp st))
        as (sorted_rows & Hframe & Hin); [by eapply Hmem|].
      exists sorted_rows. split; [|done].
      unfold BPMDataParen.summary_stats. by rewrite Hrows. }
  destruct arr as [|a arr'] eqn:Harr.
  - destruct (stats_for_empty ps Hps)
      as (st & Hst & Hn & Hmean & Hstd & Hmin & Hmax & Hmed & Hpct).
    exists st. split; [done|].
    destruct (Hsummary st Hst) as [Hs1 Hs2].
    repeat split; try done; simpl; lia.
  - destruct (stats_for_nonempty ps (a :: arr') Hps)
      as (st & Hst & Hn & Hstd); [done|].
    exists st. split; [done|].
    destruct (Hsummary st Hst) as [Hs1 Hs2].
    split; [done|]. split; [done|]. split; [done|].
    split; [simpl; lia|]. split.
    + intros Hlen. rewrite Hstd.
      destruct arr'; [done|simpl in Hlen; lia].
    + intros Hlen. rewrite Hstd.
      destruct arr'; [simpl in Hlen; lia|done].
Qed.

End Summary.

Lemma summary_stats_edge_cases_witness :
  ∃ st,
    @stats_for Sample.numpy_stub Sample.percentiles [Sample.one; Sample.two]
    = Ok st
    ∧ (∃ rows,
         @BPMDataSDDS.summary_stats Sample.numpy_stub Sample.two_bpms
           Sample.percentiles = Ok rows
         ∧ <[txt "component" := CStr (txt "x")]>
             (<[txt "BPM" := CStr (txt "B")]> st) ∈ rows)
    ∧ st !! txt "n" = Some (CInt 2)
    ∧ st !! txt "std"
      = Some (CFloat (@np_std Sample.numpy_stub [Sample.one; Sample.two] 1)).
Proof.
  destruct (@summary_stats_edge_cases Sample.numpy_stub Sample.percentiles
              Sample.two_bpms (txt "B")
              (Components [Sample.one; Sample.two] [Sample.two; Sample.one]
                 [F64.zero; F64.zero])
              (txt "x") [Sample.one; Sample.two])
    as (st & Hst & Hrows & _ & Hn & _ & _ & Hstd).
  - intros p Hp. unfold Sample.percentiles in Hp.
    repeat (apply elem_of_cons in Hp as [->|Hp]; [reflexivity|]).
    by apply elem_of_nil in Hp.
  - vm_compute. reflexivity.
  - by left.
  - exists st. split; [exact Hst|]. split; [exact Hrows|].
    split; [exact Hn|]. apply Hstd. simpl. lia.
Defined.

(** C8 as stated fails. The paren-format text that holds the entry of A
    with three empty arrays is read as a Dataset whose only BPM has three
    zero-length components; asked for the percentile NaN, which is a
    [float] like another, [stats_for] on a zero-length array raises
    [ValueError] when it makes the key of the percentile, and so does the
    statistical summary of both classes. *)
Lemma summary_stats_counterexample :
  BPMDataParen.from_file (BPMDataSDDS.entry_text (txt "A") [] [] [])
  = {[ txt "A" := Components [] [] [] ]}
  ∧ @stats_for Sample.numpy_stub [Float F64.nan] []
    = Raise (ValueError (txt "cannot convert float NaN to integer"))
  ∧ @BPMDataParen.summary_stats Sample.numpy_stub
      {[ txt "A" := Components [] [] [] ]} [Float F64.nan]
    = Raise (ValueError (txt "cannot convert float NaN to integer"))
  ∧ @BPMDataSDDS.summary_stats Sample.numpy_stub
      {[ txt "A" := Components [] [] [] ]} [Float F64.nan]
    = Raise (ValueError (txt "cannot convert float NaN to integer")).
Proof. repeat split; vm_compute; reflexivity. Qed.


(** ** The round trip through the paren format *)

Section RoundTripProofs.
Import BPMDataSDDS DataText.

(** ** Numeric tokens *)

Lemma digit_not_sign (c : ascii) :
  Char.isdigit c = true → Char.issign c = false.
Proof. destruct c as [[] [] [] [] [] [] [] []]; done. Qed.

Lemma stop_not_digit (rest : text) :
  stop rest → match rest with c :: _ => Char.isdigit c = false | [] => True end.
Proof. destruct rest as [|c r]; [done|]. by intros [-> | ->]. Qed.

Lemma span_digits (ds rest : text) :
  digits ds →
  match rest with c :: _ => Char.isdigit c = false | [] => True end →
  Str.span Char.isdigit (ds ++ rest) = (ds, rest).
Proof. apply span_app_all. Qed.

Lemma opt_exponent_text (ex : option (bool * text)) (rest : text) :
  match ex with None => True | Some (_, ed) => ed ≠ [] ∧ digits ed end →
  stop rest →
  Re.opt_exponent (exponent_text ex ++ rest) = (exponent_text ex, rest).
Proof.
  intros Hex Hrest. destruct ex as [[eneg ed]|]; simpl.
  - destruct Hex as [Hne Hed].
    destruct eneg; simpl;
      (rewrite span_digits; [|done|by apply stop_not_digit]);
      by destruct ed.
  - destruct rest as [|c r]; [done|]. simpl.
    by destruct Hrest as [-> | ->].
Qed.

Lemma mantissa_text (ip fp tail : text) :
  ip ≠ [] → digits ip → digits fp →
  match tail with
  | c :: _ => Char.isdigit c = false ∧ Char.eqb c "."%char = false
  | [] => True
  end →
  Re.mantissa (F64.with_fraction ip fp ++ tail)
  = Some (F64.with_fraction ip fp, tail).
Proof.
  intros Hne Hip Hfp Htail. unfold Re.mantissa, F64.with_fraction.
  destruct fp as [|f fp].
  - rewrite span_digits; [|done|by destruct tail as [|? ?]; [|apply Htail]].
    destruct tail as [|c r]; [by destruct ip|].
    destruct Htail as [_ ->]. by destruct ip.
  - rewrite <- app_assoc. rewrite span_digits; [|done|done].
    cbn [app]. change (Char.eqb "." ".") with true. cbv iota.
    change (f :: fp ++ tail) with ((f :: fp) ++ tail).
    rewrite span_digits; [|done|by destruct tail as [|? ?]; [|apply Htail]].
    done.
Qed.

Lemma num_match_token (tp : token_parts) (rest : text) :
  token_wf tp → stop rest →
  Re.num_match (token_text tp ++ rest) = Some (token_text tp).
Proof.
  intros (Hne & Hip & Hfp & Hex) Hrest.
  destruct tp as [neg ip fp ex]. unfold token_text; simpl in *.
  assert (match exponent_text ex ++ rest with
          | c :: _ => Char.isdigit c = false ∧ Char.eqb c "."%char = false
          | [] => True
          end) as Htail.
  { destruct ex as [[eneg ed]|]; simpl; [done|].
    destruct rest as [|c r]; [done|]. by destruct Hrest as [-> | ->]. }
  unfold Re.num_match.
  assert (Re.opt_sign ((F64.sign_text neg
            ++ F64.with_fraction ip fp ++ exponent_text ex) ++ rest)
          = (F64.sign_text neg,
             F64.with_fraction ip fp ++ exponent_text ex ++ rest)) as ->.
  { destruct neg; simpl; [by rewrite <- app_assoc|].
    rewrite <- app_assoc.
    destruct ip as [|i ip]; [done|].
    unfold F64.with_fraction.
    assert (Char.issign i = false) as Hi.
    { apply digit_not_sign. unfold digits in Hip. simpl in Hip.
      by apply andb_true_iff in Hip as [? _]. }
    destruct fp; simpl; by rewrite Hi. }
  rewrite mantissa_text by done. cbn [mbind option_bind].
  rewrite opt_exponent_text by done. done.
Qed.

Lemma num_findall_skip (p rest : text) :
  Re.num_findall_from (length p) (p ++ rest) = Re.num_findall_from 0 rest.
Proof. induction p as [|c p IH]; simpl; [done|]. apply IH. Qed.

Lemma token_text_nonempty (tp : token_parts) :
  token_wf tp → token_text tp ≠ [].
Proof.
  intros (Hne & _). destruct tp as [neg ip fp ex]; simpl in *.
  unfold token_text, F64.with_fraction; simpl.
  destruct neg; [done|]. destruct ip; [done|]. by destruct fp.
Qed.

(** A token followed by a stop is found, and the search goes on after it. *)
Lemma num_findall_token (tp : token_parts) (rest : text) :
  token_wf tp → stop rest →
  Re.num_findall_from 0 (token_text tp ++ rest)
  = token_text tp :: Re.num_findall_from 0 rest.
Proof.
  intros Hwf Hrest.
  pose proof (num_match_token tp rest Hwf Hrest) as Hm.
  pose proof (token_text_nonempty tp Hwf) as Hne.
  destruct (token_text tp) as [|c t]; [done|].
  cbn [app Re.num_findall_from]. cbn [app] in Hm. rewrite Hm.
  f_equal. cbn [length pred]. apply num_findall_skip.
Qed.


(** ** The general format writes tokens *)

Lemma forallb_reverse (p : ascii → bool) (l : text) :
  forallb p (reverse l) = forallb p l.
Proof.
  induction l as [|c l IH]; [done|].
  rewrite reverse_cons, forallb_app, IH. simpl.
  rewrite andb_true_r. apply andb_comm.
Qed.

Lemma forallb_span_snd (p q : ascii → bool) (l : text) :
  forallb p l = true → forallb p (Str.span q l).2 = true.
Proof.
  induction l as [|c l IH]; simpl; [done|].
  intros Hl. destruct (q c); [|done].
  apply andb_true_iff in Hl as [_ Hl].
  destruct (Str.span q l). by apply IH.
Qed.

Lemma forallb_take (p : ascii → bool) (n : nat) (l : text) :
  forallb p l = true → forallb p (take n l) = true.
Proof.
  revert n. induction l as [|c l IH]; intros [|n]; simpl; try done.
  intros Hl. apply andb_true_iff in Hl as [-> Hl]. by apply IH.
Qed.

Lemma forallb_drop (p : ascii → bool) (n : nat) (l : text) :
  forallb p l = true → forallb p (drop n l) = true.
Proof.
  revert n. induction l as [|c l IH]; intros [|n]; simpl; try done.
  intros Hl. apply andb_true_iff in Hl as [_ Hl]. by apply IH.
Qed.

Lemma forallb_replicate (p : ascii → bool) (n : nat) (c : ascii) :
  p c = true → forallb p (replicate n c) = true.
Proof. intros Hc. induction n; simpl; [done|]. by rewrite Hc. Qed.

Lemma digit_char_isdigit (z : Z) :
  (0 ≤ z < 10)%Z → Char.isdigit (F64.digit_char z) = true.
Proof.
  intros Hz.
  assert (z = 0 ∨ z = 1 ∨ z = 2 ∨ z = 3 ∨ z = 4 ∨ z = 5 ∨ z = 6 ∨ z = 7
          ∨ z = 8 ∨ z = 9)%Z as Hcases by lia.
  repeat (destruct Hcases as [->|Hcases]; [done|]). by subst.
Qed.

Lemma digits_fixed_digits (k : nat) (D : Z) : digits (F64.digits_fixed k D).
Proof.
  unfold digits. revert D. induction k as [|k IH]; intros D; simpl; [done|].
  rewrite forallb_app, IH. simpl. rewrite digit_char_isdigit; [done|].
  apply Z.mod_pos_bound. lia.
Qed.

Lemma digits_fixed_length (k : nat) (D : Z) :
  length (F64.digits_fixed k D) = k.
Proof.
  revert D. induction k as [|k IH]; intros D; simpl; [done|].
  rewrite length_app, IH. simpl. lia.
Qed.

Lemma uint_text_digits (u : Decimal.uint) : digits (F64.uint_text u).
Proof. unfold digits. induction u; simpl; done. Qed.

Lemma rstrip_zeros_digits (ds : text) :
  digits ds → digits (F64.rstrip_zeros ds).
Proof.
  unfold digits, F64.rstrip_zeros. intros Hds.
  rewrite forallb_reverse. apply forallb_span_snd.
  by rewrite forallb_reverse.
Qed.

Lemma format_g_token (P : nat) (v : float) :
  F64.is_finite v = true → 1 ≤ P →
  ∃ tp, token_wf tp ∧ F64.format_g P v = token_text tp.
Proof.
  intros Hv HP. destruct v as [s|s| |s m e]; try done.
  { exists (TokenParts s (txt "0") [] None). by repeat split. }
  unfold F64.format_g.
  destruct (if (0 <=? e)%Z then _ else _) as [n d].
  destruct (F64.sig_digits P n d) as [D X].
  pose proof (digits_fixed_digits P D) as Hds.
  pose proof (digits_fixed_length P D) as Hlen.
  set (ds := F64.digits_fixed P D) in *.
  destruct ((-4 <=? X)%Z && (X <? Z.of_nat P)%Z).
  - unfold F64.fixed_notation. destruct (0 <=? X)%Z.
    + exists (TokenParts s (take (S (Z.to_nat X)) ds)
                (F64.rstrip_zeros (drop (S (Z.to_nat X)) ds)) None).
      split; [|unfold token_text; simpl; by rewrite app_nil_r].
      repeat split; simpl.
      * destruct ds; [simpl in Hlen; lia|done].
      * by apply forallb_take.
      * by apply rstrip_zeros_digits, forallb_drop.
    + exists (TokenParts s (txt "0")
                (F64.rstrip_zeros
                   (replicate (Z.to_nat (- X - 1)) "0"%char ++ ds)) None).
      split; [|unfold token_text; simpl; by rewrite app_nil_r].
      repeat split; simpl; try done.
      apply rstrip_zeros_digits. unfold digits.
      rewrite forallb_app, forallb_replicate by done. done.
  - unfold F64.sci_notation.
    set (ex := F64.decimal (Z.to_N (Z.abs X))).
    exists (TokenParts s (take 1 ds) (F64.rstrip_zeros (drop 1 ds))
              (Some ((X <? 0)%Z,
                     if (length ex <? 2)%nat then "0"%char :: ex else ex))).
    split; [|done].
    assert (digits ex) as Hex by apply uint_text_digits.
    clearbody ex.
    repeat split; simpl.
    + destruct ds; [simpl in Hlen; lia|done].
    + by apply forallb_take.
    + by apply rstrip_zeros_digits, forallb_drop.
    + destruct ex as [|? [|? ?]]; done.
    + destruct (length ex <? 2)%nat; [|done]. unfold digits. simpl. exact Hex.
Qed.

(** ** Finding the tokens of a formatted array *)

Lemma format_7g_found (v : float) :
  delimited (F64.format_7g v)
  ∧ Re.num_findall (F64.format_7g v)
    = if F64.is_finite v then [F64.format_7g v] else [].
Proof.
  destruct (F64.is_finite v) eqn:Hv.
  - destruct (format_g_token 7 v Hv) as (tp & Hwf & Htp); [lia|].
    unfold F64.format_7g. rewrite Htp.
    assert (Re.num_findall (token_text tp) = [token_text tp]) as Hall.
    { unfold Re.num_findall.
      rewrite <- (app_nil_r (token_text tp)) at 1.
      by rewrite num_findall_token. }
    split; [|done]. intros rest Hrest.
    rewrite Hall. by apply num_findall_token.
  - destruct v as [s|s| |s m e]; try done.
    split; [|by destruct s]. intros rest _. by destruct s.
Qed.

Lemma delimited_join (sep' : text) (ps : list text) :
  (∀ r, Re.num_findall_from 0 (","%char :: sep' ++ r)
        = Re.num_findall_from 0 r) →
  Forall delimited ps →
  delimited (Str.join (","%char :: sep') ps)
  ∧ Re.num_findall (Str.join (","%char :: sep') ps)
    = concat (map Re.num_findall ps).
Proof.
  intros Hsep Hps. induction Hps as [|p ps Hp Hps IH].
  { split; [by intros rest _|done]. }
  destruct ps as [|q ps].
  { simpl. rewrite app_nil_r. done. }
  destruct IH as [IHd IHf].
  set (tail := Str.join (","%char :: sep') (q :: ps)) in *.
  assert (Str.join (","%char :: sep') (p :: q :: ps)
          = p ++ (","%char :: sep') ++ tail) as -> by done.
  assert (∀ rest, stop rest →
            Re.num_findall_from 0 ((p ++ (","%char :: sep') ++ tail) ++ rest)
            = Re.num_findall p ++ Re.num_findall tail
                ++ Re.num_findall_from 0 rest) as Hgen.
  { intros rest Hrest. rewrite <- !app_assoc. rewrite Hp by (by left).
    f_equal. cbn [app]. rewrite Hsep. by apply IHd. }
  split.
  - intros rest Hrest. rewrite Hgen by done.
    unfold Re.num_findall at 3. rewrite <- (app_nil_r (p ++ _ ++ tail)).
    rewrite Hgen by done. simpl. by rewrite app_nil_r, <- app_assoc.
  - unfold Re.num_findall at 1. rewrite <- (app_nil_r (p ++ _ ++ tail)).
    rewrite Hgen by done. rewrite IHf.
    cbn [map concat Re.num_findall_from]. by rewrite app_nil_r.
Qed.

Lemma chunks_concat {A} (fuel n : nat) (l : list A) :
  0 < n → length l ≤ fuel → concat (BPMDataSDDS.chunks fuel n l) = l.
Proof.
  intros Hn. revert l. induction fuel as [|fuel IH]; intros l Hl.
  { destruct l; [done|simpl in Hl; lia]. }
  destruct l as [|a l]; [done|].
  cbn [BPMDataSDDS.chunks concat]. rewrite IH.
  - apply take_drop.
  - rewrite length_drop. simpl in *. lia.
Qed.

Lemma chunks_Forall {A} (P : A → Prop) (fuel n : nat) (l : list A) :
  Forall P l → Forall (Forall P) (BPMDataSDDS.chunks fuel n l).
Proof.
  revert l. induction fuel as [|fuel IH]; intros l Hl; [by constructor|].
  destruct l as [|a l]; [by constructor|].
  cbn [BPMDataSDDS.chunks]. constructor.
  - by apply Forall_take.
  - apply IH. by apply Forall_drop.
Qed.

Lemma findall_comma (r : text) :
  Re.num_findall_from 0 (","%char :: r) = Re.num_findall_from 0 r.
Proof. done. Qed.

Lemma findall_comma_newline (r : text) :
  Re.num_findall_from 0 (","%char :: [Char.newline] ++ r)
  = Re.num_findall_from 0 r.
Proof. done. Qed.

(** The tokens of an array formatted by default: the values that are
    finite, formatted. *)
Lemma fmt_array_found (o : BPMDataSDDS.data_options) (vs : list float) :
  BPMDataSDDS.fmt o = F64.format_7g →
  BPMDataSDDS.sep o = txt "," →
  (0 < BPMDataSDDS.columns o)%Z →
  Re.num_findall (BPMDataSDDS.fmt_array o vs)
  = map F64.format_7g (filter (λ v, F64.is_finite v = true) vs).
Proof.
  intros Hfmt Hsep Hcol. unfold BPMDataSDDS.fmt_array.
  rewrite Hfmt, Hsep, (proj2 (Z.ltb_lt _ _) Hcol).
  set (vals := map F64.format_7g vs).
  set (groups := BPMDataSDDS.chunks (length vals)
                   (Z.to_nat (BPMDataSDDS.columns o)) vals).
  assert (Forall delimited vals) as Hvals.
  { apply Forall_fmap, Forall_true. intros v. apply format_7g_found. }
  assert (Forall (Forall delimited) groups) as Hgroups
    by by apply chunks_Forall.
  assert (concat groups = vals) as Hconcat.
  { apply chunks_concat; [lia|done]. }
  set (lines := map (Str.join (txt ",")) groups).
  assert (Forall delimited lines
          ∧ concat (map Re.num_findall lines) = concat (map Re.num_findall vals))
    as [Hlines Htoks].
  { rewrite <- Hconcat. unfold lines. clear Hconcat.
    induction Hgroups as [|g gs Hg Hgs IH]; [done|].
    destruct IH as [IH1 IH2].
    destruct (delimited_join [] g) as [Hd Hf]; [apply findall_comma|done|].
    split; [by constructor|].
    cbn [map concat]. rewrite map_app, concat_app, <- IH2. by f_equal. }
  assert (Re.num_findall (Str.join (","%char :: [Char.newline]) lines)
          = concat (map Re.num_findall vals)) as Hall.
  { rewrite <- Htoks.
    apply (delimited_join [Char.newline] lines);
      [apply findall_comma_newline|done]. }
  assert (concat (map Re.num_findall vals)
          = map F64.format_7g (filter (λ v, F64.is_finite v = true) vs))
    as Hfilter.
  { unfold vals. clear. induction vs as [|v vs IH]; [done|].
    cbn [map concat]. rewrite IH, (proj2 (format_7g_found v)).
    rewrite filter_cons. destruct (F64.is_finite v); by case_decide. }
  rewrite <- Hfilter, <- Hall. by destruct lines.
Qed.


(** ** Matching the entries written by [to_data] *)

Lemma skip_ws_black (s : text) : starts_black s → Re.skip_ws s = s.
Proof.
  unfold Re.skip_ws. destruct s as [|c s]; simpl; [done|]. by intros ->.
Qed.

Lemma expect_cons (c : ascii) (r : text) : Re.expect c (c :: r) = Some r.
Proof.
  unfold Re.expect, Char.eqb. by rewrite Ascii.eqb_refl.
Qed.

Lemma quoted_name_app (name rest : text) :
  name_ok name →
  Re.quoted_name (name ++ Char.dquote :: rest) = Some (name, rest).
Proof.
  intros (Hne & Hq & Hb). unfold Re.quoted_name.
  rewrite span_app_all; [|done|done].
  rewrite expect_cons. cbn [mbind option_bind].
  rewrite skip_ws_black by done. by destruct name.
Qed.

Lemma array_body_app (b rest : text) :
  body_ok b →
  Re.array_body (b ++ "}"%char :: rest) = Some (b, rest).
Proof.
  intros (Hb & Hs). unfold Re.array_body.
  rewrite skip_ws_black by (by destruct b).
  rewrite span_app_all; [|done|done].
  by rewrite expect_cons.
Qed.

Lemma entry_text_app (name sx sy sz rest : text) :
  entry_text name sx sy sz ++ rest
  = "("%char :: Char.dquote :: name
      ++ Char.dquote :: "-"%char :: ">"%char :: Char.newline
      :: "{"%char :: "{"%char :: sx
      ++ "}"%char :: ","%char :: Char.newline
      :: "{"%char :: sy
      ++ "}"%char :: ","%char :: Char.newline
      :: "{"%char :: sz
      ++ "}"%char :: "}"%char :: ")"%char :: rest.
Proof.
  unfold entry_text. cbn [app]. do 2 f_equal.
  rewrite <- app_assoc. f_equal. cbn [app]. do 6 f_equal.
  rewrite <- app_assoc. f_equal. cbn [app]. do 4 f_equal.
  rewrite <- app_assoc. f_equal. cbn [app]. do 4 f_equal.
  by rewrite <- app_assoc.
Qed.

Lemma skip_ws_newline (s : text) :
  Re.skip_ws (Char.newline :: s) = Re.skip_ws s.
Proof. unfold Re.skip_ws. simpl. by destruct (Str.span Char.isspace s). Qed.

Ltac entry_step :=
  first [ rewrite expect_cons
        | rewrite quoted_name_app by done
        | rewrite array_body_app by done
        | rewrite skip_ws_newline
        | rewrite skip_ws_black by done ];
  cbn [mbind option_bind].

Lemma entry_match_text (name sx sy sz rest : text) :
  name_ok name → body_ok sx → body_ok sy → body_ok sz →
  Re.entry_match (entry_text name sx sy sz ++ rest)
  = Some (name, sx, sy, sz, rest).
Proof.
  intros Hname Hsx Hsy Hsz. rewrite entry_text_app.
  unfold Re.entry_match. repeat entry_step. done.
Qed.

Lemma entry_finditer_skip (p rest : text) :
  Re.entry_finditer_from (length p) (p ++ rest)
  = Re.entry_finditer_from 0 rest.
Proof. induction p as [|c p IH]; simpl; [done|]. apply IH. Qed.

Lemma entry_text_cons (name sx sy sz : text) :
  ∃ r, entry_text name sx sy sz = "("%char :: r.
Proof. by eexists. Qed.

(** An entry is found, and the search goes on after it. *)
Lemma entry_finditer_text (name sx sy sz rest : text) :
  name_ok name → body_ok sx → body_ok sy → body_ok sz →
  Re.entry_finditer_from 0 (entry_text name sx sy sz ++ rest)
  = (name, sx, sy, sz) :: Re.entry_finditer_from 0 rest.
Proof.
  intros Hname Hsx Hsy Hsz.
  pose proof (entry_match_text name sx sy sz rest Hname Hsx Hsy Hsz) as Hm.
  destruct (entry_text_cons name sx sy sz) as [r Hr].
  rewrite Hr in *. cbn [app Re.entry_finditer_from]. cbn [app] in Hm.
  rewrite Hm. f_equal.
  rewrite length_app. replace (length r + length rest - length rest)
    with (length r) by lia.
  apply entry_finditer_skip.
Qed.


(** ** The characters written by the default format *)

Lemma body_char_facts (c : ascii) :
  body_char c = true → Re.notbrace c = true ∧ notbackslash c = true.
Proof. destruct c as [[] [] [] [] [] [] [] []]; by vm_compute. Qed.

Lemma format_char_black (c : ascii) :
  format_char c = true → Char.isspace c = false.
Proof. destruct c as [[] [] [] [] [] [] [] []]; by vm_compute. Qed.

Lemma digit_format_char (c : ascii) :
  Char.isdigit c = true → format_char c = true.
Proof. unfold format_char. by intros ->. Qed.

Lemma forallb_impl (p q : ascii → bool) (l : text) :
  (∀ c, p c = true → q c = true) → forallb p l = true → forallb q l = true.
Proof.
  intros Hpq. induction l as [|c l IH]; simpl; [done|].
  intros Hl. apply andb_true_iff in Hl as [Hc Hl].
  by rewrite (Hpq c Hc), IH.
Qed.

Lemma token_text_chars (tp : token_parts) :
  token_wf tp → forallb format_char (token_text tp) = true.
Proof.
  intros (_ & Hip & Hfp & Hex). destruct tp as [neg ip fp ex]; simpl in *.
  unfold token_text; simpl.
  assert (∀ ds, digits ds → forallb format_char ds = true) as Hd.
  { intros ds. apply forallb_impl, digit_format_char. }
  rewrite !forallb_app. apply andb_true_iff. split; [by destruct neg|].
  apply andb_true_iff. split.
  - unfold F64.with_fraction. destruct fp as [|f fp]; [by apply Hd|].
    rewrite forallb_app, (Hd ip Hip).
    pose proof (Hd _ Hfp) as Hf. simpl in Hf |- *. exact Hf.
  - destruct ex as [[eneg ed]|]; [|done]. simpl.
    rewrite (Hd ed) by apply Hex. by destruct eneg.
Qed.

Lemma format_7g_chars (v : float) :
  forallb format_char (F64.format_7g v) = true ∧ F64.format_7g v ≠ [].
Proof.
  destruct (F64.is_finite v) eqn:Hv.
  - destruct (format_g_token 7 v Hv) as (tp & Hwf & Htp); [lia|].
    unfold F64.format_7g. rewrite Htp. split.
    + by apply token_text_chars.
    + by apply token_text_nonempty.
  - destruct v as [s|s| |s m e]; try done. by destruct s.
Qed.

Lemma forallb_join (p : ascii → bool) (sep : text) (parts : list text) :
  forallb p sep = true → Forall (λ t, forallb p t = true) parts →
  forallb p (Str.join sep parts) = true.
Proof.
  intros Hsep Hparts. induction Hparts as [|t ts Ht Hts IH]; [done|].
  destruct ts as [|u ts]; [done|].
  change (Str.join sep (t :: u :: ts))
    with (t ++ sep ++ Str.join sep (u :: ts)).
  by rewrite !forallb_app, Ht, Hsep, IH.
Qed.

Lemma join_head (sep p : text) (ps : list text) :
  ∃ tail, Str.join sep (p :: ps) = p ++ tail.
Proof.
  destruct ps as [|q ps].
  - exists []. simpl. by rewrite app_nil_r.
  - by eexists.
Qed.

Section DefaultFormat.
Variable o : data_options.
Hypothesis Hfmt : fmt o = F64.format_7g.
Hypothesis Hsep : sep o = txt ",".
Hypothesis Hcol : (0 < columns o)%Z.

Lemma fmt_array_chars (vs : list float) :
  forallb body_char (fmt_array o vs) = true.
Proof.
  unfold fmt_array. rewrite Hfmt, Hsep, (proj2 (Z.ltb_lt _ _) Hcol).
  set (vals := map F64.format_7g vs).
  assert (Forall (λ t, forallb body_char t = true) vals) as Hvals.
  { apply Forall_fmap, Forall_true. intros v. simpl.
    apply (forallb_impl format_char); [|apply format_7g_chars].
    intros c Hc. unfold body_char. by rewrite Hc. }
  set (groups := chunks (length vals) (Z.to_nat (columns o)) vals).
  assert (Forall (Forall (λ t, forallb body_char t = true)) groups)
    as Hgroups by by apply chunks_Forall.
  assert (Forall (λ t, forallb body_char t = true)
            (map (Str.join (txt ",")) groups)) as Hlines.
  { apply Forall_fmap. eapply Forall_impl; [exact Hgroups|].
    intros g Hg. by apply forallb_join. }
  destruct (map (Str.join (txt ",")) groups) eqn:Hl; [done|].
  rewrite <- Hl in *. by apply forallb_join.
Qed.

Lemma fmt_array_head (vs : list float) :
  fmt_array o vs = []
  ∨ ∃ v tail, fmt_array o vs = F64.format_7g v ++ tail.
Proof.
  destruct vs as [|v vs]; [left; by apply fmt_array_nil|right].
  unfold fmt_array. rewrite Hfmt, Hsep, (proj2 (Z.ltb_lt _ _) Hcol).
  cbn [map length chunks].
  destruct (Z.to_nat (columns o)) as [|n] eqn:Hn; [lia|].
  cbn [take map].
  destruct (join_head (txt ",") (F64.format_7g v)
              (take n (map F64.format_7g vs))) as [t1 Ht1].
  destruct (join_head (","%char :: [Char.newline])
              (Str.join (txt ",")
                 (F64.format_7g v :: take n (map F64.format_7g vs)))
              (map (Str.join (txt ","))
                 (chunks (length (map F64.format_7g vs)) (S n)
                    (drop (S n) (F64.format_7g v :: map F64.format_7g vs)))))
    as [t2 Ht2].
  exists v, (t1 ++ t2). rewrite Ht2, Ht1. by rewrite <- app_assoc.
Qed.

Lemma fmt_array_body_ok (vs : list float) : body_ok (fmt_array o vs).
Proof.
  split.
  - apply (forallb_impl body_char); [|apply fmt_array_chars].
    intros c Hc. by apply body_char_facts.
  - destruct (fmt_array_head vs) as [->|(v & tail & ->)]; [done|].
    destruct (format_7g_chars v) as [Hchars Hne].
    destruct (F64.format_7g v) as [|c t]; [done|]. simpl in *.
    apply andb_true_iff in Hchars as [Hc _]. by apply format_char_black.
Qed.

Lemma fmt_array_quiet (vs : list float) :
  forallb notbackslash (fmt_array o vs) = true.
Proof.
  apply (forallb_impl body_char); [|apply fmt_array_chars].
  intros c Hc. by apply body_char_facts.
Qed.

End DefaultFormat.


(** ** No line continuation in the text written *)

Lemma continuation_match_calm (c : ascii) (r : text) :
  calm (c :: r) = true → Re.continuation_match (c :: r) = None.
Proof.
  simpl. destruct (Char.eqb c Char.backslash); [|done].
  destruct r as [|d r]; [done|]. simpl.
  intros Hd. apply andb_true_iff in Hd as [Hd _].
  apply negb_true_iff in Hd. by rewrite Hd.
Qed.

Lemma calm_sub (s : text) :
  calm s = true → Re.continuation_sub_from 0 s = s.
Proof.
  induction s as [|c r IH]; [done|]. intros Hs.
  cbn [Re.continuation_sub_from]. rewrite continuation_match_calm by done.
  f_equal. apply IH. simpl in Hs. by apply andb_true_iff in Hs as [_ ?].
Qed.

Lemma calm_cons (c : ascii) (r : text) :
  notbackslash c = true → calm (c :: r) = calm r.
Proof.
  unfold notbackslash. intros Hc. apply negb_true_iff in Hc.
  simpl. by rewrite Hc.
Qed.

Lemma calm_app_quiet (a b : text) :
  forallb notbackslash a = true → calm (a ++ b) = calm b.
Proof.
  induction a as [|c a IH]; [done|]. simpl forallb. intros Ha.
  apply andb_true_iff in Ha as [Hc Ha].
  cbn [app]. rewrite calm_cons by done. by apply IH.
Qed.

Lemma calm_app_word (w b : text) :
  forallb (λ c, negb (Char.isspace c)) w = true →
  starts_black b → b ≠ [] → calm b = true → calm (w ++ b) = true.
Proof.
  intros Hw Hb Hne Hcalm. induction w as [|c w IH]; [done|].
  simpl in Hw. apply andb_true_iff in Hw as [Hc Hw].
  cbn [app calm]. rewrite IH by done. rewrite andb_true_r.
  destruct (Char.eqb c Char.backslash); [|done].
  destruct w as [|d w]; simpl.
  - destruct b as [|d b]; [done|]. simpl in Hb. by rewrite Hb.
  - simpl in Hw. by apply andb_true_iff in Hw as [-> _].
Qed.

Lemma calm_entry (name sx sy sz rest : text) :
  word name →
  forallb notbackslash sx = true → forallb notbackslash sy = true →
  forallb notbackslash sz = true →
  calm rest = true →
  calm (entry_text name sx sy sz ++ rest) = true.
Proof.
  intros [_ Hname] Hsx Hsy Hsz Hrest. rewrite entry_text_app.
  rewrite !calm_cons by done.
  apply calm_app_word; [done|done|done|].
  rewrite !calm_cons by done. rewrite calm_app_quiet by done.
  rewrite !calm_cons by done. rewrite calm_app_quiet by done.
  rewrite !calm_cons by done. rewrite calm_app_quiet by done.
  by rewrite !calm_cons by done.
Qed.

(** ** The names read by the row-format reader *)

Lemma split_ws_words (m : nat) (cur : option text) (s : text) (i : nat)
    (x : text) :
  match cur with Some w => word (reverse w) | None => True end →
  Str.split_ws_aux m cur s !! i = Some x →
  i < m + match cur with Some _ => 1 | None => 0 end →
  word x.
Proof.
  revert m cur i. induction s as [|c r IH]; intros m cur i Hcur.
  - destruct cur as [w|]; simpl; [|done].
    destruct i; [|done]. by intros [= <-].
  - destruct cur as [w|]; cbn [Str.split_ws_aux].
    + destruct (Char.isspace c) eqn:Hc.
      * destruct i as [|i]; simpl; [by intros [= <-]|].
        intros Hx Hi. apply (IH m None i); [done|done|lia].
      * intros Hx Hi. apply (IH m (Some (c :: w)) i); [|done|done].
        destruct Hcur as [Hne Hall]. split.
        { rewrite reverse_cons. by destruct (reverse w). }
        rewrite forallb_reverse in *. simpl. by rewrite Hc.
    + destruct (Char.isspace c) eqn:Hc.
      * intros Hx Hi. by apply (IH m None i).
      * destruct m as [|k]; [intros _ Hi; lia|].
        intros Hx Hi. apply (IH k (Some [c]) i); [|done|lia].
        split; [done|]. simpl. by rewrite Hc.
Qed.

Lemma accumulate_words (content name : text) :
  is_Some (accumulate content !! name) → word name.
Proof.
  unfold accumulate.
  assert (∀ lines (acc : accumulator),
            (∀ n, is_Some (acc !! n) → word n) →
            ∀ n, is_Some (foldl read_line acc lines !! n) → word n) as Hfold.
  { induction lines as [|raw lines IH]; intros acc Hacc; [done|].
    simpl. apply IH.
    destruct (read_line_cases acc raw)
      as [->|(n_str & nm & payload & Hsplit & _ & Hins)]; [done|].
    assert (word nm) as Hnm.
    { apply (split_ws_words 2 None (Str.strip raw) 1); [done| |lia].
      unfold Str.split_ws in Hsplit. by rewrite Hsplit. }
    intros n. destruct Hins as [[_ ->]|[_ ->]];
      rewrite lookup_insert; case_decide; subst; auto. }
  apply Hfold. intros n. rewrite lookup_empty. by intros [? ?].
Qed.

Lemma from_file_words (content name : text) :
  is_Some (from_file content !! name) → word name.
Proof.
  unfold from_file. rewrite lookup_fmap, fmap_is_Some.
  apply accumulate_words.
Qed.

Lemma word_name_ok (name : text) :
  word name → Char.dquote ∉ name → name_ok name.
Proof.
  intros [Hne Hw] Hq. split; [done|]. split.
  - clear Hne Hw. induction name as [|c name IH]; [done|].
    simpl. rewrite IH by (intros ?; apply Hq; by right).
    rewrite andb_true_r. unfold Re.notquote, Char.eqb.
    apply negb_true_iff, Ascii.eqb_neq. intros ->. apply Hq. by left.
  - destruct name as [|c name]; [done|]. simpl in *.
    apply andb_true_iff in Hw as [Hc _]. by apply negb_true_iff.
Qed.


(** ** From the text written back to a Dataset *)

Lemma map_imap_snd {A B} (g : A → B) (f : nat → A → nat * A) (l : list A) :
  (∀ i a, (f i a).2 = a) →
  map (λ '(_, a), g a) (imap f l) = map g l.
Proof.
  revert f. induction l as [|a l IH]; intros f Hf; [done|].
  cbn [imap map]. rewrite IH by (intros i b; apply Hf).
  f_equal. specialize (Hf 0 a). by destruct (f 0 a); simpl in *; subst.
Qed.

Lemma map_imap_pair {A B} (g : A → B) (l : list A) :
  map (λ '(_, a), g a) (imap (λ idx a, (idx, a)) l) = map g l.
Proof. by apply map_imap_snd. Qed.

Section RoundTrip.
Variable o : data_options.
Hypothesis Hfmt : fmt o = F64.format_7g.
Hypothesis Hsep : sep o = txt ",".
Hypothesis Hcol : (0 < columns o)%Z.
Variable d : dataset.
Hypothesis Hnames : ∀ name, is_Some (d !! name) → word name ∧ Char.dquote ∉ name.

Lemma terminator_skip (n idx : nat) (rest : text) :
  Re.entry_finditer_from 0 (terminator n idx ++ rest)
  = Re.entry_finditer_from 0 rest.
Proof. unfold terminator. by destruct (_ <? _)%Z. Qed.

Lemma terminator_calm (n idx : nat) (rest : text) :
  calm (terminator n idx ++ rest) = calm rest.
Proof. unfold terminator. by destruct (_ <? _)%Z. Qed.

Lemma entries_cons (n idx : nat) (name : text) (items : list (nat * text)) :
  entries o d n ((idx, name) :: items)
  = entry_of o d name ++ terminator n idx ++ entries o d n items.
Proof. unfold entries. cbn [map concat]. by rewrite <- app_assoc. Qed.

Lemma entries_finditer (n : nat) (items : list (nat * text)) (rest : text) :
  (∀ idx name, (idx, name) ∈ items → is_Some (d !! name)) →
  Re.entry_finditer_from 0 (entries o d n items ++ rest)
  = map (λ '(_, name), groups_of o d name) items
      ++ Re.entry_finditer_from 0 rest.
Proof.
  induction items as [|[idx name] items IH]; intros Hin; [done|].
  destruct (Hin idx name) as [c Hc]; [by left|].
  destruct (Hnames name) as [Hw Hq]; [by eexists|].
  rewrite entries_cons, <- !app_assoc.
  unfold entry_of, groups_of. cbn [map]. rewrite Hc.
  destruct (entry_arrays o (c_x c) (c_y c)) as [[x1 y1] z1].
  rewrite entry_finditer_text;
    [|by apply word_name_ok|by apply fmt_array_body_ok..].
  cbn [app]. f_equal. rewrite terminator_skip. apply IH.
  intros i m Him. apply (Hin i m). by right.
Qed.

Lemma entries_calm (n : nat) (items : list (nat * text)) (rest : text) :
  (∀ idx name, (idx, name) ∈ items → is_Some (d !! name)) →
  calm rest = true →
  calm (entries o d n items ++ rest) = true.
Proof.
  intros Hin Hrest. induction items as [|[idx name] items IH]; [done|].
  destruct (Hin idx name) as [c Hc]; [by left|].
  destruct (Hnames name) as [Hw Hq]; [by eexists|].
  rewrite entries_cons, <- !app_assoc.
  unfold entry_of. rewrite Hc.
  destruct (entry_arrays o (c_x c) (c_y c)) as [[x1 y1] z1].
  apply calm_entry; [done|by apply fmt_array_quiet..|].
  rewrite terminator_calm. apply IH.
  intros i m Him. apply (Hin i m). by right.
Qed.

Lemma foldl_insert_groups (names : list text) (m : dataset) (k : text) :
  (∀ name, (groups_of o d name).1.1.1 = name) →
  foldl insert_groups m (map (groups_of o d) names) !! k
  = if decide (k ∈ names) then Some (components_of (groups_of o d k))
    else m !! k.
Proof.
  intros Hfst. revert m. induction names as [|name names IH]; intros m.
  { destruct (decide (k ∈ [])) as [Hk|Hk]; [by apply elem_of_nil in Hk|done]. }
  cbn [map foldl]. rewrite IH.
  destruct (decide (k ∈ names)) as [Hk|Hk].
  { rewrite decide_True by (by right). done. }
  specialize (Hfst name). unfold insert_groups, components_of.
  destruct (groups_of o d name) as [[[nm a1] a2] a3] eqn:Hg. simpl in Hfst.
  subst nm. destruct (decide (k = name)) as [->|Hne].
  - rewrite decide_True by (by left). rewrite lookup_insert_eq.
    by rewrite Hg.
  - rewrite decide_False; [by rewrite lookup_insert_ne|].
    intros Hin. apply elem_of_cons in Hin as [?|?]; done.
Qed.

Hypothesis Hheader : header_lines o = None.

(** What the paren reader reads from the text written. *)
Lemma from_file_whole (k : text) :
  BPMDataParen.from_file (whole o d) !! k
  = if decide (is_Some (d !! k)) then Some (components_of (groups_of o d k))
    else None.
Proof.
  set (names := list_bpms d).
  set (items := imap (λ idx name, (idx, name)) names).
  assert (∀ idx name, (idx, name) ∈ items → is_Some (d !! name)) as Hin.
  { intros idx name Hi. apply elem_of_lookup_imap in Hi
      as (i & m & [= -> ->] & Hm).
    apply elem_of_list_bpms, list_elem_of_lookup. by exists i. }
  assert (whole o d
          = "{"%char :: entries o d (length names) items ++ txt "}") as Hw.
  { unfold whole, opening, closing, has_header. rewrite Hheader.
    simpl. done. }
  unfold BPMDataParen.from_file, _join_line_continuations.
  rewrite Hw, calm_sub.
  2: { rewrite calm_cons by done. by apply entries_calm. }
  unfold Re.entry_finditer. cbn [Re.entry_finditer_from].
  assert (Re.entry_match ("{"%char :: entries o d (length names) items
                          ++ txt "}") = None) as -> by done.
  rewrite entries_finditer by done.
  assert (map (λ '(_, name), groups_of o d name) items = map (groups_of o d) names)
    as ->.
  { unfold items. apply map_imap_pair. }
  cbn [Re.entry_finditer_from app]. rewrite app_nil_r.
  change (foldl _ ∅ (map (groups_of o d) names))
    with (foldl insert_groups ∅ (map (groups_of o d) names)).
  rewrite foldl_insert_groups.
  - unfold names. destruct (decide (k ∈ list_bpms d)) as [Hk|Hk];
      rewrite elem_of_list_bpms in Hk.
    + by rewrite decide_True.
    + by rewrite decide_False.
  - intros name. unfold groups_of. destruct (d !! name) as [c|]; [|done].
    by destruct (entry_arrays o (c_x c) (c_y c)) as [[? ?] ?].
Qed.

End RoundTrip.


Lemma numbers_fmt_array (o : data_options) (vs : list float) :
  fmt o = F64.format_7g → sep o = txt "," → (0 < columns o)%Z →
  numbers (fmt_array o vs) = read_back vs.
Proof.
  intros Hfmt Hsep Hcol. unfold numbers, read_back.
  rewrite fmt_array_found by done. by rewrite map_map.
Qed.

(** C1, amended. For every Dataset D read by the row-format reader whose
    BPM names hold no double quote, the paren writer with the scale factor
    [s] and the fill constant [c] (the other options by default) returns,
    and the paren reader reads from its text a Dataset with the same set of
    BPM names; for each BPM, x and y are D's x and y times [s] without
    their first sample, and z is the constant [c * s] on the length of x
    less one, every value being what seven significant digits keep of it
    (a value that is not finite is lost). *)
Theorem roundtrip_row_paren (content : text) (s c : float) :
  let D := from_file content in
  (∀ name, is_Some (D !! name) → Char.dquote ∉ name) →
  ∃ out,
    to_data (with_scale_fill s c) D = Ok out
    ∧ dom (BPMDataParen.from_file out) = dom D
    ∧ ∀ name t,
        D !! name = Some t →
        BPMDataParen.from_file out !! name
        = Some (Components
                  (read_back (drop 1 (scaled (c_x t) s)))
                  (read_back (drop 1 (scaled (c_y t) s)))
                  (read_back
                     (drop 1 (replicate (length (c_x t)) (F64.mul c s))))).
Proof.
  intros D Hquote. set (o := with_scale_fill s c).
  exists (whole o D). split; [apply to_data_closed|].
  assert (∀ k, BPMDataParen.from_file (whole o D) !! k
               = if decide (is_Some (D !! k))
                 then Some (components_of (groups_of o D k)) else None)
    as Hlookup.
  { intros k. apply from_file_whole; try done.
    intros name Hname. split; [by eapply from_file_words|by apply Hquote]. }
  split.
  - apply set_eq. intros k. rewrite !elem_of_dom, Hlookup.
    destruct (decide (is_Some (D !! k))) as [Hk|Hk]; [done|].
    split; [by intros [? ?]|done].
  - intros name t Ht. rewrite Hlookup.
    rewrite decide_True by (by eexists).
    unfold groups_of. rewrite Ht.
    pose proof (entry_arrays_z o (c_x t) (c_y t)) as Hz.
    destruct (entry_arrays o (c_x t) (c_y t)) as [[x1 y1] z1] eqn:Harr.
    simpl in Hz. subst z1.
    unfold entry_arrays in Harr. injection Harr as <- <- _.
    unfold components_of. by rewrite !numbers_fmt_array.
Qed.

Lemma roundtrip_row_paren_witness :
  ∃ out,
    to_data (with_scale_fill Sample.one (z_fill defaults))
      (from_file Sample.two_lines) = Ok out
    ∧ dom (BPMDataParen.from_file out) = dom (from_file Sample.two_lines).
Proof.
  destruct (roundtrip_row_paren Sample.two_lines Sample.one (z_fill defaults))
    as (out & Hout & Hdom & _).
  - assert (from_file Sample.two_lines
            = {[ txt "BPM1" :=
                   Components [Sample.one; Sample.two; Sample.three]
                     [Sample.four; Sample.five; Sample.six]
                     [F64.zero; F64.zero; F64.zero] ]}) as ->
      by (vm_compute; reflexivity).
    intros name [t Ht]. apply lookup_singleton_Some in Ht as [<- _].
    intros Hq. repeat (apply elem_of_cons in Hq as [Hq|Hq]; [discriminate|]).
    by apply elem_of_nil in Hq.
  - exists out. split; [exact Hout|exact Hdom].
Defined.

(** C1 as stated fails in three ways. A BPM whose name is A, a double
    quote, B is written but not read back: the Dataset read again has no name at all. And for the line
    [0 A 1 1.23456789] written with scale 2 and fill 0.5, the x read back
    is 2.469136, not 1.23456789 * 2, and the z read back is 1, the fill
    times the scale, not the fill 0.5. *)
Lemma roundtrip_counterexample :
  dom (from_file Sample.quoted_line) = {[ Sample.quoted_name ]}
  ∧ to_data (with_scale_fill Sample.one (z_fill defaults))
      (from_file Sample.quoted_line) = Ok Sample.quoted_written
  ∧ dom (BPMDataParen.from_file Sample.quoted_written) = ∅
  ∧ from_file Sample.long_line
    = {[ txt "A" := Components
           [Sample.one; F64.float_of_token (txt "1.23456789")]
           [F64.zero; F64.zero] [F64.zero; F64.zero] ]}
  ∧ to_data (with_scale_fill Sample.two Sample.half) (from_file Sample.long_line)
    = Ok Sample.long_written
  ∧ BPMDataParen.from_file Sample.long_written
    = {[ txt "A" := Components [F64.float_of_token (txt "2.469136")]
           [F64.zero] [Sample.one] ]}
  ∧ SFeqb (F64.float_of_token (txt "2.469136"))
      (F64.mul (F64.float_of_token (txt "1.23456789")) Sample.two) = false
  ∧ SFeqb Sample.one Sample.half = false.
Proof. repeat split; vm_compute; reflexivity. Qed.


End RoundTripProofs.


(** ** The entry written for one BPM *)

Section EntryWritten.
Import BPMDataSDDS DataText.
Variable o : data_options.

Lemma chunks_nonempty {A} (fuel n : nat) (l : list A) :
  0 < n → Forall (λ g, g ≠ []) (chunks fuel n l).
Proof.
  intros Hn. revert l. induction fuel as [|fuel IH]; intros l; [constructor|].
  destruct l as [|a l]; [constructor|]. cbn [chunks].
  constructor; [|apply IH]. destruct n; [lia|done].
Qed.

(** An array is written as its formatted values, in their order, shared
    out among lines none of which is empty. *)
Lemma fmt_array_groups (a : list float) :
  ∃ groups,
    fmt_array o a
    = Str.join (","%char :: [Char.newline]) (map (Str.join (sep o)) groups)
    ∧ concat groups = map (fmt o) a
    ∧ Forall (λ g, g ≠ []) groups.
Proof.
  unfold fmt_array. destruct (Z.ltb_spec 0 (columns o)) as [Hcol|Hcol].
  - exists (chunks (length (map (fmt o) a)) (Z.to_nat (columns o))
              (map (fmt o) a)).
    split; [by destruct (map (Str.join (sep o)) _)|].
    split; [apply chunks_concat; [lia|done]|apply chunks_nonempty; lia].
  - destruct (map (fmt o) a) as [|v vs].
    + by exists [].
    + exists [v :: vs]. split; [done|]. split; [apply app_nil_r|].
      by repeat constructor.
Qed.

Lemma groups_empty {A} (groups : list (list A)) :
  Forall (λ g, g ≠ []) groups → concat groups = [] → groups = [].
Proof. intros Hg Hc. destruct Hg as [|g gs Hne _]; [done|]. by destruct g. Qed.

(** The entry of a BPM in the text written: its name, then the three
    blocks of lines. *)
Lemma whole_entry_blocks (d : dataset) (name : text) (c : components) :
  d !! name = Some c →
  let lines groups :=
    Str.join (","%char :: [Char.newline]) (map (Str.join (sep o)) groups) in
  ∃ pre post gx gy gz,
    whole o d
    = pre ++ "("%char :: Char.dquote :: name
        ++ Char.dquote :: "-"%char :: ">"%char :: Char.newline
        :: "{"%char :: "{"%char :: lines gx
        ++ "}"%char :: ","%char :: Char.newline
        :: "{"%char :: lines gy
        ++ "}"%char :: ","%char :: Char.newline
        :: "{"%char :: lines gz
        ++ "}"%char :: "}"%char :: ")"%char :: post
    ∧ concat gx = map (fmt o) (drop 1 (map (λ v, F64.mul v (scale o)) (c_x c)))
    ∧ concat gy = map (fmt o) (drop 1 (map (λ v, F64.mul v (scale o)) (c_y c)))
    ∧ concat gz
      = map (fmt o)
          (drop 1 (replicate (length (c_x c))
                     (if include_z o then F64.mul (z_fill o) (scale o)
                      else F64.zero)))
    ∧ Forall (λ g, g ≠ []) gx ∧ Forall (λ g, g ≠ []) gy
    ∧ Forall (λ g, g ≠ []) gz.
Proof.
  intros Hc lines.
  destruct (whole_has_entry o d name) as (pre & post & Hw); [by eexists|].
  unfold entry_of in Hw. rewrite Hc in Hw.
  pose proof (entry_arrays_z o (c_x c) (c_y c)) as Hz.
  destruct (entry_arrays o (c_x c) (c_y c)) as [[x1 y1] z1] eqn:Harr.
  simpl in Hz. subst z1.
  unfold entry_arrays in Harr. injection Harr as <- <- _.
  destruct (fmt_array_groups (drop 1 (scaled (c_x c) (scale o))))
    as (gx & Hx & Hgx & Hnx).
  destruct (fmt_array_groups (drop 1 (scaled (c_y c) (scale o))))
    as (gy & Hy & Hgy & Hny).
  destruct (fmt_array_groups
              (drop 1 (replicate (length (c_x c))
                         (if include_z o then F64.mul (z_fill o) (scale o)
                          else F64.zero))))
    as (gz & Hz & Hgz & Hnz).
  exists pre, post, gx, gy, gz.
  split; [|by repeat split].
  rewrite Hw, entry_text_app. by rewrite Hx, Hy, Hz.
Qed.

(** C3. For every Dataset and every BPM in it, the text that the paren
    writer writes holds the entry of the BPM, whose three blocks are the
    formatted values of the (scaled) x, of the (scaled) y and of the z that
    the writer makes on the length of x, each without its first element:
    a block holds one value less than the array has elements, and the
    block of an array of at most one element is empty. *)
Theorem to_data_drops_first_sample (d : dataset) (name : text)
    (c : components) :
  d !! name = Some c →
  let x := map (λ v, F64.mul v (scale o)) (c_x c) in
  let y := map (λ v, F64.mul v (scale o)) (c_y c) in
  let z := replicate (length (c_x c))
             (if include_z o then F64.mul (z_fill o) (scale o)
              else F64.zero) in
  let lines groups :=
    Str.join (","%char :: [Char.newline]) (map (Str.join (sep o)) groups) in
  ∃ pre post gx gy gz,
    to_data o d
    = Ok (pre ++ "("%char :: Char.dquote :: name
            ++ Char.dquote :: "-"%char :: ">"%char :: Char.newline
            :: "{"%char :: "{"%char :: lines gx
            ++ "}"%char :: ","%char :: Char.newline
            :: "{"%char :: lines gy
            ++ "}"%char :: ","%char :: Char.newline
            :: "{"%char :: lines gz
            ++ "}"%char :: "}"%char :: ")"%char :: post)
    ∧ concat gx = map (fmt o) (drop 1 x)
    ∧ concat gy = map (fmt o) (drop 1 y)
    ∧ concat gz = map (fmt o) (drop 1 z)
    ∧ length (concat gx) = length (c_x c) - 1
    ∧ length (concat gy) = length (c_y c) - 1
    ∧ length (concat gz) = length (c_x c) - 1
    ∧ (length (c_x c) ≤ 1 → lines gx = [] ∧ lines gz = [])
    ∧ (length (c_y c) ≤ 1 → lines gy = []).
Proof.
  intros Hc x y z lines.
  destruct (whole_entry_blocks d name c Hc)
    as (pre & post & gx & gy & gz & Hw & Hgx & Hgy & Hgz & Hnx & Hny & Hnz).
  fold x y z in Hgx, Hgy, Hgz.
  assert (length (concat gx) = length (c_x c) - 1) as Hlx.
  { rewrite Hgx. unfold x. by rewrite length_map, length_drop, length_map. }
  assert (length (concat gy) = length (c_y c) - 1) as Hly.
  { rewrite Hgy. unfold y. by rewrite length_map, length_drop, length_map. }
  assert (length (concat gz) = length (c_x c) - 1) as Hlz.
  { rewrite Hgz. unfold z.
    by rewrite length_map, length_drop, length_replicate. }
  assert (∀ g : list (list text),
            Forall (λ t, t ≠ []) g → length (concat g) = 0 → lines g = [])
    as Hnone.
  { intros g Hg Hl. rewrite (groups_empty g Hg); [done|].
    by apply length_zero_iff_nil. }
  exists pre, post, gx, gy, gz. rewrite to_data_closed, Hw.
  repeat split; try done.
  - apply Hnone; [done|lia].
  - apply Hnone; [done|lia].
  - intros Hlen. apply Hnone; [done|lia].
Qed.

(** C4. For every Dataset and every BPM, the z block of the entry that the
    paren writer writes is not read from the Dataset: it holds, once for
    each element of the BPM's x but the first, the formatted fill value
    times the scale factor when z is included, and the formatted zero when
    it is not; two Datasets with the same x and y arrays are written to
    the same text whatever their z. *)
Theorem to_data_z_override (d : dataset) (name : text) (c : components) :
  d !! name = Some c →
  let fill := if include_z o then F64.mul (z_fill o) (scale o)
              else F64.zero in
  let lines groups :=
    Str.join (","%char :: [Char.newline]) (map (Str.join (sep o)) groups) in
  (∃ pre post gx gy gz,
     to_data o d
     = Ok (pre ++ "("%char :: Char.dquote :: name
             ++ Char.dquote :: "-"%char :: ">"%char :: Char.newline
             :: "{"%char :: "{"%char :: lines gx
             ++ "}"%char :: ","%char :: Char.newline
             :: "{"%char :: lines gy
             ++ "}"%char :: ","%char :: Char.newline
             :: "{"%char :: lines gz
             ++ "}"%char :: "}"%char :: ")"%char :: post)
     ∧ concat gx
       = map (fmt o) (drop 1 (map (λ v, F64.mul v (scale o)) (c_x c)))
     ∧ concat gy
       = map (fmt o) (drop 1 (map (λ v, F64.mul v (scale o)) (c_y c)))
     ∧ concat gz = replicate (length (c_x c) - 1) (fmt o fill))
  ∧ ∀ d' : dataset,
      (∀ n, (λ c', (c_x c', c_y c')) <$> d' !! n
            = (λ c', (c_x c', c_y c')) <$> d !! n) →
      to_data o d' = to_data o d.
Proof.
  intros Hc fill lines. split.
  - destruct (whole_entry_blocks d name c Hc)
      as (pre & post & gx & gy & gz & Hw & Hgx & Hgy & Hgz & _).
    exists pre, post, gx, gy, gz. rewrite to_data_closed, Hw.
    repeat split; try done.
    rewrite Hgz. fold fill. clear.
    destruct (length (c_x c)) as [|n]; [done|].
    replace (S n - 1) with n by lia.
    change (drop 1 (replicate (S n) fill)) with (replicate n fill).
    induction n as [|n IH]; [done|]. cbn [replicate map]. by rewrite IH.
  - intros d' Hsame. rewrite !to_data_closed. f_equal.
    assert (list_bpms d' = list_bpms d) as Hnames.
    { apply list_bpms_ext. intros n. specialize (Hsame n).
      destruct (d' !! n), (d !! n); simpl in Hsame; try done;
        split; intros _; by eexists. }
    unfold whole. rewrite Hnames. do 2 f_equal. f_equal.
    unfold entries. f_equal. apply map_ext. intros [idx n]. f_equal.
    unfold entry_of. specialize (Hsame n).
    destruct (d' !! n) as [c1|], (d !! n) as [c2|]; simpl in Hsame;
      try done.
    injection Hsame as -> ->. done.
Qed.

End EntryWritten.

Lemma to_data_drops_first_sample_witness :
  let lines groups :=
    Str.join (","%char :: [Char.newline])
      (map (Str.join (BPMDataSDDS.sep BPMDataSDDS.defaults)) groups) in
  ∃ pre post gx gy gz,
    BPMDataSDDS.to_data BPMDataSDDS.defaults
      (BPMDataSDDS.from_file Sample.two_lines)
    = Ok (pre ++ "("%char :: Char.dquote :: txt "BPM1"
            ++ Char.dquote :: "-"%char :: ">"%char :: Char.newline
            :: "{"%char :: "{"%char :: lines gx
            ++ "}"%char :: ","%char :: Char.newline
            :: "{"%char :: lines gy
            ++ "}"%char :: ","%char :: Char.newline
            :: "{"%char :: lines gz
            ++ "}"%char :: "}"%char :: ")"%char :: post)
    ∧ concat gx = [txt "2"; txt "3"]
    ∧ concat gy = [txt "5"; txt "6"]
    ∧ length (concat gz) = 3 - 1.
Proof.
  intros lines.
  destruct (to_data_drops_first_sample BPMDataSDDS.defaults
              (BPMDataSDDS.from_file Sample.two_lines) (txt "BPM1")
              (Components [Sample.one; Sample.two; Sample.three]
                 [Sample.four; Sample.five; Sample.six]
                 [F64.zero; F64.zero; F64.zero]))
    as (pre & post & gx & gy & gz & Hw & Hx & Hy & _ & _ & _ & Hlz & _);
    [vm_compute; reflexivity|].
  exists pre, post, gx, gy, gz.
  split; [exact Hw|]. split; [exact Hx|]. split; [exact Hy|exact Hlz].
Defined.

Lemma to_data_z_override_witness :
  let lines groups :=
    Str.join (","%char :: [Char.newline])
      (map (Str.join (BPMDataSDDS.sep BPMDataSDDS.defaults)) groups) in
  ∃ pre post gx gy gz,
    BPMDataSDDS.to_data BPMDataSDDS.defaults
      (BPMDataSDDS.from_file Sample.two_lines)
    = Ok (pre ++ "("%char :: Char.dquote :: txt "BPM1"
            ++ Char.dquote :: "-"%char :: ">"%char :: Char.newline
            :: "{"%char :: "{"%char :: lines gx
            ++ "}"%char :: ","%char :: Char.newline
            :: "{"%char :: lines gy
            ++ "}"%char :: ","%char :: Char.newline
            :: "{"%char :: lines gz
            ++ "}"%char :: "}"%char :: ")"%char :: post)
    ∧ concat gz = [txt "0.001058071"; txt "0.001058071"].
Proof.
  intros lines.
  destruct (to_data_z_override BPMDataSDDS.defaults
              (BPMDataSDDS.from_file Sample.two_lines) (txt "BPM1")
              (Components [Sample.one; Sample.two; Sample.three]
                 [Sample.four; Sample.five; Sample.six]
                 [F64.zero; F64.zero; F64.zero]))
    as [(pre & post & gx & gy & gz & Hw & _ & _ & Hz) _];
    [vm_compute; reflexivity|].
  exists pre, post, gx, gy, gz. split; [exact Hw|exact Hz].
Defined.


(** * Further properties *)

(** ** The names listed *)

(** X1. [list_bpms] returns the BPM names of the Dataset, each once, in
    strictly ascending code-point order. *)
Theorem list_bpms_sorted_keys (d : dataset) :
  (∀ name, name ∈ list_bpms d ↔ is_Some (d !! name))
  ∧ NoDup (list_bpms d)
  ∧ length (list_bpms d) = size d
  ∧ StronglySorted (λ a b, text_le a b ∧ a ≠ b) (list_bpms d).
Proof.
  split; [apply elem_of_list_bpms|]. split; [apply NoDup_list_bpms|]. split.
  - unfold list_bpms. rewrite sorted_perm, length_fmap.
    apply length_map_to_list.
  - pose proof (NoDup_list_bpms d) as Hnd.
    pose proof (sorted_sorted ((map_to_list d).*1)) as Hs.
    fold (list_bpms d) in Hs.
    induction Hs as [|a l Hl IH Ha]; [constructor|].
    apply NoDup_cons in Hnd as [Hna Hnd].
    constructor; [by apply IH|].
    apply Forall_forall. intros b Hb. split.
    + by eapply Forall_forall in Ha.
    + by intros ->.
Qed.

(** ** The component selector *)

Lemma lower_lower (c : ascii) : Char.lower (Char.lower c) = Char.lower c.
Proof. destruct c as [[] [] [] [] [] [] [] []]; by vm_compute. Qed.

Lemma isspace_lower (c : ascii) :
  Char.isspace (Char.lower c) = Char.isspace c.
Proof. destruct c as [[] [] [] [] [] [] [] []]; by vm_compute. Qed.

Lemma span_map (p : ascii → bool) (f : ascii → ascii) (s : text) :
  (∀ c, p (f c) = p c) →
  Str.span p (map f s) = (map f (Str.span p s).1, map f (Str.span p s).2).
Proof.
  intros Hp. induction s as [|c s IH]; simpl; [done|].
  rewrite Hp. destruct (p c); [|done].
  rewrite IH. by destruct (Str.span p s).
Qed.

Lemma lstrip_lower (s : text) :
  Str.lstrip (Str.lower s) = Str.lower (Str.lstrip s).
Proof.
  unfold Str.lstrip, Str.lower. by rewrite (span_map _ _ _ isspace_lower).
Qed.

Lemma lower_reverse (s : text) : Str.lower (reverse s) = reverse (Str.lower s).
Proof. unfold Str.lower. apply (fmap_reverse Char.lower s). Qed.

Lemma strip_lower (s : text) :
  Str.strip (Str.lower s) = Str.lower (Str.strip s).
Proof.
  unfold Str.strip, Str.rstrip.
  by rewrite lstrip_lower, <- lower_reverse, lstrip_lower, lower_reverse.
Qed.

Lemma lstrip_black (s : text) : starts_black s → Str.lstrip s = s.
Proof. unfold Str.lstrip. destruct s as [|c s]; simpl; [done|]. by intros ->. Qed.

Lemma lstrip_starts_black (s : text) : starts_black (Str.lstrip s).
Proof.
  unfold Str.lstrip. induction s as [|c s IH]; simpl; [done|].
  destruct (Char.isspace c) eqn:Hc; [|done].
  by destruct (Str.span Char.isspace s).
Qed.

Lemma span_snd_app_black (s : text) (c : ascii) :
  Char.isspace c = false →
  ∃ t, (Str.span Char.isspace (s ++ [c])).2 = t ++ [c].
Proof.
  intros Hc. induction s as [|a s IH]; simpl.
  - rewrite Hc. by exists [].
  - destruct (Char.isspace a); [|by exists (a :: s)].
    destruct IH as [t Ht]. exists t.
    by destruct (Str.span Char.isspace (s ++ [c])).
Qed.

(** [rstrip] keeps a first character that is not white space. *)
Lemma rstrip_cons_black (c : ascii) (s : text) :
  Char.isspace c = false → ∃ t, Str.rstrip (c :: s) = c :: t.
Proof.
  intros Hc. unfold Str.rstrip, Str.lstrip. rewrite reverse_cons.
  destruct (span_snd_app_black (reverse s) c Hc) as [t ->].
  exists (reverse t). by rewrite reverse_app.
Qed.

Lemma rstrip_starts_black (s : text) :
  starts_black s → starts_black (Str.rstrip s).
Proof.
  destruct s as [|c s]; [done|]. simpl. intros Hc.
  destruct (rstrip_cons_black c s Hc) as [t ->]. done.
Qed.

Lemma rstrip_rstrip (s : text) : Str.rstrip (Str.rstrip s) = Str.rstrip s.
Proof.
  unfold Str.rstrip. rewrite reverse_involutive.
  by rewrite (lstrip_black (Str.lstrip _)) by apply lstrip_starts_black.
Qed.

Lemma strip_strip (s : text) : Str.strip (Str.strip s) = Str.strip s.
Proof.
  unfold Str.strip.
  rewrite (lstrip_black (Str.rstrip _)).
  - apply rstrip_rstrip.
  - apply rstrip_starts_black, lstrip_starts_black.
Qed.

Lemma check_component_normal (sel : text) :
  check_component (Str.strip (Str.lower sel)) = check_component sel.
Proof.
  unfold check_component.
  assert (Str.strip (Str.lower (Str.strip (Str.lower sel)))
          = Str.strip (Str.lower sel)) as ->; [|done].
  rewrite (strip_lower (Str.strip _)), strip_strip, <- strip_lower.
  f_equal. unfold Str.lower. rewrite map_map. apply map_ext, lower_lower.
Qed.

(** X2. In both classes [get] reads its selector without regard to case or
    to the white space around it: a selector and its lowered, stripped form
    give the same result, be it an array or an exception. *)
Theorem get_selector_normalised (d : dataset) (bpm sel : text) :
  BPMDataSDDS.get d bpm (Str.strip (Str.lower sel)) = BPMDataSDDS.get d bpm sel
  ∧ BPMDataParen.get d bpm (Str.strip (Str.lower sel))
    = BPMDataParen.get d bpm sel.
Proof.
  unfold BPMDataSDDS.get, BPMDataParen.get.
  by rewrite check_component_normal.
Qed.

(** X3. In both classes a selector that is none of x, y, z once lowered and
    stripped makes [get] raise [ValueError], whether the BPM is loaded or
    not: the selector is checked before the name. *)
Theorem get_bad_selector (d : dataset) (bpm sel : text) :
  Str.strip (Str.lower sel) ∉ selectors →
  BPMDataSDDS.get d bpm sel
  = Raise (ValueError (txt "component must be 'x', 'y', or 'z'"))
  ∧ BPMDataParen.get d bpm sel
    = Raise (ValueError (txt "component must be 'x', 'y', or 'z'")).
Proof.
  intros Hsel. unfold BPMDataSDDS.get, BPMDataParen.get, check_component.
  unfold Str.among. by rewrite bool_decide_eq_false_2.
Qed.

Lemma get_bad_selector_witness :
  BPMDataSDDS.get Sample.two_bpms (txt "A") (txt "w")
  = Raise (ValueError (txt "component must be 'x', 'y', or 'z'"))
  ∧ BPMDataParen.get Sample.two_bpms (txt "A") (txt "w")
    = Raise (ValueError (txt "component must be 'x', 'y', or 'z'")).
Proof.
  apply (get_bad_selector Sample.two_bpms (txt "A") (txt "w")).
  unfold selectors. intros Hin.
  repeat (apply elem_of_cons in Hin as [Hin|Hin]; [discriminate|]).
  by apply elem_of_nil in Hin.
Defined.


(** ** The paren-format reader *)

Lemma span_fst_forallb (p : ascii → bool) (s : text) :
  forallb p (Str.span p s).1 = true.
Proof.
  induction s as [|c s IH]; simpl; [done|].
  destruct (p c) eqn:Hc; [|done].
  destruct (Str.span p s). simpl in *. by rewrite Hc.
Qed.

Lemma skip_ws_forallb (p : ascii → bool) (s : text) :
  forallb p s = true → forallb p (Re.skip_ws s) = true.
Proof. apply forallb_span_snd. Qed.

Lemma forallb_last (p : ascii → bool) (s : text) (c : ascii) :
  forallb p s = true → last s = Some c → p c = true.
Proof.
  intros Hs Hc. apply last_Some in Hc as [t ->].
  rewrite forallb_app in Hs. simpl in Hs.
  apply andb_true_iff in Hs as [_ Hs]. by apply andb_true_iff in Hs as [? _].
Qed.

Lemma quoted_name_inv (s name rest : text) :
  Re.quoted_name s = Some (name, rest) →
  name ≠ [] ∧ forallb Re.notquote name = true.
Proof.
  unfold Re.quoted_name.
  pose proof (span_fst_forallb Re.notquote s) as Hrun.
  destruct (Str.span Re.notquote s) as [run r]. simpl in Hrun.
  destruct (Re.expect Char.dquote r) as [r'|]; simpl; [|done].
  pose proof (skip_ws_forallb Re.notquote run Hrun) as Hskip.
  destruct (Re.skip_ws run) as [|c t] eqn:Hrun'.
  - destruct (last run) as [c|] eqn:Hlast; simpl; [|done].
    intros [= <- <-]. split; [done|]. simpl.
    by rewrite (forallb_last _ _ _ Hrun Hlast).
  - intros [= <- <-]. done.
Qed.

Lemma entry_match_inv (s name a1 a2 a3 rest : text) :
  Re.entry_match s = Some (name, a1, a2, a3, rest) →
  name ≠ [] ∧ forallb Re.notquote name = true.
Proof.
  unfold Re.entry_match. intros Hm.
  destruct (Re.expect "(" s) as [s1|]; simpl in Hm; [|done].
  destruct (Re.expect Char.dquote s1) as [s2|]; simpl in Hm; [|done].
  destruct (Re.quoted_name s2) as [[nm s3]|] eqn:Hq; simpl in Hm; [|done].
  apply quoted_name_inv in Hq.
  repeat match type of Hm with
         | context [Re.expect ?c ?t] =>
             destruct (Re.expect c t); simpl in Hm; [|done]
         | context [Re.array_body ?t] =>
             destruct (Re.array_body t) as [[? ?]|]; simpl in Hm; [|done]
         end.
  by injection Hm as <- _ _ _ _.
Qed.

Lemma entry_finditer_inv (k : nat) (s : text) (g : text * text * text * text) :
  g ∈ Re.entry_finditer_from k s →
  ∃ s' rest, Re.entry_match s' = Some (g, rest).
Proof.
  revert k. induction s as [|c r IH]; intros k;
    cbn [Re.entry_finditer_from].
  { by intros ?%elem_of_nil. }
  destruct k as [|k]; [|apply IH].
  destruct (Re.entry_match (c :: r)) as [[[[[nm a1] a2] a3] rest]|] eqn:Hm;
    [|apply IH].
  intros [->|Hin]%elem_of_cons; [by eauto|by eapply IH].
Qed.

Lemma foldl_insert_groups_last (l : list (text * text * text * text))
    (m : dataset) (name : text) :
  foldl insert_groups m l !! name
  = match last (filter (λ g, g.1.1.1 = name) l) with
    | Some g => Some (components_of g)
    | None => m !! name
    end.
Proof.
  induction l as [|g l IH] using rev_ind; [done|].
  rewrite foldl_app, filter_app. cbn [foldl].
  destruct g as [[[nm a1] a2] a3]. unfold insert_groups at 1.
  rewrite filter_cons, filter_nil. simpl.
  destruct (decide (nm = name)) as [->|Hne].
  - rewrite last_snoc, lookup_insert_eq. done.
  - rewrite app_nil_r, lookup_insert_ne by done. apply IH.
Qed.

Lemma from_file_fold (content : text) :
  BPMDataParen.from_file content
  = foldl insert_groups ∅
      (Re.entry_finditer (_join_line_continuations content)).
Proof. done. Qed.

(** X4. Every BPM name of a Dataset read by the paren reader is not empty
    and holds no double quote. *)
Theorem paren_names_quote_free (content name : text) :
  is_Some (BPMDataParen.from_file content !! name) →
  name ≠ [] ∧ Char.dquote ∉ name.
Proof.
  rewrite from_file_fold, foldl_insert_groups_last, lookup_empty.
  destruct (last _) as [g|] eqn:Hlast; [|by intros [? ?]].
  intros _. apply last_Some_elem_of in Hlast.
  apply list_elem_of_filter in Hlast as [Hname Hin].
  apply entry_finditer_inv in Hin as (s' & rest & Hm).
  destruct g as [[[nm a1] a2] a3]. simpl in Hname. subst nm.
  apply entry_match_inv in Hm as [Hne Hq]. split; [done|].
  intros Hin. clear Hne. induction name as [|c name IH]; [by apply elem_of_nil in Hin|].
  simpl in Hq. apply andb_true_iff in Hq as [Hc Hq].
  apply elem_of_cons in Hin as [<-|Hin]; [done|by apply IH].
Qed.

Lemma paren_names_quote_free_witness :
  txt "A" ≠ [] ∧ Char.dquote ∉ txt "A".
Proof.
  apply (paren_names_quote_free
           (Sample.before_split ++ Sample.after_split) (txt "A")).
  vm_compute. eexists. reflexivity.
Defined.

(** X5. When the file holds several entries of one name, the paren reader
    keeps the last: the triple of a BPM is made of the numbers of the last
    entry matched under its name, and a name that no entry bears is not in
    the Dataset. *)
Theorem paren_last_entry_wins (content name : text) :
  BPMDataParen.from_file content !! name
  = components_of
      <$> last (filter (λ g, g.1.1.1 = name)
                  (Re.entry_finditer (_join_line_continuations content))).
Proof.
  rewrite from_file_fold, foldl_insert_groups_last, lookup_empty.
  by destruct (last _).
Qed.

Lemma continuation_sub_elem (k : nat) (s : text) (c : ascii) :
  c ∈ Re.continuation_sub_from k s → c ∈ s.
Proof.
  revert k. induction s as [|a r IH]; intros k;
    cbn [Re.continuation_sub_from]; [done|].
  destruct k as [|k].
  - destruct (Re.continuation_match (a :: r)) as [n|].
    + intros Hc. right. by eapply IH.
    + intros [->|Hc]%elem_of_cons; [by left|right; by eapply IH].
  - intros Hc. right. by eapply IH.
Qed.

Lemma entry_finditer_no_paren (k : nat) (s : text) :
  ("("%char : ascii) ∉ s → Re.entry_finditer_from k s = [].
Proof.
  revert k. induction s as [|c r IH]; intros k Hs;
    cbn [Re.entry_finditer_from]; [done|].
  assert (("("%char : ascii) ∉ r) as Hr by (intros ?; apply Hs; by right).
  destruct k as [|k]; [|by apply IH].
  assert (Re.entry_match (c :: r) = None) as ->; [|by apply IH].
  unfold Re.entry_match. cbn [Re.expect].
  destruct (Char.eqb "(" c) eqn:Hc; [|reflexivity].
  apply Ascii.eqb_eq in Hc. subst c. exfalso. apply Hs. by left.
Qed.

(** X6. A text without an opening parenthesis holds no entry: the paren
    reader returns the empty Dataset (so it does for the empty text), and
    raises nothing. *)
Theorem paren_no_entry (content : text) :
  ("("%char : ascii) ∉ content → BPMDataParen.from_file content = ∅.
Proof.
  intros Hc. rewrite from_file_fold. unfold Re.entry_finditer.
  rewrite entry_finditer_no_paren; [done|].
  intros Hin. apply Hc. by eapply continuation_sub_elem.
Qed.

Lemma paren_no_entry_witness : BPMDataParen.from_file (txt "{}") = ∅.
Proof.
  apply (paren_no_entry (txt "{}")). intros Hin.
  repeat (apply elem_of_cons in Hin as [Hin|Hin]; [discriminate|]).
  by apply elem_of_nil in Hin.
Defined.


Section RowReaderLines.
Import BPMDataSDDS.

(** ** The row-format reader, line by line *)

Lemma read_line_pair (name : text) (acc : accumulator) (raw : text) :
  pair_of name (read_line acc raw)
  = ((pair_of name acc).1 ++ line_numbers (txt "0") name raw,
     (pair_of name acc).2 ++ line_numbers (txt "1") name raw).
Proof.
  assert (pair_of name acc
          = ((pair_of name acc).1 ++ [], (pair_of name acc).2 ++ [])) as Hnil.
  { rewrite !app_nil_r. by destruct (pair_of name acc). }
  unfold read_line, line_numbers.
  destruct (bool_decide (Str.strip raw = []) || _); [exact Hnil|].
  destruct (Str.split_ws 2 (Str.strip raw))
    as [|n_str [|nm [|payload [|? ?]]]]; try exact Hnil.
  unfold Str.among. case_bool_decide as Hn; simpl.
  2: { rewrite !bool_decide_eq_false_2; [exact Hnil| |];
       intros [-> _]; apply Hn; set_solver. }
  destruct (numbers payload) as [|v nums] eqn:Hnums.
  { repeat case_bool_decide; exact Hnil. }
  unfold pair_of at 1. rewrite lookup_insert.
  destruct (decide (nm = name)) as [->|Hne].
  - fold (pair_of name acc). simpl.
    case_bool_decide as H0.
    + subst n_str. rewrite bool_decide_eq_true_2 by done.
      rewrite bool_decide_eq_false_2 by (by intros [? _]).
      simpl. by rewrite app_nil_r.
    + assert (n_str = txt "1") as ->.
      { apply elem_of_cons in Hn as [?|Hn]; [done|].
        apply elem_of_cons in Hn as [?|Hn]; [done|].
        by apply elem_of_nil in Hn. }
      rewrite bool_decide_eq_false_2 by (by intros [? _]).
      rewrite bool_decide_eq_true_2 by done.
      simpl. by rewrite app_nil_r.
  - rewrite !bool_decide_eq_false_2 by (by intros [_ ?]).
    exact Hnil.
Qed.

Lemma foldl_read_line_pair (name : text) (lines : list text)
    (acc : accumulator) :
  pair_of name (foldl read_line acc lines)
  = ((pair_of name acc).1
       ++ concat (map (line_numbers (txt "0") name) lines),
     (pair_of name acc).2
       ++ concat (map (line_numbers (txt "1") name) lines)).
Proof.
  revert acc. induction lines as [|raw lines IH]; intros acc.
  { simpl. rewrite !app_nil_r. by destruct (pair_of name acc). }
  cbn [foldl map concat]. rewrite IH, read_line_pair. simpl.
  by rewrite <- !app_assoc.
Qed.

Lemma accumulate_lines (content name : text) :
  pair_of name (accumulate content)
  = (concat (map (line_numbers (txt "0") name) (Str.splitlines content)),
     concat (map (line_numbers (txt "1") name) (Str.splitlines content))).
Proof.
  pose proof (foldl_read_line_pair name (Str.splitlines content) ∅) as Hpair.
  unfold pair_of in Hpair |- *. rewrite lookup_empty in Hpair. exact Hpair.
Qed.

Lemma from_file_pair (content name : text) (xs ys : list float) :
  pair_of name (accumulate content) = (xs, ys) →
  from_file content !! name
  = if decide (xs = [] ∧ ys = []) then None else Some (build (xs, ys)).
Proof.
  unfold pair_of, from_file. rewrite lookup_fmap.
  destruct (accumulate content !! name) as [[xs' ys']|] eqn:Hacc; simpl.
  - intros [= -> ->].
    destruct (accumulate_filled content name xs ys Hacc) as [Hx|Hy];
      rewrite decide_False by (by intros [? ?]); done.
  - intros [= <- <-]. by rewrite decide_True.
Qed.

(** X7. The row reader appends, in the order of the file, the numbers of
    every line: the x of a BPM is the concatenation of the numbers of its
    plane-0 lines and its y that of its plane-1 lines, before an empty one
    is mirrored; a BPM none of whose lines brings a number is not in the
    Dataset. *)
Theorem row_arrays_concatenated (content name : text) :
  let lines := Str.splitlines content in
  let xs := concat (map (line_numbers (txt "0") name) lines) in
  let ys := concat (map (line_numbers (txt "1") name) lines) in
  from_file content !! name
  = if decide (xs = [] ∧ ys = []) then None else Some (build (xs, ys)).
Proof. intros lines xs ys. apply from_file_pair, accumulate_lines. Qed.

(** X8. Every BPM name of a Dataset read by the row reader is a word: it
    is not empty and holds no white space. *)
Theorem row_names_are_words (content name : text) :
  is_Some (from_file content !! name) →
  name ≠ [] ∧ ∀ c, c ∈ name → Char.isspace c = false.
Proof.
  intros Hname. apply from_file_words in Hname as [Hne Hall].
  split; [done|]. intros c Hc.
  rewrite forallb_forall in Hall. apply list_elem_of_In, Hall in Hc.
  by apply negb_true_iff.
Qed.

Lemma row_names_are_words_witness :
  txt "A" ≠ [] ∧ ∀ c, c ∈ txt "A" → Char.isspace c = false.
Proof.
  apply (row_names_are_words Sample.plane0_only (txt "A")).
  vm_compute. eexists. reflexivity.
Defined.

End RowReaderLines.


Section SddsWriter.
Import BPMDataParen SddsText.

(** ** [normalize] on any turn count *)

Lemma normalize_negative (a : list float) (N : Z) :
  (N < 0)%Z → normalize a N = take (length a - Z.to_nat (- N)) a.
Proof.
  intros HN. unfold normalize, slice_to.
  rewrite (proj2 (Z.ltb_lt N (Z.of_nat (length a)))) by lia.
  rewrite (proj2 (Z.leb_gt 0 N)) by lia. f_equal. lia.
Qed.

(** The zeros that [to_sdds] substitutes for an empty y are never used:
    when the number of turns is positive the normalised y is not empty. *)
Lemma no_zero_fill (a : list float) (N : Z) :
  (if (length (normalize a N) =? 0)%nat && (0 <? N)%Z
   then replicate (Z.to_nat N) F64.zero else normalize a N)
  = normalize a N.
Proof.
  destruct (Z.ltb_spec 0 N) as [HN|HN]; [|by rewrite andb_false_r].
  pose proof (normalize_length a N) as Hlen.
  destruct (Nat.eqb_spec (length (normalize a N)) 0) as [H0|H0]; [|done].
  lia.
Qed.

Lemma sdds_lines_closed (o : sdds_options) (d : dataset) (name : text) :
  is_Some (d !! name) →
  sdds_lines d (turn_count o d) (fmt o) name = Ok (lines_of o d name).
Proof.
  intros [c Hc]. unfold sdds_lines, lines_of.
  destruct (paren_get_found d name c Hc) as (-> & -> & _).
  cbn [mbind result_bind]. rewrite no_zero_fill, Hc.
  unfold data_line, body_line. by rewrite <- !app_assoc.
Qed.

(** X9. For every BPM of the Dataset and every number of turns that is
    not negative, the two lines that [to_sdds] writes are the plane-0 line
    of the x and the plane-1 line of the y, each normalised to exactly that
    number of values: the zeros foreseen for an empty y never replace
    anything. *)
Theorem sdds_lines_turns (d : dataset) (N : Z) (fm : float → text)
    (name : text) (c : components) :
  d !! name = Some c → (0 ≤ N)%Z →
  let x := normalize (c_x c) N in
  let y := normalize (c_y c) N in
  sdds_lines d N fm name
  = Ok (txt "0 " ++ name ++ txt " " ++ Str.join (txt " ") (map fm x)
          ++ [Char.newline]
          ++ txt "1 " ++ name ++ txt " " ++ Str.join (txt " ") (map fm y)
          ++ [Char.newline])
  ∧ Z.of_nat (length x) = N ∧ Z.of_nat (length y) = N.
Proof.
  intros Hc HN x y. split; [|split; by apply normalize_length].
  unfold sdds_lines.
  destruct (paren_get_found d name c Hc) as (-> & -> & _).
  cbn [mbind result_bind]. by rewrite no_zero_fill.
Qed.

Lemma sdds_lines_turns_witness :
  let c := Components [Sample.one; Sample.two] [Sample.two; Sample.one]
             [F64.zero; F64.zero] in
  let x := normalize (c_x c) 3 in
  let y := normalize (c_y c) 3 in
  sdds_lines Sample.two_bpms 3 F64.format_7g (txt "B")
  = Ok (txt "0 " ++ txt "B" ++ txt " "
          ++ Str.join (txt " ") (map F64.format_7g x) ++ [Char.newline]
          ++ txt "1 " ++ txt "B" ++ txt " "
          ++ Str.join (txt " ") (map F64.format_7g y) ++ [Char.newline])
  ∧ Z.of_nat (length x) = 3%Z ∧ Z.of_nat (length y) = 3%Z.
Proof.
  apply (sdds_lines_turns Sample.two_bpms 3 F64.format_7g (txt "B")
           (Components [Sample.one; Sample.two] [Sample.two; Sample.one]
              [F64.zero; F64.zero])); [|lia].
  vm_compute. reflexivity.
Defined.

(** X10. A negative number of turns is not refused: [normalize] then
    drops that many samples from the end of the array (all of them when
    the array is shorter), whatever the length asked for. *)
Theorem normalize_negative_turns (a : list float) (N : Z) :
  (N < 0)%Z →
  normalize a N = take (length a - Z.to_nat (- N)) a
  ∧ length (normalize a N) = length a - Z.to_nat (- N).
Proof.
  intros HN. rewrite normalize_negative by done. split; [done|].
  rewrite length_take. lia.
Qed.

Lemma normalize_negative_turns_witness :
  normalize [Sample.one; Sample.two; Sample.three] (-1)
  = take (3 - Z.to_nat (- -1)) [Sample.one; Sample.two; Sample.three]
  ∧ length (normalize [Sample.one; Sample.two; Sample.three] (-1))
    = 3 - Z.to_nat (- -1).
Proof.
  apply (normalize_negative_turns [Sample.one; Sample.two; Sample.three] (-1)).
  lia.
Defined.

(** ** The whole text *)

Lemma x_lengths_closed (d : dataset) (names : list text) :
  (∀ name, name ∈ names → is_Some (d !! name)) →
  x_lengths d names
  = Ok (map (λ name, match d !! name with
                     | Some c => length (c_x c)
                     | None => 0
                     end) names).
Proof.
  induction names as [|name names IH]; intros Hin; [done|].
  destruct (Hin name) as [c Hc]; [by left|].
  cbn [x_lengths map].
  destruct (paren_get_found d name c Hc) as (-> & _).
  cbn [mbind result_bind]. rewrite IH by (intros ? ?; apply Hin; by right).
  cbn [mbind result_bind]. by rewrite Hc.
Qed.

Lemma write_lines_closed (o : sdds_options) (d : dataset)
    (names : list text) (f : text) :
  (∀ name, name ∈ names → is_Some (d !! name)) →
  write_lines d (turn_count o d) (fmt o) names f
  = Ok (f ++ concat (map (lines_of o d) names)).
Proof.
  revert f. induction names as [|name names IH]; intros f Hin.
  { simpl. by rewrite app_nil_r. }
  cbn [write_lines map concat].
  rewrite sdds_lines_closed by (apply Hin; by left).
  cbn [mbind result_bind]. rewrite IH by (intros ? ?; apply Hin; by right).
  by rewrite <- app_assoc.
Qed.

(** [to_sdds] returns as soon as the two counts of the header are
    floats, and writes [whole]. *)
Lemma to_sdds_closed (o : sdds_options) (d : dataset) :
  F64.is_finite (F64.of_Z (turn_count o d)) = true →
  F64.is_finite (F64.of_Z (Z.of_nat (length (list_bpms d)))) = true →
  to_sdds o d = Ok (whole o d).
Proof.
  intros Hn Hm. unfold to_sdds.
  rewrite x_lengths_closed by (intros ?; apply elem_of_list_bpms).
  cbn [mbind result_bind]. fold (lens d). fold (turn_count o d).
  unfold float_of_int. rewrite Hn, Hm. cbn [mbind result_bind].
  rewrite write_lines_closed by (intros ?; apply elem_of_list_bpms).
  f_equal. unfold whole, preamble, header.
  destruct (ring_id o) as [|r rs]; destruct (header_lines o) as [[|l ls]|];
    cbn [map concat]; rewrite <- ?app_assoc, ?app_nil_r; reflexivity.
Qed.

End SddsWriter.


Section MostCommon.
Import BPMDataParen.

(** ** The most common length *)

Lemma occurrences_snoc (k j : nat) (l : list nat) :
  occurrences k (l ++ [j])
  = occurrences k l + (if decide (j = k) then 1 else 0).
Proof.
  unfold occurrences. rewrite filter_app, length_app. f_equal.
  rewrite filter_cons, filter_nil. by destruct (decide (j = k)).
Qed.

Lemma occurrences_pos (k : nat) (l : list nat) :
  k ∈ l → 0 < occurrences k l.
Proof.
  intros Hk. unfold occurrences.
  assert (k ∈ filter (λ j, j = k) l) as Hin by by apply list_elem_of_filter.
  destruct (filter _ l); [by apply elem_of_nil in Hin|simpl; lia].
Qed.

Lemma occurrences_none (k : nat) (l : list nat) :
  k ∉ l → occurrences k l = 0.
Proof.
  intros Hk. unfold occurrences.
  destruct (filter (λ j, j = k) l) as [|j t] eqn:Hf; [done|].
  assert (j ∈ filter (λ j, j = k) l) as Hin by (rewrite Hf; by left).
  apply list_elem_of_filter in Hin as [-> Hin]. done.
Qed.

Lemma first_seen_snoc (l : list nat) (k : nat) :
  first_seen (l ++ [k])
  = if decide (k ∈ first_seen l) then first_seen l else first_seen l ++ [k].
Proof. unfold first_seen. by rewrite foldl_snoc. Qed.

Lemma first_seen_elem (l : list nat) (k : nat) : k ∈ first_seen l ↔ k ∈ l.
Proof.
  induction l as [|j l IH] using rev_ind; [done|].
  rewrite first_seen_snoc, elem_of_app, list_elem_of_singleton.
  destruct (decide (j ∈ first_seen l)) as [Hj|Hj].
  - rewrite IH. split; [by left|]. intros [?| ->]; [done|]. by apply IH.
  - by rewrite elem_of_app, list_elem_of_singleton, IH.
Qed.

Lemma first_seen_NoDup (l : list nat) : NoDup (first_seen l).
Proof.
  induction l as [|j l IH] using rev_ind; [constructor|].
  rewrite first_seen_snoc. destruct (decide (j ∈ first_seen l)); [done|].
  apply NoDup_app. split; [done|]. split.
  - intros k Hk ->%list_elem_of_singleton. done.
  - apply NoDup_singleton.
Qed.

(** A value at a place of [first_seen] occurs first after values that
    stand before that place. *)
Lemma first_seen_order (l : list nat) (i k : nat) :
  first_seen l !! i = Some k →
  ∃ pre post, l = pre ++ k :: post ∧ (k ∉ pre)
              ∧ ∀ j, j ∈ pre → j ∈ take i (first_seen l).
Proof.
  revert i k. induction l as [|j l IH] using rev_ind; intros i k; [done|].
  rewrite first_seen_snoc. destruct (decide (j ∈ first_seen l)) as [Hj|Hj].
  - intros Hi. destruct (IH i k Hi) as (pre & post & -> & Hk & Hpre).
    exists pre, (post ++ [j]). by rewrite <- app_assoc.
  - intros Hi. apply lookup_app_Some in Hi as [Hi|[Hlen Hi]].
    + destruct (IH i k Hi) as (pre & post & -> & Hk & Hpre).
      exists pre, (post ++ [j]). rewrite <- app_assoc. split; [done|].
      split; [done|]. intros m Hm.
      rewrite take_app_le by (apply lookup_lt_Some in Hi; lia). by apply Hpre.
    + destruct (i - length (first_seen l)) as [|?] eqn:Hd; [|done].
      injection Hi as <-. exists l, []. split; [done|].
      split; [by rewrite <- first_seen_elem|].
      intros m Hm. rewrite take_app_ge by lia.
      apply elem_of_app. left. by apply first_seen_elem.
Qed.

Lemma counter_add_keys (k : nat) (f : nat → nat) (ks : list nat) :
  NoDup ks →
  counter_add k (map (λ j, (j, f j)) ks)
  = if decide (k ∈ ks)
    then map (λ j, (j, if decide (j = k) then S (f j) else f j)) ks
    else map (λ j, (j, f j)) ks ++ [(k, 1)].
Proof.
  induction 1 as [|j ks Hj Hks IH]; [done|].
  cbn [map counter_add]. destruct (Nat.eqb_spec k j) as [->|Hne].
  - rewrite decide_True by (by left). rewrite decide_True by done.
    f_equal. apply map_ext_in. intros m Hm%list_elem_of_In.
    rewrite decide_False; [done|]. by intros ->.
  - rewrite IH. rewrite (decide_False (P := j = k)) by done.
    destruct (decide (k ∈ ks)) as [Hin|Hin].
    + by rewrite decide_True by (by right).
    + rewrite decide_False; [done|]. by intros [?|?]%elem_of_cons.
Qed.

(** [Counter]: every value with its number of occurrences, in the order
    of first occurrence. *)
Lemma Counter_closed (l : list nat) :
  Counter l = map (λ k, (k, occurrences k l)) (first_seen l).
Proof.
  induction l as [|j l IH] using rev_ind; [done|].
  unfold Counter. rewrite foldl_snoc. fold (Counter l). rewrite IH.
  rewrite counter_add_keys by apply first_seen_NoDup.
  rewrite first_seen_snoc. destruct (decide (j ∈ first_seen l)) as [Hj|Hj].
  - apply map_ext. intros k. rewrite occurrences_snoc.
    destruct (decide (k = j)) as [->|Hne].
    + rewrite decide_True by done. f_equal. lia.
    + rewrite decide_False by done. f_equal. lia.
  - rewrite map_app. cbn [map]. f_equal.
    + apply map_ext_in. intros k Hk%list_elem_of_In. rewrite occurrences_snoc.
      rewrite decide_False; [f_equal; lia|]. by intros ->.
    + rewrite occurrences_snoc, decide_True by done.
      rewrite occurrences_none; [done|]. by rewrite <- first_seen_elem.
Qed.

(** [most_common1] returns the first item of the greatest count. *)
Lemma most_common1_first_max (c : list (nat * nat)) :
  match most_common1 c with
  | None => c = []
  | Some b =>
      ∃ i, c !! i = Some b
           ∧ ∀ i' b', c !! i' = Some b' →
                      b'.2 ≤ b.2 ∧ (i' < i → b'.2 < b.2)
  end.
Proof.
  induction c as [|x c IH] using rev_ind; [done|].
  unfold most_common1. rewrite foldl_snoc. fold (most_common1 c).
  destruct (most_common1 c) as [b|].
  - destruct IH as (i & Hi & Hmax).
    pose proof (lookup_lt_Some _ _ _ Hi) as Hlt.
    destruct (Nat.ltb_spec b.2 x.2) as [Hbx|Hbx].
    + exists (length c). split; [by rewrite list_lookup_middle|].
      intros i' b' Hb'. apply lookup_app_Some in Hb' as [Hb'|[Hge Hb']].
      * destruct (Hmax i' b' Hb'). lia.
      * destruct (i' - length c) as [|?] eqn:Hd; [|done].
        injection Hb' as <-. lia.
    + exists i. split; [by rewrite lookup_app_l|].
      intros i' b' Hb'. apply lookup_app_Some in Hb' as [Hb'|[Hge Hb']].
      * by apply Hmax.
      * destruct (i' - length c) as [|?] eqn:Hd; [|done].
        injection Hb' as <-. lia.
  - subst c. exists 0. split; [done|].
    intros [|i'] b'; [|done]. intros [= <-]. lia.
Qed.

(** X11. When no number of turns is given, [to_sdds] takes the most
    common x length: a length that occurs at least as often as every
    other one and, among the most common ones, the one met first in the
    order of the (sorted) names. *)
Theorem default_turns_mode (lens : list nat) :
  lens ≠ [] →
  ∃ k pre post,
    default_turns lens = Z.of_nat k
    ∧ lens = pre ++ k :: post
    ∧ (k ∉ pre)
    ∧ (∀ j, occurrences j lens ≤ occurrences k lens)
    ∧ (∀ j, j ∈ pre → occurrences j lens < occurrences k lens).
Proof.
  intros Hne. unfold default_turns.
  destruct lens as [|l0 lens']; [done|]. set (lens := l0 :: lens') in *.
  pose proof (most_common1_first_max (Counter lens)) as Hmc.
  rewrite Counter_closed in Hmc |- *.
  destruct (most_common1 _) as [[k n]|].
  2: { assert (l0 ∈ first_seen lens) as Hin
         by (apply first_seen_elem; by left).
       destruct (first_seen lens); [by apply elem_of_nil in Hin|done]. }
  destruct Hmc as (i & Hi & Hmax).
  rewrite list_lookup_fmap in Hi.
  destruct (first_seen lens !! i) as [k'|] eqn:Hk; [|done].
  injection Hi as -> <-.
  destruct (first_seen_order lens i k Hk) as (pre & post & Hl & Hpre & Hbefore).
  exists k, pre, post. repeat split; try done.
  - intros j. destruct (decide (j ∈ lens)) as [Hj|Hj].
    + apply first_seen_elem, list_elem_of_lookup in Hj as [i' Hi'].
      destruct (Hmax i' (j, occurrences j lens)) as [Hle _]; [|done].
      by rewrite list_lookup_fmap, Hi'.
    + rewrite (occurrences_none j) by done. lia.
  - intros j Hj. apply Hbefore, list_elem_of_lookup in Hj as [i' Hi'].
    apply lookup_take_Some in Hi' as [Hi' Hlt].
    destruct (Hmax i' (j, occurrences j lens)) as [_ Hlt']; [|by apply Hlt'].
    by rewrite list_lookup_fmap, Hi'.
Qed.

Lemma default_turns_mode_witness :
  ∃ k pre post,
    default_turns [3; 2; 2; 3; 1] = Z.of_nat k
    ∧ [3; 2; 2; 3; 1] = pre ++ k :: post
    ∧ (k ∉ pre)
    ∧ (∀ j, occurrences j [3; 2; 2; 3; 1] ≤ occurrences k [3; 2; 2; 3; 1])
    ∧ (∀ j, j ∈ pre
            → occurrences j [3; 2; 2; 3; 1] < occurrences k [3; 2; 2; 3; 1]).
Proof. apply (default_turns_mode [3; 2; 2; 3; 1]). discriminate. Defined.

End MostCommon.


Section Tokens.

(** ** Numeric tokens separated by white space *)

Lemma space_facts (c : ascii) :
  Char.isspace c = true →
  Char.isdigit c = false ∧ Char.eqb c "."%char = false
  ∧ Char.isexp c = false ∧ Char.issign c = false.
Proof. destruct c as [[] [] [] [] [] [] [] []]; by vm_compute. Qed.

Lemma gap_not_digit (rest : text) :
  gap rest → match rest with c :: _ => Char.isdigit c = false | [] => True end.
Proof. destruct rest as [|c r]; [done|]. intros Hc. by apply space_facts. Qed.

Lemma opt_exponent_gap (ex : option (bool * text)) (rest : text) :
  match ex with None => True | Some (_, ed) => ed ≠ [] ∧ digits ed end →
  gap rest →
  Re.opt_exponent (exponent_text ex ++ rest) = (exponent_text ex, rest).
Proof.
  intros Hex Hrest. destruct ex as [[eneg ed]|]; simpl.
  - destruct Hex as [Hne Hed].
    destruct eneg; simpl;
      (rewrite span_digits; [|done|by apply gap_not_digit]);
      by destruct ed.
  - destruct rest as [|c r]; [done|]. simpl.
    destruct (space_facts c Hrest) as (_ & _ & -> & _). done.
Qed.

Lemma num_match_gap (tp : token_parts) (rest : text) :
  token_wf tp → gap rest →
  Re.num_match (token_text tp ++ rest) = Some (token_text tp).
Proof.
  intros (Hne & Hip & Hfp & Hex) Hrest.
  destruct tp as [neg ip fp ex]. unfold token_text; simpl in *.
  assert (match exponent_text ex ++ rest with
          | c :: _ => Char.isdigit c = false ∧ Char.eqb c "."%char = false
          | [] => True
          end) as Htail.
  { destruct ex as [[eneg ed]|]; simpl; [done|].
    destruct rest as [|c r]; [done|].
    destruct (space_facts c Hrest) as (? & ? & _). done. }
  unfold Re.num_match.
  assert (Re.opt_sign ((F64.sign_text neg
            ++ F64.with_fraction ip fp ++ exponent_text ex) ++ rest)
          = (F64.sign_text neg,
             F64.with_fraction ip fp ++ exponent_text ex ++ rest)) as ->.
  { destruct neg; simpl; [by rewrite <- app_assoc|].
    rewrite <- app_assoc.
    destruct ip as [|i ip]; [done|].
    unfold F64.with_fraction.
    assert (Char.issign i = false) as Hi.
    { apply digit_not_sign. unfold digits in Hip. simpl in Hip.
      by apply andb_true_iff in Hip as [? _]. }
    destruct fp; simpl; by rewrite Hi. }
  rewrite mantissa_text by done. cbn [mbind option_bind].
  rewrite opt_exponent_gap by done. done.
Qed.

Lemma num_findall_gap (tp : token_parts) (rest : text) :
  token_wf tp → gap rest →
  Re.num_findall_from 0 (token_text tp ++ rest)
  = token_text tp :: Re.num_findall_from 0 rest.
Proof.
  intros Hwf Hrest.
  pose proof (num_match_gap tp rest Hwf Hrest) as Hm.
  pose proof (token_text_nonempty tp Hwf) as Hne.
  destruct (token_text tp) as [|c t]; [done|].
  cbn [app Re.num_findall_from]. cbn [app] in Hm. rewrite Hm.
  f_equal. cbn [length pred]. apply num_findall_skip.
Qed.

Lemma format_7g_spaced (v : float) :
  spaced (F64.format_7g v)
  ∧ Re.num_findall (F64.format_7g v)
    = if F64.is_finite v then [F64.format_7g v] else [].
Proof.
  destruct (F64.is_finite v) eqn:Hv.
  - destruct (format_g_token 7 v Hv) as (tp & Hwf & Htp); [lia|].
    unfold F64.format_7g. rewrite Htp.
    assert (Re.num_findall (token_text tp) = [token_text tp]) as Hall.
    { unfold Re.num_findall.
      rewrite <- (app_nil_r (token_text tp)) at 1.
      by rewrite num_findall_gap. }
    split; [|done]. intros rest Hrest.
    rewrite Hall. by apply num_findall_gap.
  - destruct v as [s|s| |s m e]; try done.
    split; [|by destruct s]. intros rest _. by destruct s.
Qed.

Lemma spaced_join (ps : list text) :
  Forall spaced ps →
  Re.num_findall (Str.join (txt " ") ps) = concat (map Re.num_findall ps).
Proof.
  intros Hps.
  assert (∀ rest, gap rest →
            Re.num_findall_from 0 (Str.join (txt " ") ps ++ rest)
            = concat (map Re.num_findall ps) ++ Re.num_findall_from 0 rest)
    as Hgen.
  { induction Hps as [|p ps Hp Hps IH]; intros rest Hrest; [done|].
    destruct ps as [|q ps].
    { simpl. rewrite app_nil_r. by apply Hp. }
    change (Str.join (txt " ") (p :: q :: ps))
      with (p ++ " "%char :: Str.join (txt " ") (q :: ps)).
    rewrite <- app_assoc. rewrite Hp by done.
    cbn [map concat]. rewrite <- app_assoc. f_equal.
    change ((" "%char :: Str.join (txt " ") (q :: ps)) ++ rest)
      with (" "%char :: (Str.join (txt " ") (q :: ps) ++ rest)).
    change (Re.num_findall_from 0 (" "%char :: ?s))
      with (Re.num_findall_from 0 s).
    by apply IH. }
  unfold Re.num_findall at 1.
  rewrite <- (app_nil_r (Str.join _ _)), Hgen by done.
  simpl. by rewrite app_nil_r.
Qed.

(** The numbers read from values written by default with spaces between
    them. *)
Lemma numbers_join (vs : list float) :
  numbers (Str.join (txt " ") (map F64.format_7g vs)) = read_back vs.
Proof.
  unfold numbers, read_back. rewrite spaced_join.
  2: { apply Forall_fmap, Forall_true. intros v. apply format_7g_spaced. }
  assert (concat (map Re.num_findall (map F64.format_7g vs))
          = map F64.format_7g (filter (λ v, F64.is_finite v = true) vs))
    as ->; [|by rewrite map_map].
  induction vs as [|v vs IH]; [done|].
  cbn [map concat]. rewrite IH, (proj2 (format_7g_spaced v)).
  rewrite filter_cons. destruct (F64.is_finite v); by case_decide.
Qed.

End Tokens.

Section Lines.

(** ** Lines, white space and words *)

Lemma linebreak_space (c : ascii) :
  Char.islinebreak c = true → Char.isspace c = true.
Proof. destruct c as [[] [] [] [] [] [] [] []]; by vm_compute. Qed.

Lemma black_one_line (s : text) :
  forallb (λ c, negb (Char.isspace c)) s = true → one_line s.
Proof.
  apply forallb_impl. intros c Hc. apply negb_true_iff.
  destruct (Char.islinebreak c) eqn:Hb; [|done].
  apply linebreak_space in Hb. by rewrite Hb in Hc.
Qed.

Lemma one_line_app (a b : text) : one_line a → one_line b → one_line (a ++ b).
Proof. unfold one_line. rewrite forallb_app. by intros -> ->. Qed.

Lemma splitlines_aux_line (cur l rest : text) :
  one_line l →
  Str.splitlines_aux cur (l ++ Char.newline :: rest)
  = (reverse cur ++ l) :: Str.splitlines_aux [] rest.
Proof.
  revert cur. induction l as [|c l IH]; intros cur Hl.
  { simpl. by rewrite app_nil_r. }
  unfold one_line in Hl. simpl in Hl. apply andb_true_iff in Hl as [Hc Hl].
  apply negb_true_iff in Hc. cbn [app Str.splitlines_aux]. rewrite Hc.
  rewrite IH by done. by rewrite reverse_cons, <- app_assoc.
Qed.

(** The lines of a text made of lines, each closed by a line feed. *)
Lemma splitlines_lines (ls : list text) :
  Forall one_line ls →
  Str.splitlines (concat (map (λ l, l ++ [Char.newline]) ls)) = ls.
Proof.
  unfold Str.splitlines. induction 1 as [|l ls Hl Hls IH]; [done|].
  cbn [map concat]. rewrite <- app_assoc. cbn [app].
  rewrite splitlines_aux_line by done. by rewrite IH.
Qed.

Lemma rstrip_black (s : text) (c : ascii) :
  Char.isspace c = false → Str.rstrip (s ++ [c]) = s ++ [c].
Proof.
  intros Hc. unfold Str.rstrip. rewrite reverse_snoc.
  rewrite lstrip_black by done. by rewrite reverse_cons, reverse_involutive.
Qed.

Lemma rstrip_space (s : text) (c : ascii) :
  Char.isspace c = true → Str.rstrip (s ++ [c]) = Str.rstrip s.
Proof.
  intros Hc. unfold Str.rstrip, Str.lstrip. rewrite reverse_snoc.
  simpl. rewrite Hc. by destruct (Str.span Char.isspace (reverse s)).
Qed.

Lemma split_ws_word_end (m : nat) (cur w : text) :
  forallb (λ c, negb (Char.isspace c)) w = true →
  Str.split_ws_aux m (Some cur) w = [reverse cur ++ w].
Proof.
  revert cur. induction w as [|a w IH]; intros cur Hw.
  { simpl. by rewrite app_nil_r. }
  simpl in Hw. apply andb_true_iff in Hw as [Ha Hw].
  apply negb_true_iff in Ha. cbn [Str.split_ws_aux]. rewrite Ha.
  rewrite IH by done. by rewrite reverse_cons, <- app_assoc.
Qed.

Lemma split_ws_word_more (m : nat) (cur w : text) (c : ascii) (r : text) :
  forallb (λ c, negb (Char.isspace c)) w = true →
  Char.isspace c = true →
  Str.split_ws_aux m (Some cur) (w ++ c :: r)
  = (reverse cur ++ w) :: Str.split_ws_aux m None r.
Proof.
  revert cur. induction w as [|a w IH]; intros cur Hw Hc.
  { cbn [app Str.split_ws_aux]. by rewrite Hc, app_nil_r. }
  simpl in Hw. apply andb_true_iff in Hw as [Ha Hw].
  apply negb_true_iff in Ha. cbn [app Str.split_ws_aux]. rewrite Ha.
  rewrite IH by done. by rewrite reverse_cons, <- app_assoc.
Qed.

Lemma split_ws_first (k : nat) (w : text) (c : ascii) (r : text) :
  word w → Char.isspace c = true →
  Str.split_ws_aux (S k) None (w ++ c :: r)
  = w :: Str.split_ws_aux k None r.
Proof.
  intros [Hne Hw] Hc. destruct w as [|a w]; [done|].
  simpl in Hw. apply andb_true_iff in Hw as [Ha Hw].
  apply negb_true_iff in Ha. cbn [app Str.split_ws_aux]. rewrite Ha.
  by rewrite split_ws_word_more.
Qed.

Lemma split_ws_last (k : nat) (w : text) :
  word w → Str.split_ws_aux (S k) None w = [w].
Proof.
  intros [Hne Hw]. destruct w as [|a w]; [done|].
  simpl in Hw. apply andb_true_iff in Hw as [Ha Hw].
  apply negb_true_iff in Ha. cbn [Str.split_ws_aux]. rewrite Ha.
  by rewrite split_ws_word_end.
Qed.

Lemma split_ws_rest (p : text) :
  p ≠ [] → starts_black p → Str.split_ws_aux 0 None p = [p].
Proof.
  destruct p as [|c p]; [done|]. simpl. by intros _ ->.
Qed.

Lemma join_snoc (sep : text) (ps : list text) (q : text) :
  ∃ t, Str.join sep (ps ++ [q]) = t ++ q.
Proof.
  induction ps as [|p ps IH]; [by exists []|].
  destruct IH as [t Ht]. destruct ps as [|p' ps].
  - exists (p ++ sep). simpl. by rewrite <- app_assoc.
  - exists (p ++ sep ++ t).
    change (Str.join sep ((p :: p' :: ps) ++ [q]))
      with (p ++ sep ++ Str.join sep ((p' :: ps) ++ [q])).
    rewrite Ht. by rewrite <- !app_assoc.
Qed.

(** Values written by default with spaces between them: a text that
    starts and ends on a character that is not white space, on one line. *)
Lemma join_format_7g (v : float) (vs : list float) :
  let p := Str.join (txt " ") (map F64.format_7g (v :: vs)) in
  starts_black p ∧ one_line p
  ∧ ∃ t c, p = t ++ [c] ∧ Char.isspace c = false.
Proof.
  intros p.
  assert (∀ u, forallb (λ c, negb (Char.isspace c)) (F64.format_7g u) = true)
    as Hblack.
  { intros u. apply (forallb_impl format_char); [|apply format_7g_chars].
    intros c Hc. apply negb_true_iff. by apply format_char_black. }
  split; [|split].
  - destruct (join_head (txt " ") (F64.format_7g v) (map F64.format_7g vs))
      as [tail Ht]. unfold p. cbn [map]. rewrite Ht.
    destruct (format_7g_chars v) as [_ Hne]. specialize (Hblack v).
    destruct (F64.format_7g v) as [|c t]; [done|]. simpl in *.
    apply andb_true_iff in Hblack as [Hc _]. by apply negb_true_iff.
  - unfold p, one_line. apply forallb_join; [done|].
    apply Forall_fmap, Forall_true. intros u. apply black_one_line, Hblack.
  - destruct (exists_last (l := v :: vs)) as (us & u & Hu); [done|].
    unfold p. rewrite Hu, map_app. cbn [map].
    destruct (join_snoc (txt " ") (map F64.format_7g us) (F64.format_7g u))
      as [t ->].
    destruct (format_7g_chars u) as [_ Hne]. specialize (Hblack u).
    destruct (exists_last Hne) as (w & c & Hw). rewrite Hw in *.
    exists (t ++ w), c. split; [by rewrite <- app_assoc|].
    rewrite forallb_app in Hblack. simpl in Hblack.
    apply andb_true_iff in Hblack as [_ Hc].
    apply andb_true_iff in Hc as [Hc _]. by apply negb_true_iff.
Qed.

End Lines.


Section FromParenToRow.
Import BPMDataParen SddsText.

(** ** The lines of the text written by [to_sdds] *)

Lemma one_line_digits (ds : text) : digits ds → one_line ds.
Proof.
  apply forallb_impl. intros c Hc.
  destruct c as [[] [] [] [] [] [] [] []]; by vm_compute in Hc |- *.
Qed.

Lemma one_line_replicate (n : nat) (c : ascii) :
  Char.islinebreak c = false → one_line (replicate n c).
Proof. intros Hc. apply forallb_replicate. by rewrite Hc. Qed.

Lemma one_line_fixed_digits (P : nat) (D : Z) :
  one_line (F64.fixed_digits P D).
Proof.
  unfold F64.fixed_digits.
  set (ds := replicate _ _ ++ F64.decimal _).
  assert (one_line ds) as Hds.
  { apply one_line_app; [by apply one_line_replicate|].
    apply one_line_digits, uint_text_digits. }
  destruct P; [done|].
  apply one_line_app; [by apply forallb_take|].
  unfold one_line in *. simpl. by apply forallb_drop.
Qed.

Lemma one_line_format_f (w P : nat) (v : float) :
  one_line (F64.format_f w P v).
Proof.
  unfold F64.format_f. apply one_line_app; [by apply one_line_replicate|].
  destruct v as [s|s| |s m e]; [|by destruct s|done|].
  - apply one_line_app; [by destruct s|apply one_line_fixed_digits].
  - destruct (if (0 <=? e)%Z then _ else _) as [n d].
    apply one_line_app; [by destruct s|apply one_line_fixed_digits].
Qed.

Lemma whole_lines (o : sdds_options) (d : dataset) :
  whole o d = concat (map (λ l, l ++ [Char.newline]) (all_lines o d)).
Proof.
  unfold whole, all_lines. rewrite map_app, concat_app. f_equal.
  - unfold preamble, comment_lines. rewrite !map_app, !concat_app.
    assert (header o
            = concat (map (λ l, l ++ [Char.newline])
                        match header_lines o with
                        | Some ls => map (λ line, txt "# " ++ Str.rstrip line) ls
                        | None => []
                        end)) as <-.
    { unfold header. destruct (header_lines o) as [ls|]; [|done].
      rewrite map_map. reflexivity. }
    assert (match ring_id o with
            | [] => []
            | _ => txt "# RingID: " ++ ring_id o ++ [Char.newline]
            end
            = concat (map (λ l, l ++ [Char.newline])
                        match ring_id o with
                        | [] => []
                        | _ => [txt "# RingID: " ++ ring_id o]
                        end)) as <-.
    { destruct (ring_id o) as [|r rs]; [done|].
      cbn [map concat]. by rewrite app_nil_r, <- app_assoc. }
    cbn [map concat]. rewrite app_nil_r. by rewrite <- !app_assoc.
  - induction (list_bpms d) as [|name names IH]; [done|].
    cbn [map concat]. rewrite map_app, concat_app, <- IH. f_equal.
    unfold lines_of, lines_list. destruct (d !! name) as [c|]; [|done].
    unfold data_line. cbn [map concat]. by rewrite app_nil_r.
Qed.

(** ** What the row reader takes from each line *)

Lemma line_numbers_comment (tag name r : text) :
  line_numbers tag name ("#"%char :: r) = [].
Proof.
  unfold line_numbers, Str.strip.
  rewrite (lstrip_black ("#"%char :: r)) by done.
  destruct (rstrip_cons_black "#"%char r) as [t ->]; [done|].
  by rewrite orb_true_r.
Qed.

Lemma strip_black (s : text) (c : ascii) :
  starts_black (s ++ [c]) → Char.isspace c = false →
  Str.strip (s ++ [c]) = s ++ [c].
Proof.
  intros Hs Hc. unfold Str.strip. rewrite lstrip_black by done.
  by apply rstrip_black.
Qed.

Lemma word_snoc (w : text) :
  word w → ∃ t c, w = t ++ [c] ∧ Char.isspace c = false.
Proof.
  intros [Hne Hw]. destruct (exists_last Hne) as (t & c & ->).
  exists t, c. split; [done|].
  rewrite forallb_app in Hw. simpl in Hw.
  apply andb_true_iff in Hw as [_ Hc].
  apply andb_true_iff in Hc as [Hc _]. by apply negb_true_iff.
Qed.

(** A data line written by default gives its values to its plane and its
    name, and nothing to the others. *)
Lemma line_numbers_data (o : sdds_options) (tag' name' tag name : text)
    (vals : list float) :
  fmt o = F64.format_7g →
  tag ∈ [txt "0"; txt "1"] → word name →
  line_numbers tag' name' (body_line o tag name vals)
  = if bool_decide (tag = tag' ∧ name = name') then read_back vals else [].
Proof.
  intros Hfmt Htag Hname. unfold body_line. rewrite Hfmt.
  assert (word tag) as Hword.
  { repeat (apply elem_of_cons in Htag as [->|Htag]; [done|]).
    by apply elem_of_nil in Htag. }
  assert (∀ r, starts_black (tag ++ r)) as Hstart.
  { intros r. repeat (apply elem_of_cons in Htag as [->|Htag]; [done|]).
    by apply elem_of_nil in Htag. }
  assert (∀ r, Str.startswith (txt "#") (tag ++ r) = false) as Hnohash.
  { intros r. repeat (apply elem_of_cons in Htag as [->|Htag]; [done|]).
    by apply elem_of_nil in Htag. }
  destruct vals as [|v vs].
  - cbn [map Str.join]. rewrite app_nil_r.
    assert (read_back [] = []) as -> by done.
    assert ((if bool_decide (tag = tag' ∧ name = name') then [] else [])
            = ([] : list float)) as -> by by case_bool_decide.
    destruct (word_snoc name Hname) as (t & c & Hn & Hc).
    rewrite Hn in Hname |- *.
    unfold line_numbers.
    assert (Str.strip (tag ++ txt " " ++ (t ++ [c]) ++ txt " ")
            = tag ++ txt " " ++ t ++ [c]) as ->.
    { unfold Str.strip. rewrite lstrip_black by apply Hstart.
      change (txt " ") with [" "%char].
      rewrite !app_assoc. rewrite rstrip_space by done.
      by rewrite rstrip_black. }
    rewrite Hnohash, orb_false_r.
    rewrite bool_decide_eq_false_2.
    2: { intros Heq. apply (f_equal length) in Heq.
         rewrite !length_app in Heq. simpl in Heq. lia. }
    unfold Str.split_ws. change (txt " ") with [" "%char]. cbn [app].
    rewrite split_ws_first by done.
    by rewrite split_ws_last.
  - destruct (join_format_7g v vs) as (Hblack & _ & t & c & Hp & Hc).
    set (p := Str.join (txt " ") (map F64.format_7g (v :: vs))) in *.
    unfold line_numbers.
    assert (Str.strip (tag ++ txt " " ++ name ++ txt " " ++ p)
            = tag ++ txt " " ++ name ++ txt " " ++ p) as ->.
    { rewrite Hp, !app_assoc. apply strip_black; [|done].
      rewrite <- !app_assoc. apply Hstart. }
    rewrite Hnohash, orb_false_r.
    rewrite bool_decide_eq_false_2.
    2: { intros Heq. apply (f_equal length) in Heq.
         rewrite !length_app in Heq. simpl in Heq. lia. }
    unfold Str.split_ws. change (txt " ") with [" "%char]. cbn [app].
    rewrite split_ws_first by done.
    rewrite split_ws_first by done.
    rewrite split_ws_rest; [|by rewrite Hp; destruct t|done].
    unfold p. by rewrite numbers_join.
Qed.

Lemma comment_lines_numbers (o : sdds_options) (d : dataset)
    (tag name : text) :
  concat (map (line_numbers tag name) (comment_lines o d)) = [].
Proof.
  assert (∀ ls : list text,
            Forall (λ l, ∃ r, l = "#"%char :: r) ls →
            concat (map (line_numbers tag name) ls) = []) as Hall.
  { induction 1 as [|l ls [r ->] Hls IH]; [done|].
    cbn [map concat]. by rewrite line_numbers_comment, IH. }
  apply Hall. unfold comment_lines. repeat apply Forall_app_2.
  - repeat constructor; by eexists.
  - destruct (ring_id o); repeat constructor; by eexists.
  - repeat constructor; by eexists.
  - destruct (header_lines o) as [ls|]; [|constructor].
    apply Forall_fmap, Forall_true. intros line. by eexists.
Qed.

Lemma one_line_body (o : sdds_options) (tag name : text)
    (vals : list float) :
  fmt o = F64.format_7g → tag ∈ [txt "0"; txt "1"] → word name →
  one_line (body_line o tag name vals).
Proof.
  intros Hfmt Htag [_ Hname]. unfold body_line. rewrite Hfmt.
  repeat apply one_line_app; try done.
  - repeat (apply elem_of_cons in Htag as [->|Htag]; [done|]).
    by apply elem_of_nil in Htag.
  - by apply black_one_line.
  - destruct vals as [|v vs]; [done|]. apply join_format_7g.
Qed.

Lemma one_line_all (o : sdds_options) (d : dataset) :
  fmt o = F64.format_7g → plain_comments o →
  (∀ name, is_Some (d !! name) → word name) →
  Forall one_line (all_lines o d).
Proof.
  intros Hfmt (Hbeam & Hring & Hheader) Hnames.
  unfold all_lines. apply Forall_app_2.
  - unfold comment_lines. repeat apply Forall_app_2.
    + repeat constructor. apply one_line_app; [exact eq_refl|exact Hbeam].
    + destruct (ring_id o) as [|r rs] eqn:Hr; repeat constructor.
      apply one_line_app; [exact eq_refl|done].
    + repeat constructor;
        (apply one_line_app; [exact eq_refl|apply one_line_format_f]).
    + destruct (header_lines o) as [ls|]; [|constructor].
      apply Forall_fmap. eapply Forall_impl; [by apply Hheader|].
      intros line Hline. apply one_line_app; [exact eq_refl|done].
  - apply Forall_concat, Forall_fmap, Forall_forall.
    intros name Hin%elem_of_list_bpms. pose proof (Hnames name Hin) as Hw.
    unfold lines_list. simpl. destruct (d !! name) as [c|]; [|constructor].
    repeat constructor; apply one_line_body; try done; repeat constructor.
Qed.

Lemma lines_list_numbers (o : sdds_options) (d : dataset)
    (tag name : text) (names : list text) :
  fmt o = F64.format_7g →
  tag ∈ [txt "0"; txt "1"] →
  NoDup names →
  (∀ nm, nm ∈ names → is_Some (d !! nm) ∧ word nm) →
  concat (map (line_numbers tag name) (concat (map (lines_list o d) names)))
  = if decide (name ∈ names)
    then match d !! name with
         | Some c =>
             read_back
               (normalize (if bool_decide (tag = txt "0") then c_x c
                           else c_y c) (turn_count o d))
         | None => []
         end
    else [].
Proof.
  intros Hfmt Htag Hnd Hin. induction Hnd as [|nm names Hnm Hnd IH].
  { destruct (decide (name ∈ [])) as [Hk|Hk]; [by apply elem_of_nil in Hk|done]. }
  destruct (Hin nm) as [[c Hc] Hw]; [by left|].
  cbn [map concat]. rewrite map_app, concat_app.
  rewrite IH by (intros ? ?; apply Hin; by right).
  unfold lines_list at 1. rewrite Hc. cbn [map concat].
  rewrite !(line_numbers_data o tag name)
    by first [done|by repeat constructor].
  rewrite app_nil_r.
  destruct (decide (nm = name)) as [->|Hne].
  - rewrite (decide_True (P := name ∈ name :: names)) by (by left).
    rewrite (decide_False (P := name ∈ names)) by done.
    rewrite Hc, app_nil_r.
    apply elem_of_cons in Htag as [->|Htag].
    { rewrite (bool_decide_eq_true_2 (_ ∧ _)) by done.
      rewrite (bool_decide_eq_false_2 (_ ∧ _)) by (by intros [? _]).
      rewrite bool_decide_eq_true_2 by done. by rewrite app_nil_r. }
    apply elem_of_cons in Htag as [->|Htag]; [|by apply elem_of_nil in Htag].
    rewrite (bool_decide_eq_false_2 (_ ∧ _)) by (by intros [? _]).
    rewrite (bool_decide_eq_true_2 (_ ∧ _)) by done.
    by rewrite bool_decide_eq_false_2 by done.
  - rewrite !bool_decide_eq_false_2 by (by intros [_ ?]). cbn [app].
    destruct (decide (name ∈ names)) as [Hk|Hk].
    + by rewrite decide_True by (by right).
    + rewrite decide_False; [done|]. by intros [?|?]%elem_of_cons.
Qed.

(** X12. The paren reader's Dataset written by [to_sdds] in the default
    number format and read by the row reader: when the BPM names are words
    and each comment stays on one line, the writer returns (its two counts
    being floats), and the Dataset read has, for each BPM, the x and the y
    normalised to the number of turns, each value being what seven
    significant digits keep of it (a value that is not finite is lost),
    an empty one mirrored with zeros, and zeros for z; a BPM whose x and y
    give no value at all is lost. *)
Theorem roundtrip_paren_row (o : sdds_options) (d : dataset) :
  fmt o = F64.format_7g →
  plain_comments o →
  (∀ name, is_Some (d !! name) → word name) →
  F64.is_finite (F64.of_Z (turn_count o d)) = true →
  F64.is_finite (F64.of_Z (Z.of_nat (length (list_bpms d)))) = true →
  ∃ out,
    to_sdds o d = Ok out
    ∧ ∀ name,
        BPMDataSDDS.from_file out !! name
        = match d !! name with
          | Some c =>
              let xs := read_back (normalize (c_x c) (turn_count o d)) in
              let ys := read_back (normalize (c_y c) (turn_count o d)) in
              if decide (xs = [] ∧ ys = []) then None
              else Some (BPMDataSDDS.build (xs, ys))
          | None => None
          end.
Proof.
  intros Hfmt Hplain Hnames Hn Hm. exists (whole o d).
  split; [by apply to_sdds_closed|]. intros name.
  assert (∀ tag, tag ∈ [txt "0"; txt "1"] →
            concat (map (line_numbers tag name) (Str.splitlines (whole o d)))
            = match d !! name with
              | Some c =>
                  read_back
                    (normalize (if bool_decide (tag = txt "0") then c_x c
                                else c_y c) (turn_count o d))
              | None => []
              end) as Hlines.
  { intros tag Htag. rewrite whole_lines.
    rewrite splitlines_lines by by apply one_line_all.
    unfold all_lines. rewrite map_app, concat_app, comment_lines_numbers.
    rewrite lines_list_numbers; [|done|done|apply NoDup_list_bpms|].
    2: { intros nm Hin%elem_of_list_bpms. split; [done|by apply Hnames]. }
    cbn [app]. destruct (decide (name ∈ list_bpms d)) as [Hk|Hk]; [done|].
    rewrite elem_of_list_bpms in Hk.
    destruct (d !! name) as [c|] eqn:Hc; [|done]. destruct Hk. by eexists. }
  rewrite (from_file_pair _ name _ _ (accumulate_lines _ name)).
  rewrite !Hlines by repeat constructor.
  destruct (d !! name) as [c|]; [done|]. by rewrite decide_True.
Qed.

Lemma roundtrip_paren_row_witness :
  ∃ out,
    to_sdds sdds_defaults Sample.two_bpms = Ok out
    ∧ ∀ name,
        BPMDataSDDS.from_file out !! name
        = match Sample.two_bpms !! name with
          | Some c =>
              let xs :=
                read_back
                  (normalize (c_x c) (turn_count sdds_defaults Sample.two_bpms))
              in
              let ys :=
                read_back
                  (normalize (c_y c) (turn_count sdds_defaults Sample.two_bpms))
              in
              if decide (xs = [] ∧ ys = []) then None
              else Some (BPMDataSDDS.build (xs, ys))
          | None => None
          end.
Proof.
  apply (roundtrip_paren_row sdds_defaults Sample.two_bpms).
  - reflexivity.
  - split; [reflexivity|]. split; [reflexivity|]. intros ls Hls. discriminate.
  - intros name Hname%elem_of_list_bpms.
    assert (list_bpms Sample.two_bpms = [txt "B"; txt "C"]) as Hl
      by (vm_compute; reflexivity).
    rewrite Hl in Hname.
    repeat (apply elem_of_cons in Hname as [->|Hname];
            [split; [discriminate|reflexivity]|]).
    by apply elem_of_nil in Hname.
  - vm_compute. reflexivity.
  - vm_compute. reflexivity.
Defined.

End FromParenToRow.


Section Lengths.

(** ** Sorting what is sorted *)

Lemma StronglySorted_key {A K} (key : A → K) (le : relation K)
    (l : list A) :
  StronglySorted le (map key l) →
  StronglySorted (λ a b, le (key a) (key b)) l.
Proof.
  induction l as [|a l IH]; [constructor|].
  cbn [map]. intros Hs. apply StronglySorted_inv in Hs as [Hl Ha].
  constructor; [by apply IH|].
  apply Forall_forall. intros b Hb.
  rewrite Forall_forall in Ha. apply Ha. apply list_elem_of_fmap. by exists b.
Qed.

Lemma NoDup_key_inj {A K} (key : A → K) (l : list A) (a b : A) :
  NoDup (map key l) → a ∈ l → b ∈ l → key a = key b → a = b.
Proof.
  induction l as [|c l IH]; [by intros _ ?%elem_of_nil|].
  cbn [map]. intros Hnd Ha Hb Hk. apply NoDup_cons in Hnd as [Hc Hnd].
  apply elem_of_cons in Ha as [->|Ha]; apply elem_of_cons in Hb as [->|Hb].
  - done.
  - destruct Hc. rewrite Hk. apply list_elem_of_fmap. by exists b.
  - destruct Hc. rewrite <- Hk. apply list_elem_of_fmap. by exists a.
  - by apply IH.
Qed.

(** A list whose keys are sorted and distinct is left as it is by a sort
    on the key. *)
Lemma merge_sort_sorted {A K} (key : A → K) (le : relation K)
    `{!RelDecision le, !Transitive le, !Total le, !AntiSymm (=) le}
    `{!RelDecision (λ a b : A, le (key a) (key b))}
    (l : list A) :
  StronglySorted le (map key l) → NoDup (map key l) →
  merge_sort (λ a b, le (key a) (key b)) l = l.
Proof.
  intros Hs Hnd.
  apply (StronglySorted_unique_strong (λ a b, le (key a) (key b))).
  - intros a b Ha Hb Hab Hba.
    rewrite merge_sort_Permutation in Ha.
    apply (NoDup_key_inj key l); try done.
    by apply (anti_symm le).
  - apply StronglySorted_merge_sort.
    + intros a b c. apply transitivity.
    + intros a b. apply (total le).
  - by apply StronglySorted_key.
  - apply merge_sort_Permutation.
Qed.

(** ** The length summary *)

Lemma lengths_rows_closed (get : text → text → result (list float))
    (d : dataset) (names : list text) :
  (∀ name, name ∈ names → is_Some (d !! name)) →
  (∀ name c comp, d !! name = Some c → comp ∈ selectors →
                  get name comp = Ok (component c comp)) →
  lengths_rows get names = Ok (map (length_row d) names).
Proof.
  intros Hin Hget. induction names as [|name names IH]; [done|].
  destruct (Hin name) as [c Hc]; [by left|].
  cbn [lengths_rows map].
  rewrite !(Hget name c) by first [done|by repeat constructor].
  cbn [mbind result_bind]. rewrite IH by (intros ? ?; apply Hin; by right).
  cbn [mbind result_bind]. unfold length_row. by rewrite Hc.
Qed.

Lemma bpm_of_length_row (d : dataset) (name : text) :
  is_Some (d !! name) → bpm_of (length_row d name) = name.
Proof. intros [c Hc]. unfold length_row. by rewrite Hc. Qed.

Lemma lengths_frame_closed (d : dataset) :
  lengths_frame (map (length_row d) (list_bpms d))
  = if decide (d = ∅) then Raise (KeyError (txt "BPM"))
    else Ok (map (length_row d) (list_bpms d)).
Proof.
  assert (map bpm_of (map (length_row d) (list_bpms d)) = list_bpms d)
    as Hkeys.
  { rewrite map_map. rewrite <- (map_id (list_bpms d)) at 2.
    apply map_ext_in. intros name Hin%list_elem_of_In.
    by apply bpm_of_length_row, elem_of_list_bpms. }
  destruct (decide (d = ∅)) as [->|Hne]; [done|].
  unfold lengths_frame.
  destruct (map (length_row d) (list_bpms d)) as [|r rows] eqn:Hrows.
  { destruct (map_choose d Hne) as (k & c & Hk).
    assert (k ∈ list_bpms d) as Hin by (apply elem_of_list_bpms; by eexists).
    destruct (list_bpms d); [by apply elem_of_nil in Hin|done]. }
  rewrite <- Hrows in *. f_equal.
  apply (merge_sort_sorted bpm_of text_le).
  - rewrite Hkeys. apply sorted_sorted.
  - rewrite Hkeys. apply NoDup_list_bpms.
Qed.

(** X13. [summary_lengths] is the same for the two classes. On a Dataset
    with no BPM it raises the [KeyError] of the missing column ["BPM"];
    otherwise it returns one row per BPM, in the sorted order of the
    names, with the name and the lengths of its x, y and z. *)
Theorem summary_lengths_rows (d : dataset) :
  BPMDataParen.summary_lengths d = BPMDataSDDS.summary_lengths d
  ∧ BPMDataSDDS.summary_lengths d
    = if decide (d = ∅) then Raise (KeyError (txt "BPM"))
      else Ok (map (length_row d) (list_bpms d)).
Proof.
  unfold BPMDataParen.summary_lengths, BPMDataSDDS.summary_lengths.
  rewrite (lengths_rows_closed (BPMDataParen.get d) d);
    [|intros ?; apply elem_of_list_bpms
     |intros ? ? ?; apply paren_get_component].
  rewrite (lengths_rows_closed (BPMDataSDDS.get d) d);
    [|intros ?; apply elem_of_list_bpms
     |intros ? ? ?; apply sdds_get_component].
  split; [done|]. cbn [mbind result_bind]. apply lengths_frame_closed.
Qed.

End Lengths.

Section Agreement.
Context `{NumPy}.



End Agreement.


Section StatsOrder.
Context `{NumPy}.

#[local] Instance key_le_dec : RelDecision key_le.
Proof. intros p q. unfold key_le. apply _. Defined.

#[local] Instance key_le_total : Total key_le.
Proof.
  intros p q. unfold key_le.
  destruct (decide (p.1 = q.1)) as [Heq|Hne].
  - rewrite !bool_decide_eq_true_2 by done. apply text_leb_total.
  - rewrite !bool_decide_eq_false_2 by done. apply text_leb_total.
Qed.

#[local] Instance key_le_antisym : AntiSymm (=) key_le.
Proof.
  intros [p1 p2] [q1 q2]. unfold key_le. simpl.
  destruct (decide (p1 = q1)) as [->|Hne].
  - rewrite !bool_decide_eq_true_2 by done.
    intros H1 H2. f_equal. by apply text_leb_antisym.
  - rewrite !bool_decide_eq_false_2 by done.
    intros H1 H2. destruct Hne. by apply text_leb_antisym.
Qed.

#[local] Instance key_le_trans : Transitive key_le.
Proof.
  intros [p1 p2] [q1 q2] [r1 r2]. unfold key_le. simpl.
  destruct (decide (p1 = q1)) as [->|Hpq];
    destruct (decide (q1 = r1)) as [->|Hqr].
  - rewrite !bool_decide_eq_true_2 by done. apply text_leb_trans.
  - rewrite bool_decide_eq_true_2 by done.
    rewrite !bool_decide_eq_false_2 by done. done.
  - rewrite (bool_decide_eq_true_2 (r1 = r1)) by done.
    rewrite !bool_decide_eq_false_2 by done. done.
  - rewrite (bool_decide_eq_false_2 (p1 = q1)) by done.
    rewrite (bool_decide_eq_false_2 (q1 = r1)) by done.
    intros H1 H2. destruct (decide (p1 = r1)) as [->|Hpr].
    + destruct Hpq. by apply text_leb_antisym.
    + rewrite bool_decide_eq_false_2 by done. by eapply text_leb_trans.
Qed.

Lemma elem_of_concat {A} (x : A) (ls : list (list A)) :
  x ∈ concat ls ↔ ∃ l, x ∈ l ∧ l ∈ ls.
Proof.
  rewrite list_elem_of_In, in_concat. split.
  - intros (l & Hl & Hx). exists l. by rewrite !list_elem_of_In.
  - intros (l & Hx & Hl). exists l. by rewrite <- !list_elem_of_In.
Qed.

Lemma triples_sorted (names : list text) :
  StronglySorted text_le names → NoDup names →
  StronglySorted key_le (concat (map triple names))
  ∧ NoDup (concat (map triple names)).
Proof.
  intros Hs Hnd. induction Hs as [|name names Hs IH Hle]; [split; constructor|].
  apply NoDup_cons in Hnd as [Hname Hnd].
  destruct (IH Hnd) as [IHs IHn]. clear IH.
  assert (∀ comp q, q ∈ concat (map triple names) →
            key_le (name, comp) q ∧ (name, comp) ≠ q) as Hlater.
  { intros comp q Hq. apply elem_of_concat in Hq as (t & Hq & Ht).
    apply list_elem_of_fmap in Ht as (m & -> & Hm).
    assert (name ≠ m) as Hne by (by intros ->).
    rewrite Forall_forall in Hle. specialize (Hle m Hm).
    unfold triple in Hq.
    repeat (apply elem_of_cons in Hq as [->|Hq];
            [split; [|by intros [= ?]];
             unfold key_le; simpl; by rewrite bool_decide_eq_false_2|]).
    by apply elem_of_nil in Hq. }
  assert (∀ a b, text_leb a b = true → key_le (name, a) (name, b)) as Hsame.
  { intros a b Hab. unfold key_le. simpl.
    by rewrite bool_decide_eq_true_2. }
  assert (∀ comp, Forall (key_le (name, comp)) (concat (map triple names)))
    as Hall.
  { intros comp. apply Forall_forall. intros q Hq. by apply Hlater. }
  cbn [map concat triple app]. split.
  - constructor; [constructor; [constructor; [done|apply Hall]|]|].
    + constructor; [by apply Hsame|apply Hall].
    + constructor; [by apply Hsame|].
      constructor; [by apply Hsame|apply Hall].
  - apply NoDup_cons. split.
    { intros Hin. apply elem_of_cons in Hin as [?|Hin]; [done|].
      apply elem_of_cons in Hin as [?|Hin]; [done|].
      by destruct (Hlater (txt "x") _ Hin) as [_ ?]. }
    apply NoDup_cons. split.
    { intros Hin. apply elem_of_cons in Hin as [?|Hin]; [done|].
      by destruct (Hlater (txt "y") _ Hin) as [_ ?]. }
    apply NoDup_cons. split; [|done].
    intros Hin. by destruct (Hlater (txt "z") _ Hin) as [_ ?].
Qed.

Lemma row_key_tagged (name comp : text) (st : row) :
  row_key (tagged name comp st) = (name, comp).
Proof.
  unfold row_key, tagged. rewrite lookup_insert_ne by done.
  by rewrite !lookup_insert_eq.
Qed.

Lemma stats_rows_keys (ps : list number)
    (get : text → text → result (list float)) (d : dataset)
    (names : list text) :
  (∀ p, p ∈ ps → in_0_100 p = true) →
  (∀ name, name ∈ names → is_Some (d !! name)) →
  (∀ name c comp, d !! name = Some c → comp ∈ selectors →
                  get name comp = Ok (component c comp)) →
  ∃ rows,
    stats_rows ps get names = Ok rows
    ∧ map row_key rows = concat (map triple names).
Proof.
  intros Hps Hin Hget. induction names as [|name names IH]; [by exists []|].
  destruct (Hin name) as [c Hc]; [by left|].
  destruct IH as (rows & Hrows & Hkeys); [intros ? ?; apply Hin; by right|].
  destruct (stats_for_total ps (component c (txt "x")) Hps) as [sx Hsx].
  destruct (stats_for_total ps (component c (txt "y")) Hps) as [sy Hsy].
  destruct (stats_for_total ps (component c (txt "z")) Hps) as [sz Hsz].
  exists (tagged name (txt "x") sx :: tagged name (txt "y") sy
          :: tagged name (txt "z") sz :: rows).
  split.
  - cbn [stats_rows].
    rewrite !(Hget name c) by first [done|by repeat constructor].
    cbn [mbind result_bind]. rewrite Hsx, Hsy, Hsz, Hrows. done.
  - cbn [map concat triple app]. by rewrite !row_key_tagged, Hkeys.
Qed.

Lemma concat_triple_length (names : list text) :
  length (concat (map triple names)) = 3 * length names.
Proof. induction names as [|n names IH]; simpl in *; lia. Qed.

(** X15. With percentiles in their documented range and a Dataset that
    holds a BPM, [summary_stats] returns exactly three rows per BPM, those
    of x, y and z in this order, the BPMs in the sorted order of their
    names. On a Dataset with no BPM it raises the [KeyError] of the
    missing column ["BPM"]. *)
Theorem summary_stats_order (d : dataset) (ps : list number) :
  (∀ p, p ∈ ps → in_0_100 p = true) →
  if decide (d = ∅)
  then BPMDataSDDS.summary_stats d ps = Raise (KeyError (txt "BPM"))
  else ∃ rows,
         BPMDataSDDS.summary_stats d ps = Ok rows
         ∧ map row_key rows = concat (map triple (list_bpms d))
         ∧ length rows = 3 * size d.
Proof.
  intros Hps. destruct (decide (d = ∅)) as [->|Hne]; [done|].
  destruct (stats_rows_keys ps (BPMDataSDDS.get d) d (list_bpms d))
    as (rows & Hrows & Hkeys);
    [done|intros ?; apply elem_of_list_bpms
    |intros ? ? ?; apply sdds_get_component|].
  assert (length (list_bpms d) = size d) as Hsize.
  { unfold list_bpms. rewrite sorted_perm, length_fmap.
    apply length_map_to_list. }
  exists rows. unfold BPMDataSDDS.summary_stats. rewrite Hrows.
  cbn [mbind result_bind].
  assert (length rows = 3 * size d) as Hlen.
  { rewrite <- (length_map row_key), Hkeys, concat_triple_length. lia. }
  split; [|done]. unfold stats_frame.
  destruct rows as [|r rows].
  { assert (size d = 0) as Hz by (simpl in Hlen; lia).
    by apply map_size_empty_iff in Hz. }
  f_equal. destruct (triples_sorted (list_bpms d)) as [Hs Hn];
    [apply sorted_sorted|apply NoDup_list_bpms|].
  apply (merge_sort_sorted row_key key_le); by rewrite Hkeys.
Qed.

End StatsOrder.

Lemma summary_stats_order_witness :
  if decide (Sample.two_bpms = ∅)
  then @BPMDataSDDS.summary_stats Sample.numpy_stub Sample.two_bpms
         Sample.percentiles
       = Raise (KeyError (txt "BPM"))
  else ∃ rows,
         @BPMDataSDDS.summary_stats Sample.numpy_stub Sample.two_bpms
           Sample.percentiles = Ok rows
         ∧ map row_key rows = concat (map triple (list_bpms Sample.two_bpms))
         ∧ length rows = 3 * size Sample.two_bpms.
Proof.
  apply (@summary_stats_order Sample.numpy_stub Sample.two_bpms
           Sample.percentiles).
  intros p Hp. unfold Sample.percentiles in Hp.
  repeat (apply elem_of_cons in Hp as [->|Hp]; [reflexivity|]).
  by apply elem_of_nil in Hp.
Defined.


Section Header.
Import BPMDataSDDS DataText.

(** ** A header given as one [str] *)

Lemma rstrip_char (c : ascii) :
  Str.rstrip [c] = if Char.isspace c then [] else [c].
Proof.
  unfold Str.rstrip, Str.lstrip. simpl. by destruct (Char.isspace c).
Qed.

Lemma concat_rstrip_chars (h : text) :
  concat (map Str.rstrip (Convert.chars h))
  = filter (λ c, Char.isspace c = false) h.
Proof.
  unfold Convert.chars. induction h as [|c h IH]; [done|].
  cbn [map concat]. rewrite IH, rstrip_char, filter_cons.
  destruct (Char.isspace c); by case_decide.
Qed.

(** X16. A header given to [to_data] as one [str], as [convert_one]
    does, is written without any of its white space: the [str] is taken
    character by character, and each character is stripped on its own. *)
Theorem str_header_loses_spaces (o : data_options) (d : dataset)
    (h : text) :
  header_lines o = Some (Convert.chars h) → h ≠ [] →
  to_data o d
  = Ok (txt "{{" ++ filter (λ c, Char.isspace c = false) h
          ++ txt "}," ++ [Char.newline] ++ txt "{"
          ++ entries o d (length (list_bpms d))
               (imap (λ idx name, (idx, name)) (list_bpms d))
          ++ txt "}}").
Proof.
  intros Hh Hne. rewrite to_data_closed. f_equal.
  unfold whole, opening, closing, has_header. rewrite Hh.
  rewrite <- concat_rstrip_chars.
  destruct (Convert.chars h) as [|l ls] eqn:Hc; [by destruct h|].
  rewrite <- !app_assoc. reflexivity.
Qed.

Lemma str_header_loses_spaces_witness :
  to_data (Convert.options true F64.format_7g Sample.one) ∅
  = Ok (txt "{{" ++ filter (λ c, Char.isspace c = false) Convert.header_text
          ++ txt "}," ++ [Char.newline] ++ txt "{"
          ++ entries (Convert.options true F64.format_7g Sample.one) ∅
               (length (list_bpms ∅))
               (imap (λ idx name, (idx, name)) (list_bpms ∅))
          ++ txt "}}").
Proof.
  apply (str_header_loses_spaces
           (Convert.options true F64.format_7g Sample.one) ∅
           Convert.header_text).
  - reflexivity.
  - discriminate.
Defined.

(** ** Reading a text written with a header *)

Lemma entry_finditer_plain (p rest : text) :
  ("("%char : ascii) ∉ p →
  Re.entry_finditer_from 0 (p ++ rest) = Re.entry_finditer_from 0 rest.
Proof.
  induction p as [|c p IH]; intros Hp; [done|].
  cbn [app Re.entry_finditer_from].
  assert (Re.entry_match (c :: p ++ rest) = None) as ->.
  { unfold Re.entry_match. cbn [Re.expect].
    destruct (Char.eqb "(" c) eqn:Hc; [|done].
    apply Ascii.eqb_eq in Hc. subst c. destruct Hp. by left. }
  apply IH. intros Hin. apply Hp. by right.
Qed.

Lemma from_file_whole_header (o : data_options) (d : dataset) (k : text) :
  fmt o = F64.format_7g → sep o = txt "," → (0 < columns o)%Z →
  (∀ name, is_Some (d !! name) → word name ∧ Char.dquote ∉ name) →
  ("("%char : ascii) ∉ opening o →
  forallb notbackslash (opening o) = true →
  calm (whole o d) = true
  ∧ BPMDataParen.from_file (whole o d) !! k
    = components_of <$> (groups_of o d <$> (d !! k ≫= λ _, Some k)).
Proof.
  intros Hfmt Hsep Hcol Hnames Hparen Hquiet.
  set (names := list_bpms d).
  set (items := imap (λ idx name, (idx, name)) names).
  assert (∀ idx name, (idx, name) ∈ items → is_Some (d !! name)) as Hin.
  { intros idx name Hi. apply elem_of_lookup_imap in Hi
      as (i & m & [= -> ->] & Hm).
    apply elem_of_list_bpms, list_elem_of_lookup. by exists i. }
  assert (whole o d
          = opening o ++ "{"%char :: entries o d (length names) items
              ++ txt "}" ++ closing o) as Hw by done.
  assert (closing o = [] ∨ closing o = txt "}") as Hclose.
  { unfold closing. destruct (has_header o); auto. }
  assert (calm (whole o d) = true) as Hcalm.
  { rewrite Hw, calm_app_quiet by done. rewrite calm_cons by done.
    apply entries_calm; try done. by destruct Hclose as [-> | ->]. }
  split; [done|].
  unfold BPMDataParen.from_file, _join_line_continuations.
  rewrite calm_sub by done. rewrite Hw.
  unfold Re.entry_finditer. rewrite entry_finditer_plain by done.
  cbn [Re.entry_finditer_from].
  assert (Re.entry_match ("{"%char :: entries o d (length names) items
                          ++ txt "}" ++ closing o) = None) as -> by done.
  rewrite entries_finditer by done.
  assert (map (λ '(_, name), groups_of o d name) items
          = map (groups_of o d) names) as ->.
  { unfold items. apply map_imap_pair. }
  assert (Re.entry_finditer_from 0 (txt "}" ++ closing o) = []) as ->
    by (by destruct Hclose as [-> | ->]).
  rewrite app_nil_r.
  change (foldl _ ∅ (map (groups_of o d) names))
    with (foldl insert_groups ∅ (map (groups_of o d) names)).
  rewrite foldl_insert_groups.
  - unfold names. destruct (decide (k ∈ list_bpms d)) as [Hk|Hk];
      rewrite elem_of_list_bpms in Hk.
    + destruct Hk as [c ->]. done.
    + destruct (d !! k) as [c|] eqn:Hc; [|done]. destruct Hk. by eexists.
  - intros name. unfold groups_of. destruct (d !! name) as [c|]; [|done].
    by destruct (entry_arrays o (c_x c) (c_y c)) as [[? ?] ?].
Qed.

End Header.

Section Converter.
Import BPMDataSDDS DataText Convert.
Variable stem : text → text.
Variable with_name : text → text → result text.
Variable with_suffix : text → text → result text.
Variable find_files : store → text → text → bool → list text.

(** ** One conversion *)

Lemma options_opening (include_z : bool) (fm : float → text)
    (scale : float) :
(("("%char : ascii) ∉ opening (options include_z fm scale))
  ∧ forallb notbackslash (opening (options include_z fm scale)) = true.
Proof.
  split; [|by vm_compute].
  intros Hin. vm_compute in Hin.
  repeat (apply elem_of_cons in Hin as [Hin|Hin]; [discriminate|]).
  by apply elem_of_nil in Hin.
Qed.

Lemma components_of_groups (o : data_options) (d : dataset) (name : text)
    (t : components) :
  fmt o = F64.format_7g → sep o = txt "," → (0 < columns o)%Z →
  d !! name = Some t →
  components_of (groups_of o d name)
  = Components
      (read_back (drop 1 (scaled (c_x t) (BPMDataSDDS.scale o))))
      (read_back (drop 1 (scaled (c_y t) (BPMDataSDDS.scale o))))
      (read_back
         (drop 1 (replicate (length (c_x t))
                    (if BPMDataSDDS.include_z o
                     then F64.mul (z_fill o) (BPMDataSDDS.scale o)
                     else F64.zero)))).
Proof.
  intros Hfmt Hsep Hcol Ht. unfold groups_of. rewrite Ht.
  pose proof (entry_arrays_z o (c_x t) (c_y t)) as Hz.
  destruct (entry_arrays o (c_x t) (c_y t)) as [[x1 y1] z1] eqn:Harr.
  simpl in Hz. subst z1.
  unfold entry_arrays in Harr. injection Harr as <- <- _.
  unfold components_of. by rewrite !numbers_fmt_array.
Qed.

(** X17. [convert_one] on a regular file whose destination can be
    written, in the default number format and not as a dry run, reports
    ["ok"] and changes the destination only, whatever [wrap] is. When no
    BPM name holds a double quote, the text written holds no line
    continuation, and the paren reader reads from it the BPMs of the
    source: for each one x and y times the scale factor without their
    first sample, and for z the constant of the writer on the length of x
    less one, every value being what seven significant digits keep of it. *)
Theorem convert_one_roundtrip (fs : store) (src content : text)
    (include_z : bool) (wrap : option Z) (suffix : option text)
    (overwrite : bool) (scale : float) (dst : text) :
  fs !! src = Some (File content) →
  destination stem with_name with_suffix src suffix = Ok dst →
  writable fs dst overwrite →
  ∃ out,
    convert_one stem with_name with_suffix fs src include_z F64.format_7g
      wrap suffix overwrite false scale
    = Ok (<[dst := File out]> fs, (src, Some dst, ok))
    ∧ ((∀ name, is_Some (from_file content !! name) → Char.dquote ∉ name) →
       _join_line_continuations out = out
       ∧ ∀ name,
           BPMDataParen.from_file out !! name
           = converted include_z scale <$> from_file content !! name).
Proof.
  intros Hsrc Hdst Hw.
  set (o := options include_z F64.format_7g scale).
  set (D := from_file content).
  exists (whole o D).
  destruct (options_opening include_z F64.format_7g scale) as [Hparen Hquiet].
  split.
  { unfold convert_one. rewrite Hsrc, Hdst. cbn [mbind result_bind].
    assert (exists_ fs dst && negb overwrite = false) as ->.
    { unfold exists_, writable in *. destruct (fs !! dst) as [[c|]|].
      + subst overwrite. apply andb_false_r.
      + done.
      + rewrite bool_decide_eq_false_2; [done|]. by intros [? ?]. }
    cbn [andb]. unfold write_data.
    fold o D. rewrite to_data_closed.
    unfold writable in Hw. by destruct (fs !! dst) as [[c|]|]. }
  intros Hquote.
  assert (∀ name, is_Some (D !! name) → word name ∧ Char.dquote ∉ name)
    as Hnames.
  { intros name Hname. split; [by eapply from_file_words|by apply Hquote]. }
  split.
  - unfold _join_line_continuations. apply calm_sub.
    by apply (from_file_whole_header o D []).
  - intros name.
    destruct (from_file_whole_header o D name) as [_ ->]; try done.
    destruct (D !! name) as [t|] eqn:Ht; [|done]. cbn.
    f_equal. by rewrite (components_of_groups o D name t).
Qed.

(** ** What a run leaves untouched *)

Lemma convert_one_frame (fs fs' : store) (src : text) (include_z : bool)
    (fm : float → text) (wrap : option Z) (suffix : option text)
    (overwrite dry : bool) (scale : float)
    (r : text * option text * status) :
  convert_one stem with_name with_suffix fs src include_z fm wrap suffix
    overwrite dry scale = Ok (fs', r) →
  (dry = true → fs' = fs)
  ∧ (overwrite = false → ∀ p, is_Some (fs !! p) → fs' !! p = fs !! p).
Proof.
  unfold convert_one.
  destruct (fs !! src) as [[content|]|]; [|by intros [= <- <-]..].
  destruct (destination _ _ _ src suffix) as [dst|e];
    cbn [mbind result_bind]; [|done].
  destruct (exists_ fs dst) eqn:Hex; destruct overwrite; destruct dry;
    cbn [andb negb]; try by intros [= <- <-].
  - unfold write_data. destruct (fs !! dst) as [[c|]|];
      rewrite ?to_data_closed; intros [= <- <-]; by split.
  - unfold write_data. destruct (fs !! dst) as [[c|]|];
      rewrite ?to_data_closed; intros [= <- <-]; by split.
  - unfold exists_ in Hex. apply bool_decide_eq_false in Hex.
    unfold write_data. destruct (fs !! dst) as [[c|]|] eqn:Hd;
      try (destruct Hex; by eexists).
    rewrite to_data_closed. intros [= <- <-]. split; [done|].
    intros _ p Hp. apply lookup_insert_ne. intros <-.
    rewrite Hd in Hp. by destruct Hp.
Qed.

Lemma convert_all_frame (args : arguments) (files : list text)
    (fs fs' : store) (c c' : counters) :
  convert_all stem with_name with_suffix args files fs c = Ok (fs', c') →
  (arg_dry_run args = true → fs' = fs)
  ∧ (Convert.overwrite args = false →
     ∀ p, is_Some (fs !! p) → fs' !! p = fs !! p).
Proof.
  revert fs c. induction files as [|src files IH]; intros fs c.
  { by intros [= <- <-]. }
  cbn [convert_all].
  destruct (convert_one _ _ _ fs src _ _ _ _ _ _ _) as [[fs1 [[s dst] st]]|e]
    eqn:Hone; cbn [mbind result_bind]; [|done].
  intros Hall. apply convert_one_frame in Hone as [Hdry1 Hkeep1].
  apply IH in Hall as [Hdry Hkeep]. split.
  - intros Hd. by rewrite (Hdry Hd), (Hdry1 Hd).
  - intros Ho p Hp. rewrite Hkeep; [by apply Hkeep1|done|].
    rewrite Hkeep1; done.
Qed.

(** X18. A run of [main] that returns: as a dry run it leaves the file
    system as it is; without [--overwrite] it changes no path that existed
    before the run; when the folder given is not a folder it changes
    nothing and the exit code is 2, otherwise the exit code is 0 or 1. *)
Theorem main_preserves (args : arguments) (fs fs' : store) (code : Z) :
  main stem with_name with_suffix find_files args fs = Ok (fs', code) →
  (arg_dry_run args = true → fs' = fs)
  ∧ (Convert.overwrite args = false →
     ∀ p, is_Some (fs !! p) → fs' !! p = fs !! p)
  ∧ (is_dir fs (folder args) = false → fs' = fs ∧ code = 2%Z)
  ∧ (is_dir fs (folder args) = true → code = 0%Z ∨ code = 1%Z).
Proof.
  unfold main. destruct (is_dir fs (folder args)); cbn [negb].
  2: { intros [= <- <-]. by repeat split. }
  destruct (find_files fs _ _ _) as [|f files].
  { intros [= <- <-]. repeat split; try done. by left. }
  destruct (convert_all _ _ _ args (f :: files) fs _) as [[fs1 c]|e] eqn:Hall;
    cbn [mbind result_bind]; [|done].
  intros [= <- <-]. apply convert_all_frame in Hall as [Hdry Hkeep].
  repeat split; try done.
  destruct (n_errors c =? 0)%nat; auto.
Qed.

End Converter.

Lemma convert_one_roundtrip_witness :
  let fs : Convert.store := {[ txt "a" := Convert.File Sample.two_lines ]} in
  ∃ out,
    Convert.convert_one (λ p, p) (λ _ n, Ok n) (λ p s, Ok (p ++ s)) fs
      (txt "a") true F64.format_7g None None false false Sample.one
    = Ok (<[txt "a.data" := Convert.File out]> fs,
          (txt "a", Some (txt "a.data"), Convert.ok))
    ∧ _join_line_continuations out = out
    ∧ ∀ name,
        BPMDataParen.from_file out !! name
        = converted true Sample.one
            <$> BPMDataSDDS.from_file Sample.two_lines !! name.
Proof.
  intros fs.
  destruct (convert_one_roundtrip (λ p, p) (λ _ n, Ok n) (λ p s, Ok (p ++ s))
              fs (txt "a") Sample.two_lines true None None false Sample.one
              (txt "a.data")) as (out & Hok & Hread).
  - reflexivity.
  - reflexivity.
  - exact I.
  - exists out. split; [exact Hok|]. apply Hread.
    assert (BPMDataSDDS.from_file Sample.two_lines
            = {[ txt "BPM1" :=
                   Components [Sample.one; Sample.two; Sample.three]
                     [Sample.four; Sample.five; Sample.six]
                     [F64.zero; F64.zero; F64.zero] ]}) as ->
      by (vm_compute; reflexivity).
    intros name [t Ht]. apply lookup_singleton_Some in Ht as [<- _].
    intros Hq. repeat (apply elem_of_cons in Hq as [Hq|Hq]; [discriminate|]).
    by apply elem_of_nil in Hq.
Defined.

Lemma main_preserves_witness :
  let fs : Convert.store :=
    <[txt "d" := Convert.Folder]>
      {[ txt "d/a.sdds" := Convert.File Sample.two_lines ]} in
  let args :=
    Convert.Arguments (txt "d") (txt "*.sdds") false true F64.format_7g
      None None false true Sample.one in
  (Convert.arg_dry_run args = true → fs = fs)
  ∧ (Convert.overwrite args = false →
     ∀ p, is_Some (fs !! p) → fs !! p = fs !! p)
  ∧ (Convert.is_dir fs (Convert.folder args) = false → fs = fs ∧ 0%Z = 2%Z)
  ∧ (Convert.is_dir fs (Convert.folder args) = true → 0%Z = 0%Z ∨ 0%Z = 1%Z).
Proof.
  intros fs args.
  apply (main_preserves (λ p, p) (λ _ n, Ok n) (λ p s, Ok (p ++ s))
           (λ _ _ _ _, [txt "d/a.sdds"]) args fs fs 0%Z).
  vm_compute. reflexivity.
Defined.


Section Overflow.
Import BPMDataParen SddsText.

(** X19. A number of turns that is beyond the floats makes [to_sdds]
    raise [OverflowError], when the header is formatted, whatever the
    Dataset. *)
Theorem to_sdds_overflow (o : sdds_options) (d : dataset) :
  F64.is_finite (F64.of_Z (turn_count o d)) = false →
  to_sdds o d
  = Raise (OverflowError (txt "int too large to convert to float")).
Proof.
  intros Hn. unfold to_sdds.
  rewrite x_lengths_closed by (intros ?; apply elem_of_list_bpms).
  cbn [mbind result_bind]. fold (lens d). fold (turn_count o d).
  unfold float_of_int. by rewrite Hn.
Qed.

Lemma to_sdds_overflow_witness :
  to_sdds (SddsOptions (txt "Unknown") [] (Some (2 ^ 1024)%Z)
             F64.format_7g None) ∅
  = Raise (OverflowError (txt "int too large to convert to float")).
Proof.
  apply (to_sdds_overflow
           (SddsOptions (txt "Unknown") [] (Some (2 ^ 1024)%Z)
              F64.format_7g None) ∅).
  vm_compute. reflexivity.
Defined.

End Overflow.

Section Percentiles.
Context `{NumPy}.

(** ** Percentiles that share a key *)

Lemma set_percentiles_keep (value : number → result float)
    (ps : list number) (d d' : row) (k : text) :
  set_percentiles value ps d = Ok d' →
  (∀ q, q ∈ ps → percentile_key q ≠ Ok k) →
  d' !! k = d !! k.
Proof.
  revert d. induction ps as [|p ps IH]; intros d; simpl.
  { by intros [= <-]. }
  destruct (value p) as [v|]; simpl; [|done].
  destruct (percentile_key p) as [kp|] eqn:Hkp; simpl; [|done].
  intros Hset Hps. rewrite (IH _ Hset) by (intros q Hq; apply Hps; by right).
  apply lookup_insert_ne. intros <-. by apply (Hps p); [left|].
Qed.

Lemma set_percentiles_last (value : number → result float)
    (ps1 ps2 : list number) (p : number) (d d' : row) (k : text) :
  set_percentiles value (ps1 ++ p :: ps2) d = Ok d' →
  percentile_key p = Ok k →
  (∀ q, q ∈ ps2 → percentile_key q ≠ Ok k) →
  ∃ v, value p = Ok v ∧ d' !! k = Some (CFloat v).
Proof.
  intros Hset Hk Hps2. revert d Hset.
  induction ps1 as [|a ps1 IH]; intros d; cbn [app set_percentiles].
  - destruct (value p) as [v|]; simpl; [|done]. rewrite Hk. simpl.
    intros Hset. exists v. split; [done|].
    rewrite (set_percentiles_keep _ _ _ _ _ Hset Hps2).
    apply lookup_insert_eq.
  - destruct (value a) as [va|]; simpl; [|done].
    destruct (percentile_key a) as [ka|]; simpl; [|done].
    apply IH.
Qed.

(** X20. The key of a percentile is made of its integer part, so that
    two percentiles with the same integer part share one column of the
    summary: the value kept under a key is that of the last percentile of
    the list with this key (NaN on an empty array). *)
Theorem stats_for_last_percentile (ps1 ps2 : list number) (p : number)
    (arr : list float) (st : row) (k : text) :
  stats_for (ps1 ++ p :: ps2) arr = Ok st →
  percentile_key p = Ok k →
  (∀ q, q ∈ ps2 → percentile_key q ≠ Ok k) →
  if (length arr =? 0)%nat then st !! k = Some (CFloat F64.nan)
  else ∃ v, np_percentile arr p = Ok v ∧ st !! k = Some (CFloat v).
Proof.
  unfold stats_for. destruct (length arr =? 0)%nat.
  - intros Hset Hk Hps2.
    destruct (set_percentiles_last _ _ _ _ _ _ _ Hset Hk Hps2)
      as (v & [= <-] & Hv). done.
  - intros Hset Hk Hps2.
    by apply (set_percentiles_last _ _ _ _ _ _ _ Hset Hk Hps2).
Qed.

End Percentiles.

Lemma stats_for_last_percentile_witness :
  ∃ st,
    @stats_for Sample.numpy_stub
      ([Int 5] ++ Float (F64.float_of_token (txt "5.5")) :: []) [Sample.two]
    = Ok st
    ∧ ∃ v,
        @np_percentile Sample.numpy_stub [Sample.two]
          (Float (F64.float_of_token (txt "5.5"))) = Ok v
        ∧ st !! txt "p05" = Some (CFloat v).
Proof.
  eexists. split; [vm_compute; reflexivity|].
  apply (@stats_for_last_percentile Sample.numpy_stub [Int 5] []
           (Float (F64.float_of_token (txt "5.5"))) [Sample.two]).
  - vm_compute. reflexivity.
  - vm_compute. reflexivity.
  - intros q Hq. by apply elem_of_nil in Hq.
Defined.


Section Joining.

(** ** Joining twice *)

Lemma span_app (p : ascii → bool) (s : text) :
  (Str.span p s).1 ++ (Str.span p s).2 = s.
Proof.
  induction s as [|c s IH]; simpl; [done|].
  destruct (p c); [|done]. destruct (Str.span p s). simpl in *. by f_equal.
Qed.

Lemma span_snd_stop (p : ascii → bool) (s : text) :
  match (Str.span p s).2 with c :: _ => p c = false | [] => True end.
Proof.
  induction s as [|c s IH]; simpl; [done|].
  destruct (p c) eqn:Hc; [|done]. by destruct (Str.span p s).
Qed.

Lemma settled_sub (s : text) :
  settled s = true → Re.continuation_sub_from 0 s = s.
Proof.
  induction s as [|c r IH]; [done|]. cbn [settled].
  intros Hs. apply andb_true_iff in Hs as [Hc Hr].
  cbn [Re.continuation_sub_from Re.continuation_match].
  destruct (Char.eqb c Char.backslash).
  - apply negb_true_iff in Hc. rewrite Hc. f_equal. by apply IH.
  - f_equal. by apply IH.
Qed.

Lemma backslash_black (c : ascii) :
  Char.isspace c = true → Char.eqb c Char.backslash = false.
Proof. destruct c as [[] [] [] [] [] [] [] []]; by vm_compute. Qed.

(** What the joining leaves starts as the text does, when the text does
    not start with white space. *)
Lemma sub_starts_black (n : nat) (s : text) :
  length s ≤ n → starts_black s →
  starts_black (Re.continuation_sub_from 0 s).
Proof.
  revert s. induction n as [|n IH]; intros s Hn Hs.
  { destruct s; [done|simpl in Hn; lia]. }
  destruct s as [|c r]; [done|].
  cbn [Re.continuation_sub_from].
  destruct (Re.continuation_match (c :: r)) as [m|] eqn:Hm; [|done].
  cbn [Re.continuation_match] in Hm.
  destruct (Char.eqb c Char.backslash); [|done].
  destruct (existsb _ _); [|done]. injection Hm as <-. cbn [pred].
  pose proof (span_app Char.isspace r) as Happ.
  pose proof (span_snd_stop Char.isspace r) as Hstop.
  pose proof (span_fst_length Char.isspace r) as Hlen.
  destruct (Str.span Char.isspace r) as [w rest]. simpl in *.
  rewrite <- Happ, continuation_sub_skip. apply IH; [|done].
  subst r. rewrite length_app in Hn. lia.
Qed.

Lemma sub_span (r : text) :
  (Str.span Char.isspace (Re.continuation_sub_from 0 r)).1
  = (Str.span Char.isspace r).1.
Proof.
  induction r as [|d r IH]; [done|].
  destruct (Char.isspace d) eqn:Hd.
  - cbn [Re.continuation_sub_from Re.continuation_match].
    rewrite (backslash_black d Hd). simpl. rewrite Hd.
    destruct (Str.span _ (Re.continuation_sub_from 0 r)),
      (Str.span _ r). simpl in *. by f_equal.
  - assert (starts_black (Re.continuation_sub_from 0 (d :: r))) as Hb.
    { apply (sub_starts_black (length (d :: r))); [done|]. exact Hd. }
    set (t := Re.continuation_sub_from 0 (d :: r)) in *.
    cbn [Str.span]. rewrite Hd. cbn [fst].
    destruct t as [|e t]; [done|]. simpl in Hb |- *. by rewrite Hb.
Qed.

Lemma sub_settled (n : nat) (s : text) (k : nat) :
  length s ≤ n → settled (Re.continuation_sub_from k s) = true.
Proof.
  revert s k. induction n as [|n IH]; intros s k Hn.
  { destruct s; [done|simpl in Hn; lia]. }
  destruct s as [|c r]; [done|]. simpl in Hn.
  cbn [Re.continuation_sub_from]. destruct k as [|k]; [|apply IH; lia].
  destruct (Re.continuation_match (c :: r)) as [m|] eqn:Hm; [apply IH; lia|].
  cbn [settled]. rewrite IH by lia. rewrite andb_true_r.
  cbn [Re.continuation_match] in Hm.
  destruct (Char.eqb c Char.backslash); [|done].
  rewrite sub_span. by destruct (existsb _ _).
Qed.

(** X21. Joining the line continuations of a text that has been joined
    changes nothing: no backslash is left before a run of white space
    with a line feed. *)
Theorem join_idempotent (s : text) :
  _join_line_continuations (_join_line_continuations s)
  = _join_line_continuations s.
Proof.
  unfold _join_line_continuations. apply settled_sub.
  by apply (sub_settled (length s)).
Qed.

End Joining.

Section Columns.
Import BPMDataSDDS.

(** ** The lines of an array *)

Lemma chunks_groups {A} (fuel n : nat) (l : list A) :
  0 < n → length l ≤ fuel →
  Forall (λ g, 0 < length g ≤ n) (chunks fuel n l)
  ∧ ∀ i g, chunks fuel n l !! i = Some g →
           S i < length (chunks fuel n l) → length g = n.
Proof.
  intros Hn. revert l. induction fuel as [|fuel IH]; intros l Hl.
  { split; [constructor|done]. }
  destruct l as [|a l]; [split; [constructor|done]|].
  cbn [chunks]. destruct (IH (drop n (a :: l))) as [IH1 IH2].
  { rewrite length_drop. simpl in *. lia. }
  split.
  - constructor; [|done]. rewrite length_take. simpl. lia.
  - intros [|i] g; simpl.
    + intros [= <-] Hlen. rewrite length_take.
      destruct (chunks fuel n (drop n (a :: l))) as [|g' gs] eqn:Hc;
        [simpl in Hlen; lia|].
      destruct fuel as [|fuel']; [done|]. cbn [chunks] in Hc.
      destruct (drop n (a :: l)) as [|b t] eqn:Hd; [done|].
      assert (length (drop n (a :: l)) ≠ 0) as Hnz by (by rewrite Hd).
      rewrite length_drop in Hnz. lia.
    + intros Hg Hlen. apply (IH2 i); [done|lia].
Qed.

(** X22. With a positive number of columns, an array is written as
    lines joined by a comma and a line feed (no indentation is written,
    whatever [indent] is): the lines share out the formatted values in
    their order, each line holds at least one value and at most [columns]
    of them, and every line but the last holds exactly [columns]. *)
Theorem fmt_array_lines (o : data_options) (a : list float) :
  (0 < columns o)%Z →
  ∃ groups,
    fmt_array o a
    = Str.join (","%char :: [Char.newline]) (map (Str.join (sep o)) groups)
    ∧ concat groups = map (fmt o) a
    ∧ Forall (λ g, 0 < length g ≤ Z.to_nat (columns o)) groups
    ∧ ∀ i g, groups !! i = Some g → S i < length groups →
             length g = Z.to_nat (columns o).
Proof.
  intros Hcol.
  exists (chunks (length (map (fmt o) a)) (Z.to_nat (columns o))
            (map (fmt o) a)).
  destruct (chunks_groups (length (map (fmt o) a)) (Z.to_nat (columns o))
              (map (fmt o) a)) as [Hall Hfull]; [lia|done|].
  split; [|split; [apply chunks_concat; [lia|done]|by split]].
  unfold fmt_array. rewrite (proj2 (Z.ltb_lt _ _) Hcol).
  by destruct (map (Str.join (sep o)) _).
Qed.

Lemma fmt_array_lines_witness :
  ∃ groups,
    fmt_array defaults [Sample.one; Sample.two]
    = Str.join (","%char :: [Char.newline])
        (map (Str.join (sep defaults)) groups)
    ∧ concat groups = map (fmt defaults) [Sample.one; Sample.two]
    ∧ Forall (λ g, 0 < length g ≤ Z.to_nat (columns defaults)) groups
    ∧ ∀ i g, groups !! i = Some g → S i < length groups →
             length g = Z.to_nat (columns defaults).
Proof. apply (fmt_array_lines defaults [Sample.one; Sample.two]). reflexivity. Defined.

End Columns.
